(** * cqrskit: command routing, state rebuilding, upcasting and event
      processing, embedded from the TypeScript sources.

    Layout (one module per source class):
    - [Js]                          the JavaScript operators the code relies on
    - [Event]                       src/types/Event.ts
    - [EventUpcasters]              src/upcaster/EventUpcaster.ts
    - [DefaultPartitionKeyResolver] src/eventhandler/partitioning/PartitionKeyResolver.ts
    - [InMemoryAdapter]             examples/custom-adapter/InMemoryAdapter.ts
    - [StateRebuildingCache]        src/command/cache/StateRebuildingCache.ts
    - [CommandRouter]               src/command/CommandRouter.ts
    - [ConcurrentRebuild]           the await points of fetchAndMerge, interleaved
    - [EventHandlingProcessor]      src/eventhandler/EventHandlingProcessor.ts
    - [JsonEventDataMarshaller]     dist/types/EventDataMarshaller.js
    - [SequenceResolvers]           src/eventhandler/partitioning/EventSequenceResolver.ts
    - [CommandHandlingTestFixture]  src/testing/CommandHandlingTestFixture.ts
    - [TaskExample]                 examples/tasks (aggregate, handlers, projector)
    - [HashCode], [CacheInvariant], [StoreInvariant], [CacheCoherence],
      [PartitionedGroup], [LatestByType]  what the theorems are stated with *)

From Stdlib Require Import ZArith List String Ascii Bool Lia.
From stdpp Require Import base option list gmap strings.
From stdpp Require Import pretty.
Import ListNotations.

Set Warnings "-register-all".
Local Open Scope string_scope.

(* ===================================================================== *)
(** ** JavaScript operators *)
(* ===================================================================== *)

Module Js.

(** A thrown exception or a normal completion. *)
Inductive Exc (E A : Type) : Type :=
| Ok (a : A)
| Throw (e : E).
Arguments Ok {E A} a.
Arguments Throw {E A} e.

Definition bind {E A B} (m : Exc E A) (k : A -> Exc E B) : Exc E B :=
  match m with
  | Ok a => k a
  | Throw e => Throw e
  end.

(** ToBoolean on a string: only the empty string is falsy. *)
Definition truthy (s : string) : bool :=
  match s with
  | EmptyString => false
  | String _ _ => true
  end.

(** [x || null] and [x ? .. : undefined] on a [string | null]. *)
Definition orNull (x : option string) : option string :=
  match x with
  | Some s => if truthy s then Some s else None
  | None => None
  end.

(** ToInt32: wrap a mathematical integer into [-2^31, 2^31). *)
Definition toInt32 (x : Z) : Z := ((x + 2 ^ 31) mod 2 ^ 32 - 2 ^ 31)%Z.

(** [a << n] on numbers. *)
Definition shl (a n : Z) : Z := toInt32 (Z.shiftl (toInt32 a) (n mod 32)).

(** [a & b] on numbers. *)
Definition band (a b : Z) : Z := toInt32 (Z.land (toInt32 a) (toInt32 b)).

(** [charCodeAt] over a string of one-byte characters. *)
Definition codeUnits (s : string) : list Z :=
  map (fun c => Z.of_nat (nat_of_ascii c)) (list_ascii_of_string s).

(** A JavaScript [Map]: entries in insertion order; [set] on a present key
    replaces the value in place, on an absent key appends. *)
Section JsMap.
Context {V : Type}.

Definition JsMap := list (string * V).

Fixpoint get (k : string) (m : JsMap) : option V :=
    match m with
    | [] => None
    | (k', v) :: m' => if String.eqb k' k then Some v else get k m'
    end.

Fixpoint set (k : string) (v : V) (m : JsMap) : JsMap :=
    match m with
    | [] => [(k, v)]
    | (k', v') :: m' =>
        if String.eqb k' k then (k', v) :: m' else (k', v') :: set k v m'
    end.

Fixpoint delete (k : string) (m : JsMap) : JsMap :=
    match m with
    | [] => []
    | (k', v) :: m' => if String.eqb k' k then m' else (k', v) :: delete k m'
    end.

Definition size (m : JsMap) : Z := Z.of_nat (length m).

Definition firstKey (m : JsMap) : option string :=
    match m with
    | [] => None
    | (k, _) :: _ => Some k
    end.

Definition values (m : JsMap) : list V := map snd m.
End JsMap.
Arguments JsMap V : clear implicits.

End Js.

Notation "'let!' x ':=' m 'in' k" := (Js.bind m (fun x => k))
  (at level 10, x pattern, m at level 100, k at level 200).

(* ===================================================================== *)
(** ** src/types/Event.ts *)
(* ===================================================================== *)

Module Event.

(** The values of type [any] that events, metadata and aggregates carry. *)
Inductive Json : Type :=
| JNull
| JBool (b : bool)
| JNum (n : Z)
| JStr (s : string)
| JArr (items : list Json)
| JObj (props : list (string * Json)).

(** [Record<string, any>]: a finite map from property names to values. *)
Definition JsRecord := gmap string Json.

(** A thrown [Error], identified by its message. *)
Definition Error := string.

Record RawEvent := {
  id : string;
  type : string;
  source : string;
  subject : string;
  time : string;
  data : JsRecord;
  metadata : option JsRecord
}.

Record Precondition := {
  p_type : string;
  p_payload : JsRecord
}.

Record EventToPublish := {
  tp_source : string;
  tp_subject : string;
  tp_type : string;
  tp_data : JsRecord;
  tp_metadata : option JsRecord;
  tp_preconditions : option (list Precondition)
}.

(** An in-memory event object: its class ([event.constructor.name]) and
    its fields. *)
Record EventObj := {
  constructorName : string;
  fields : JsRecord
}.

(** *** Objects the code builds by assignment

    A [JsRecord] handed to the library is a plain object: its own
    properties are the entries of the map and its prototype is
    [Object.prototype].  Reading [record[key]] therefore also finds the
    members of [Object.prototype], and assigning to [__proto__] reaches the
    accessor of [Object.prototype] unless an own property of that name is
    in the way. *)

(** What a property can hold: a value of the record, or one of the
    built-in members a read of a plain object finds on [Object.prototype]. *)
Inductive Value : Type :=
| Data (v : Json)
| ObjectConstructor                 (* [Object.prototype.constructor] *)
| ObjectPrototypeValue              (* what [record.__proto__] reads as *)
| ObjectMethod (name : string).     (* [Object.prototype.toString], ... *)

(** The prototype of an object under construction.  [OfClass] is the
    prototype of an event class, which holds methods only and inherits
    from [Object.prototype]. *)
Inductive Prototype : Type :=
| OfObject
| OfClass (clazz : string)
| OfNull
| OfPlainObject (props : list (string * Json))
| OfArray (items : list Json).

Record JsObject := {
  properties : gmap string Value;
  prototype : Prototype
}.

(** A record as an object: [{ ...record }]. *)
Definition plain (record : JsRecord) : JsObject :=
  {| properties := Data <$> record; prototype := OfObject |}.

(** The function-valued members of [Object.prototype]. *)
Definition objectMethods : list string :=
  [ "__defineGetter__"; "__defineSetter__"; "hasOwnProperty";
    "__lookupGetter__"; "__lookupSetter__"; "isPrototypeOf";
    "propertyIsEnumerable"; "toString"; "valueOf"; "toLocaleString" ].

(** [record[key]] when [record] has no own property [key] and [key] is not
    [__proto__]; [None] is [undefined]. *)
Definition inherited (key : string) : option Value :=
  if String.eqb key "constructor" then Some ObjectConstructor
  else if existsb (String.eqb key) objectMethods then Some (ObjectMethod key)
  else None.

Definition hasOwn (key : string) (props : list (string * Json)) : bool :=
  existsb (fun prop => String.eqb (fst prop) key) props.

(** Whether an assignment to [__proto__] on an object without an own
    property of that name arrives at the setter of [Object.prototype]: not
    below a [null] prototype, and not when the prototype has a data
    property [__proto__] of its own. *)
Definition setterInReach (prototype : Prototype) : bool :=
  match prototype with
  | OfObject | OfClass _ | OfArray _ => true
  | OfNull => false
  | OfPlainObject props => negb (hasOwn "__proto__" props)
  end.

(** The setter replaces the prototype by an object or [null] and ignores
    every other value. *)
Definition setPrototypeOf (v : Json) (current : Prototype) : Prototype :=
  match v with
  | JNull => OfNull
  | JObj props => OfPlainObject props
  | JArr items => OfArray items
  | JBool _ | JNum _ | JStr _ => current
  end.

(** [o["__proto__"] = x], where [x] is a value [Some v] or, for [None],
    [Object.prototype] itself. *)
Definition assignProto (o : JsObject) (written : option Json) : JsObject :=
  let x := match written with
           | Some v => Data v
           | None => ObjectPrototypeValue
           end in
  match properties o !! "__proto__" with
  | Some _ =>
      {| properties := <["__proto__" := x]> (properties o);
         prototype := prototype o |}
  | None =>
      if setterInReach (prototype o) then
        {| properties := properties o;
           prototype := match written with
                        | Some v => setPrototypeOf v (prototype o)
                        | None => OfObject
                        end |}
      else
        {| properties := <["__proto__" := x]> (properties o);
           prototype := prototype o |}
  end.

(** [o[key] = x] for every other key: what the prototypes above hold under
    [key] is a writable data property, so the object gets its own. *)
Definition assignData (o : JsObject) (key : string) (x : Value) : JsObject :=
  {| properties := <[key := x]> (properties o); prototype := prototype o |}.

End Event.

(* ===================================================================== *)
(** ** src/upcaster/EventUpcaster.ts *)
(* ===================================================================== *)

Module EventUpcasters.
Import Event.

Record UpcasterResult := {
  r_type : string;
  r_data : JsRecord
}.

(** interface EventUpcaster *)
Record EventUpcaster := {
  canUpcast : RawEvent -> bool;
  upcast : RawEvent -> list UpcasterResult
}.

(** [{ ...evt, type: result.type, data: result.data }] *)
Definition spread (evt : RawEvent) (result : UpcasterResult) : RawEvent :=
  {| id := id evt;
     type := r_type result;
     source := source evt;
     subject := subject evt;
     time := time evt;
     data := r_data result;
     metadata := metadata evt |}.

(** The body of the inner [for (const evt of events)] loop: what one event
    contributes to [newEvents]. *)
Definition upcastOne (upcaster : EventUpcaster) (evt : RawEvent)
  : list RawEvent :=
  if canUpcast upcaster evt
  then map (spread evt) (upcast upcaster evt)
  else [evt].

(** One iteration of the outer loop: [newEvents] built from [events]. *)
Definition pass (upcaster : EventUpcaster) (events : list RawEvent)
  : list RawEvent :=
  flat_map (upcastOne upcaster) events.

(** EventUpcasters.upcast, with [upcasters] the registered chain. *)
Definition upcastAll (upcasters : list EventUpcaster) (event : RawEvent)
  : list RawEvent :=
  fold_left (fun events upcaster => pass upcaster events) upcasters [event].

(** What an output shares with the event it came from. *)
Definition sameEnvelope (a b : RawEvent) : Prop :=
  id a = id b /\ subject a = subject b /\ source a = source b /\
  time a = time b /\ metadata a = metadata b.

End EventUpcasters.

(* ===================================================================== *)
(** ** src/eventhandler/partitioning/PartitionKeyResolver.ts *)
(* ===================================================================== *)

Module DefaultPartitionKeyResolver.

(** The constructor: [partitionCount] defaults to 10. *)
Definition create (partitionCount : option Z) : Z :=
  default 10%Z partitionCount.

(** One iteration of the loop body:
    [hash = ((hash << 5) - hash) + char; hash = hash & hash]. *)
Definition step (hash char : Z) : Z :=
  let hash' := (Js.shl hash 5 - hash + char)%Z in
  Js.band hash' hash'.

Definition hashOf (chars : list Z) : Z := fold_left step chars 0%Z.

(** [Math.abs(hash) % this.partitionCount] over the string's code units;
    [%] truncates towards zero. *)
Definition resolveUnits (partitionCount : Z) (chars : list Z) : Z :=
  Z.rem (Z.abs (hashOf chars)) partitionCount.

Definition resolve (partitionCount : Z) (sequenceId : string) : Z :=
  resolveUnits partitionCount (Js.codeUnits sequenceId).

End DefaultPartitionKeyResolver.

(* ===================================================================== *)
(** ** examples/custom-adapter/InMemoryAdapter.ts *)
(* ===================================================================== *)

Module InMemoryAdapter.
Import Event.

(** interface StreamOptions (src/persistence/EventStoreAdapter.ts); an
    absent field is [None]. *)
Record StreamOptions := {
  lowerBound : option string;
  includeLowerBound : option bool;
  upperBound : option string;
  includeUpperBound : option bool;
  latestByEventType : option string
}.

(** The adapter's fields. *)
Record t := {
  events : list RawEvent;
  idCounter : nat
}.

Definition empty : t := {| events := []; idCounter := 0 |}.

(** [Array.prototype.findIndex]; [None] stands for -1. *)
Fixpoint findIndex {A} (p : A -> bool) (l : list A) : option nat :=
  match l with
  | [] => None
  | x :: l' => if p x then Some 0 else option_map S (findIndex p l')
  end.

Definition flag (b : option bool) : bool := default false b.

Definition filterEventsBySubject (st : t) (subject : string) (recursive : bool)
  : list RawEvent :=
  if recursive
  then List.filter (fun e => String.eqb (Event.subject e) subject
                        || String.prefix (subject ++ "/") (Event.subject e))
              (events st)
  else List.filter (fun e => String.eqb (Event.subject e) subject) (events st).

Definition applyLowerBound (options : option StreamOptions)
  (filteredEvents : list RawEvent) : list RawEvent :=
  match Js.orNull (options ≫= lowerBound) with
  | Some bound =>
      match findIndex (fun e => String.eqb (id e) bound) filteredEvents with
      | Some lowerIndex =>
          skipn (lowerIndex +
                 (if flag (options ≫= includeLowerBound) then 0 else 1))
                filteredEvents
      | None => filteredEvents
      end
  | None => filteredEvents
  end.

Definition applyUpperBound (options : option StreamOptions)
  (filteredEvents : list RawEvent) : list RawEvent :=
  match Js.orNull (options ≫= upperBound) with
  | Some bound =>
      match findIndex (fun e => String.eqb (id e) bound) filteredEvents with
      | Some upperIndex =>
          firstn (upperIndex +
                  (if flag (options ≫= includeUpperBound) then 1 else 0))
                 filteredEvents
      | None => filteredEvents
      end
  | None => filteredEvents
  end.

Definition applyLatestByEventType (options : option StreamOptions)
  (filteredEvents : list RawEvent) : list RawEvent :=
  match Js.orNull (options ≫= latestByEventType) with
  | Some wanted =>
      Js.values
        (fold_left
           (fun latestByType event =>
              if String.eqb (type event) wanted
              then Js.set (Event.subject event) event latestByType
              else latestByType)
           filteredEvents [])
  | None => filteredEvents
  end.

(** streamEvents: the events the generator yields, in order.  [recursive]
    defaults to [true]. *)
Definition streamEvents (st : t) (subject : string)
  (options : option StreamOptions) (recursive : option bool) : list RawEvent :=
  applyLatestByEventType options
    (applyUpperBound options
       (applyLowerBound options
          (filterEventsBySubject st subject (default true recursive)))).

(** observeEvents yields the historical events and returns. *)
Definition observeEvents (st : t) (subject : string)
  (options : option StreamOptions) (recursive : option bool) : list RawEvent :=
  streamEvents st subject options recursive.

Definition checkPrecondition (st : t) (precondition : Precondition)
  : Js.Exc Error unit :=
  if String.eqb (p_type precondition) "isSubjectNew" then
    match p_payload precondition !! "subject" with
    | Some (JStr subject) =>
        if existsb (fun e => String.eqb (Event.subject e) subject) (events st)
        then Js.Throw ("Precondition failed: subject '" ++ subject
                       ++ "' already exists")
        else Js.Ok tt
    | _ => Js.Ok tt
    end
  else Js.Ok tt.

Fixpoint checkPreconditions (st : t) (preconditions : list Precondition)
  : Js.Exc Error unit :=
  match preconditions with
  | [] => Js.Ok tt
  | p :: rest =>
      let! _ := checkPrecondition st p in checkPreconditions st rest
  end.

(** One iteration of the publishing loop. *)
Definition publishOne (now : string) (st : t) (event : EventToPublish)
  : RawEvent * t :=
  let rawEvent :=
    {| id := "event-" ++ pretty (idCounter st);
       type := tp_type event;
       source := tp_source event;
       subject := tp_subject event;
       time := now;
       data := tp_data event;
       metadata := Some (default ∅ (tp_metadata event)) |} in
  (rawEvent,
   {| events := events st ++ [rawEvent]; idCounter := S (idCounter st) |}).

Fixpoint publishLoop (now : string) (st : t) (toPublish : list EventToPublish)
  : list RawEvent * t :=
  match toPublish with
  | [] => ([], st)
  | event :: rest =>
      let '(rawEvent, st1) := publishOne now st event in
      let '(published, st2) := publishLoop now st1 rest in
      (rawEvent :: published, st2)
  end.

(** publishEvents; [now] is what [new Date().toISOString()] returns. *)
Definition publishEvents (now : string) (st : t)
  (toPublish : list EventToPublish) (preconditions : option (list Precondition))
  : Js.Exc Error (list RawEvent * t) :=
  let! _ := checkPreconditions st (default [] preconditions) in
  Js.Ok (publishLoop now st toPublish).

End InMemoryAdapter.

(* ===================================================================== *)
(** ** src/command/SourcingMode.ts, src/command/Command.ts *)
(* ===================================================================== *)

Module SourcingMode.

Inductive t := NONE | LOCAL | RECURSIVE.

(** The enum's string value, as interpolated into cache keys. *)
Definition toString (m : t) : string :=
  match m with
  | NONE => "NONE"
  | LOCAL => "LOCAL"
  | RECURSIVE => "RECURSIVE"
  end.

End SourcingMode.

Module SubjectCondition.

Inductive t := NONE | NEW | EXISTS.

End SubjectCondition.

Module Command.
Import Event.

(** A command object: its class name, what [getSubject()] returns, what the
    optional [getSubjectCondition()] returns when it is defined, and its
    fields. *)
Record Command := {
  commandName : string;
  getSubject : string;
  getSubjectCondition : option SubjectCondition.t;
  commandFields : JsRecord
}.

End Command.

(* ===================================================================== *)
(** ** src/command/cache/StateRebuildingCache.ts *)
(* ===================================================================== *)

Module StateRebuildingCache.
Import Event Command.

(** Aggregate instances are objects; the router only passes them around. *)
Definition Instance := JsRecord.

Record CacheKey := {
  k_subject : string;
  k_instanceClass : string;
  k_sourcingMode : SourcingMode.t
}.

(** [eventId] and [instance] are declared non-null but are written with
    non-null assertions from nullable locals, so they can hold [null]. *)
Record CacheValue := {
  eventId : option string;
  instance : option Instance;
  sourcedSubjectIds : gmap string string
}.

(** class InMemoryStateCache *)
Record InMemoryStateCache := {
  cache : Js.JsMap CacheValue;
  capacity : Z
}.

Definition newInMemoryStateCache (capacity : Z) : InMemoryStateCache :=
  {| cache := []; capacity := capacity |}.

Definition buildKey (key : CacheKey) : string :=
  k_subject key ++ ":" ++ k_instanceClass key ++ ":"
  ++ SourcingMode.toString (k_sourcingMode key).

(** The part of InMemoryStateCache.fetchAndMerge before [await merger]:
    read the entry and, when present, remove it. *)
Definition fetch (c : InMemoryStateCache) (key : CacheKey)
  : option CacheValue * InMemoryStateCache :=
  let cacheKey := buildKey key in
  let cached := Js.get cacheKey (cache c) in
  (cached,
   match cached with
   | Some _ => {| cache := Js.delete cacheKey (cache c);
                  capacity := capacity c |}
   | None => c
   end).

(** The part after [await merger]: store the merge, evict the oldest entry
    when over capacity. *)
Definition store (c : InMemoryStateCache) (key : CacheKey) (merged : CacheValue)
  : InMemoryStateCache :=
  let cache1 := Js.set (buildKey key) merged (cache c) in
  let cache2 :=
    if (capacity c <? Js.size cache1)%Z then
      match Js.firstKey cache1 with
      | Some firstKey => Js.delete firstKey cache1
      | None => cache1
      end
    else cache1 in
  {| cache := cache2; capacity := capacity c |}.

(** The two implementations of interface StateRebuildingCache. *)
Inductive t :=
| NoStateRebuildingCache
| InMemory (c : InMemoryStateCache).

(** fetchAndMerge, run without any other call in between. *)
Definition fetchAndMerge (c : t) (key : CacheKey)
  (merger : option CacheValue -> CacheValue) : CacheValue * t :=
  match c with
  | NoStateRebuildingCache => (merger None, NoStateRebuildingCache)
  | InMemory im =>
      let '(cached, im1) := fetch im key in
      let merged := merger cached in
      (merged, InMemory (store im1 key merged))
  end.

End StateRebuildingCache.

(* ===================================================================== *)
(** ** src/types/EventTypeResolver.ts and the marshaller interface *)
(* ===================================================================== *)

Module EventTypeResolver.
Import Event.

(** interface EventTypeResolver; classes are identified by their names. *)
Record t := {
  getEventType : string -> Js.Exc Error string;
  getClass : string -> Js.Exc Error string
}.

Definition ClassNameEventTypeResolver : t :=
  {| getEventType := fun clazz => Js.Ok clazz;
     getClass := fun eventType =>
       Js.Throw ("ClassNameEventTypeResolver cannot resolve class from type '"
                 ++ eventType ++ "'. "
                 ++ "Use ConfiguredEventTypeResolver instead and register your event classes.") |}.

(** ConfiguredEventTypeResolver after a sequence of [register] calls, given
    as (eventType, class) pairs in call order. *)
Definition ConfiguredEventTypeResolver (registered : list (string * string)) : t :=
  let typeToClass :=
    fold_left (fun m r => Js.set (fst r) (snd r) m) registered [] in
  let classToType :=
    fold_left (fun m r => Js.set (snd r) (fst r) m) registered [] in
  {| getEventType := fun clazz =>
       match Js.orNull (Js.get clazz classToType) with
       | Some type => Js.Ok type
       | None => Js.Throw ("No event type registered for class " ++ clazz)
       end;
     getClass := fun eventType =>
       match Js.get eventType typeToClass with
       | Some clazz => Js.Ok clazz
       | None => Js.Throw ("No class registered for event type '"
                           ++ eventType ++ "'")
       end |}.

(** What [deserialize] returns. *)
Record EventData := {
  ed_metadata : JsRecord;
  ed_payload : EventObj
}.

(** interface EventDataMarshaller *)
Record EventDataMarshaller := {
  serialize : JsObject -> EventObj -> Js.Exc Error JsRecord;
  deserialize : JsRecord -> string -> Js.Exc Error EventData
}.

End EventTypeResolver.

(* ===================================================================== *)
(** ** src/command/CommandRouter.ts *)
(* ===================================================================== *)

Module CommandRouter.
Import Event Command StateRebuildingCache EventTypeResolver.

(** The five shapes of a state rebuilding handler, told apart in the source
    by [handler.length]: 2, 3, 4, and anything else.  A handler returns the
    new instance or throws. *)
Inductive StateRebuildingHandler :=
| FromObject
    (h : option Instance -> EventObj -> Js.Exc Error Instance)
| FromObjectAndRawEventOrMetadata
    (h : option Instance -> EventObj -> RawEvent + JsRecord
         -> Js.Exc Error Instance)
| FromObjectAndMetadataAndSubject
    (h : option Instance -> EventObj -> JsRecord -> string
         -> Js.Exc Error Instance)
| FromObjectAndMetadataAndSubjectAndRawEvent
    (h : option Instance -> EventObj -> JsRecord -> string -> option RawEvent
         -> Js.Exc Error Instance).

Record StateRebuildingHandlerDefinition := {
  sr_instanceClass : string;
  sr_eventClass : string;
  sr_handler : StateRebuildingHandler
}.

(** What one [publisher.publish] call buffers. *)
Record Captured := {
  c_event : EventObj;
  c_metadata : JsRecord;
  c_preconditions : list Precondition
}.

(** A run of a command handler: the events it handed to the publisher, in
    call order, and the value it returned or the error it threw. *)
Definition HandlerRun : Type := list Captured * Js.Exc Error Json.

(** The three shapes of a command handler ([handler.length] 2, 3, other). *)
Inductive CommandHandler :=
| ForCommand (h : Command -> HandlerRun)
| ForInstanceAndCommand (h : option Instance -> Command -> HandlerRun)
| ForInstanceAndCommandAndMetadata
    (h : option Instance -> Command -> JsRecord -> HandlerRun).

Record CommandHandlerDefinition := {
  ch_instanceClass : string;
  ch_commandClass : string;
  ch_handler : CommandHandler;
  ch_sourcingMode : SourcingMode.t
}.

Inductive MetadataPropagationMode := MP_NONE | MP_SHALLOW | MP_DEEP.

Record MetadataPropagation := {
  mode : MetadataPropagationMode;
  keys : option (list string)
}.

(** interface CommandRouterConfig; the event store and the cache are the
    mutable collaborators and live in [World].  The store is the
    repository's in-memory adapter, the cache one of its two caches. *)
Record CommandRouterConfig := {
  eventTypeResolver : EventTypeResolver.t;
  eventDataMarshaller : EventDataMarshaller;
  commandHandlers : list CommandHandlerDefinition;
  stateRebuildingHandlers : list StateRebuildingHandlerDefinition;
  eventSource : string;
  upcasters : option (list EventUpcasters.EventUpcaster);
  metadataPropagation : option MetadataPropagation
}.

(** What the router calls on its collaborators, in call order. *)
Inductive Effect :=
| HandlerInvoked (commandName : string)
| PublishCalled (events : list EventToPublish)
                (preconditions : list Precondition).

Record World := {
  eventStore : InMemoryAdapter.t;
  stateCache : StateRebuildingCache.t;
  clock : string;
  effects : list Effect
}.

(** [this.commandHandlers.get(name)]: the constructor's [Map.set] keeps the
    last definition registered under a name. *)
Definition commandHandlerFor (cfg : CommandRouterConfig) (name : string)
  : option CommandHandlerDefinition :=
  Js.get name
    (fold_left (fun m def => Js.set (ch_commandClass def) def m)
               (commandHandlers cfg) []).

(** [this.stateRebuildingHandlers.get(name) || []]: the definitions for an
    instance class, in registration order. *)
Definition stateRebuildingHandlersFor (cfg : CommandRouterConfig)
  (instanceClass : string) : list StateRebuildingHandlerDefinition :=
  List.filter (fun def => String.eqb (sr_instanceClass def) instanceClass)
         (stateRebuildingHandlers cfg).

(** The call made for one matching handler definition. *)
Definition callStateRebuildingHandler (handler : StateRebuildingHandler)
  (instance : option Instance) (event : EventObj) (metadata : JsRecord)
  (subject : string) (rawEvent : option RawEvent) : Js.Exc Error Instance :=
  match handler with
  | FromObject h => h instance event
  | FromObjectAndRawEventOrMetadata h =>
      match rawEvent with
      | Some raw => h instance event (inl raw)
      | None => h instance event (inr metadata)
      end
  | FromObjectAndMetadataAndSubject h => h instance event metadata subject
  | FromObjectAndMetadataAndSubjectAndRawEvent h =>
      h instance event metadata subject rawEvent
  end.

(** The [for (const handlerDef of handlers)] loop of applyStateRebuilding. *)
Fixpoint applyHandlers (handlers : list StateRebuildingHandlerDefinition)
  (instance : option Instance) (event : EventObj) (metadata : JsRecord)
  (subject : string) (rawEvent : option RawEvent)
  : Js.Exc Error (option Instance) :=
  match handlers with
  | [] => Js.Ok instance
  | handlerDef :: rest =>
      if String.eqb (sr_eventClass handlerDef) (constructorName event) then
        let! instance' :=
          callStateRebuildingHandler (sr_handler handlerDef) instance event
                                     metadata subject rawEvent in
        applyHandlers rest (Some instance') event metadata subject rawEvent
      else applyHandlers rest instance event metadata subject rawEvent
  end.

Definition applyStateRebuilding (cfg : CommandRouterConfig)
  (instance : option Instance) (event : EventObj) (metadata : JsRecord)
  (subject : string) (instanceClass : string) (rawEvent : option RawEvent)
  : Js.Exc Error (option Instance) :=
  applyHandlers (stateRebuildingHandlersFor cfg instanceClass)
                instance event metadata subject rawEvent.

(** The [try] block of the rebuild loop for one upcasted event. *)
Definition tryApply (cfg : CommandRouterConfig) (instanceClass : string)
  (current : CacheValue) (upcastedEvent : RawEvent) : Js.Exc Error CacheValue :=
  let! eventClass := getClass (eventTypeResolver cfg) (type upcastedEvent) in
  let! eventData :=
    deserialize (eventDataMarshaller cfg) (data upcastedEvent) eventClass in
  let! currentInstance :=
    applyStateRebuilding cfg (instance current) (ed_payload eventData)
      (ed_metadata eventData) (subject upcastedEvent) instanceClass
      (Some upcastedEvent) in
  Js.Ok {| eventId := Some (id upcastedEvent);
           instance := currentInstance;
           sourcedSubjectIds :=
             <[subject upcastedEvent := id upcastedEvent]>
               (sourcedSubjectIds current) |}.

(** [try { .. } catch (error) { continue; }] *)
Definition applyUpcasted (cfg : CommandRouterConfig) (instanceClass : string)
  (current : CacheValue) (upcastedEvent : RawEvent) : CacheValue :=
  match tryApply cfg instanceClass current upcastedEvent with
  | Js.Ok next => next
  | Js.Throw _ => current
  end.

Definition upcastRaw (cfg : CommandRouterConfig) (rawEvent : RawEvent)
  : list RawEvent :=
  match upcasters cfg with
  | Some chain => EventUpcasters.upcastAll chain rawEvent
  | None => [rawEvent]
  end.

(** One iteration of the [for await] loop. *)
Definition applyRaw (cfg : CommandRouterConfig) (instanceClass : string)
  (current : CacheValue) (rawEvent : RawEvent) : CacheValue :=
  fold_left (applyUpcasted cfg instanceClass) (upcastRaw cfg rawEvent) current.

(** The state the merger starts from: [cached?.instance || null],
    [cached?.eventId || null], [cached?.sourcedSubjectIds || new Map()]. *)
Definition mergerStart (cached : option CacheValue) : CacheValue :=
  {| eventId := Js.orNull (cached ≫= eventId);
     instance := cached ≫= instance;
     sourcedSubjectIds := default ∅ (sourcedSubjectIds <$> cached) |}.

Definition streamOptionsFrom (currentEventId : option string)
  : option InMemoryAdapter.StreamOptions :=
  match Js.orNull currentEventId with
  | Some lower =>
      Some {| InMemoryAdapter.lowerBound := Some lower;
              InMemoryAdapter.includeLowerBound := Some false;
              InMemoryAdapter.upperBound := None;
              InMemoryAdapter.includeUpperBound := None;
              InMemoryAdapter.latestByEventType := None |}
  | None => None
  end.

(** The merger handed to fetchAndMerge by rebuildState. *)
Definition merger (cfg : CommandRouterConfig) (store : InMemoryAdapter.t)
  (subject instanceClass : string) (recursive : bool)
  (cached : option CacheValue) : CacheValue :=
  let start := mergerStart cached in
  fold_left (applyRaw cfg instanceClass)
    (InMemoryAdapter.streamEvents store subject
       (streamOptionsFrom (eventId start)) (Some recursive))
    start.

Record Rebuilt := {
  rb_instance : option Instance;
  lastEventId : option string
}.

Definition rebuildState (cfg : CommandRouterConfig) (store : InMemoryAdapter.t)
  (cache : StateRebuildingCache.t) (subject instanceClass : string)
  (sourcingMode : SourcingMode.t) : Rebuilt * StateRebuildingCache.t :=
  match sourcingMode with
  | SourcingMode.NONE =>
      ({| rb_instance := None; lastEventId := None |}, cache)
  | _ =>
      let recursive :=
        match sourcingMode with
        | SourcingMode.RECURSIVE => true
        | _ => false
        end in
      let '(cacheValue, cache') :=
        fetchAndMerge cache
          {| k_subject := subject; k_instanceClass := instanceClass;
             k_sourcingMode := sourcingMode |}
          (merger cfg store subject instanceClass recursive) in
      ({| rb_instance := instance cacheValue;
          lastEventId := eventId cacheValue |}, cache')
  end.

Definition validateSubjectCondition (subject : string)
  (condition : SubjectCondition.t) (instance : option Instance)
  (lastEventId : option string) : Js.Exc Error unit :=
  match condition with
  | SubjectCondition.NEW =>
      match lastEventId with
      | Some _ => Js.Throw ("Subject '" ++ subject
                            ++ "' must be new (not exist) but it already exists")
      | None => Js.Ok tt
      end
  | SubjectCondition.EXISTS =>
      match lastEventId with
      | None => Js.Throw ("Subject '" ++ subject
                          ++ "' must exist but it does not")
      | Some _ => Js.Ok tt
      end
  | SubjectCondition.NONE => Js.Ok tt
  end.

(** One turn of the loop over the configured keys:
    [if (commandMetadata[key] !== undefined) propagated[key] =
    commandMetadata[key]].  The read finds the command's own entry or a
    member of [Object.prototype]; under [__proto__] it is never
    [undefined]. *)
Definition propagateKey (commandMetadata : JsRecord) (propagated : JsObject)
  (key : string) : JsObject :=
  if String.eqb key "__proto__" then
    assignProto propagated (commandMetadata !! key)
  else
    match commandMetadata !! key with
    | Some v => assignData propagated key (Data v)
    | None =>
        match inherited key with
        | Some x => assignData propagated key x
        | None => propagated
        end
    end.

Definition propagateMetadata (cfg : CommandRouterConfig)
  (commandMetadata eventMetadata : JsRecord) : JsObject :=
  let propagation :=
    default {| mode := MP_NONE; keys := None |} (metadataPropagation cfg) in
  match mode propagation with
  | MP_NONE => plain eventMetadata
  | MP_DEEP => plain (eventMetadata ∪ commandMetadata)
  | MP_SHALLOW =>
      match keys propagation with
      | Some ks =>
          fold_left (propagateKey commandMetadata) ks (plain eventMetadata)
      | None => plain eventMetadata
      end
  end.

(** Step 4: the call selected by the handler's shape. *)
Definition runHandler (handler : CommandHandler) (instance : option Instance)
  (command : Command) (metadata : JsRecord) : HandlerRun :=
  match handler with
  | ForCommand h => h command
  | ForInstanceAndCommand h => h instance command
  | ForInstanceAndCommandAndMetadata h => h instance command metadata
  end.

(** Step 5: the loop over [capturedEvents], carrying [updatedInstance]. *)
Fixpoint replayCaptured (cfg : CommandRouterConfig)
  (updatedInstance : option Instance) (capturedEvents : list Captured)
  (subject instanceClass : string) : Js.Exc Error (option Instance) :=
  match capturedEvents with
  | [] => Js.Ok updatedInstance
  | captured :: rest =>
      let! next :=
        applyStateRebuilding cfg updatedInstance (c_event captured)
          (c_metadata captured) subject instanceClass None in
      replayCaptured cfg next rest subject instanceClass
  end.

(** Step 6: the callback of [capturedEvents.map]. *)
Definition toPublish (cfg : CommandRouterConfig) (subject : string)
  (metadata : JsRecord) (captured : Captured) : Js.Exc Error EventToPublish :=
  let! eventType :=
    getEventType (eventTypeResolver cfg)
                 (constructorName (c_event captured)) in
  let! eventData :=
    serialize (eventDataMarshaller cfg)
              (propagateMetadata cfg metadata (c_metadata captured))
              (c_event captured) in
  Js.Ok {| tp_source := eventSource cfg;
           tp_subject := subject;
           tp_type := eventType;
           tp_data := eventData;
           tp_metadata := Some (c_metadata captured);
           tp_preconditions := Some (c_preconditions captured) |}.

Fixpoint mapExc {A B} (f : A -> Js.Exc Error B) (l : list A)
  : Js.Exc Error (list B) :=
  match l with
  | [] => Js.Ok []
  | x :: rest =>
      let! y := f x in
      let! ys := mapExc f rest in
      Js.Ok (y :: ys)
  end.

Definition withCache (w : World) (c : StateRebuildingCache.t) : World :=
  {| eventStore := eventStore w; stateCache := c; clock := clock w;
     effects := effects w |}.

Definition withEffect (w : World) (e : Effect) : World :=
  {| eventStore := eventStore w; stateCache := stateCache w; clock := clock w;
     effects := effects w ++ [e] |}.

Definition withStore (w : World) (s : InMemoryAdapter.t) : World :=
  {| eventStore := s; stateCache := stateCache w; clock := clock w;
     effects := effects w |}.

(** Step 6 as a whole. *)
Definition publishCaptured (cfg : CommandRouterConfig) (subject : string)
  (metadata : JsRecord) (capturedEvents : list Captured) (w : World)
  : Js.Exc Error unit * World :=
  match capturedEvents with
  | [] => (Js.Ok tt, w)
  | _ :: _ =>
      match mapExc (toPublish cfg subject metadata) capturedEvents with
      | Js.Throw e => (Js.Throw e, w)
      | Js.Ok eventsToPublish =>
          let allPreconditions := flat_map c_preconditions capturedEvents in
          let w1 :=
            withEffect w (PublishCalled eventsToPublish allPreconditions) in
          match InMemoryAdapter.publishEvents (clock w) (eventStore w)
                  eventsToPublish (Some allPreconditions) with
          | Js.Throw e => (Js.Throw e, w1)
          | Js.Ok (_, store') => (Js.Ok tt, withStore w1 store')
          end
      end
  end.

(** send: the result or the error, and the collaborators afterwards. *)
Definition send (cfg : CommandRouterConfig) (command : Command)
  (metadata : JsRecord) (w : World) : Js.Exc Error Json * World :=
  match commandHandlerFor cfg (commandName command) with
  | None =>
      (Js.Throw ("No command handler registered for " ++ commandName command),
       w)
  | Some definition =>
      let subject := getSubject command in
      let subjectCondition :=
        default SubjectCondition.NONE (getSubjectCondition command) in
      let '(rebuilt, cache') :=
        rebuildState cfg (eventStore w) (stateCache w) subject
          (ch_instanceClass definition) (ch_sourcingMode definition) in
      let w1 := withCache w cache' in
      match validateSubjectCondition subject subjectCondition
              (rb_instance rebuilt) (lastEventId rebuilt) with
      | Js.Throw e => (Js.Throw e, w1)
      | Js.Ok _ =>
          let '(capturedEvents, outcome) :=
            runHandler (ch_handler definition) (rb_instance rebuilt)
                       command metadata in
          let w2 := withEffect w1 (HandlerInvoked (commandName command)) in
          match outcome with
          | Js.Throw e => (Js.Throw e, w2)
          | Js.Ok result =>
              match replayCaptured cfg (rb_instance rebuilt) capturedEvents
                      subject (ch_instanceClass definition) with
              | Js.Throw e => (Js.Throw e, w2)
              | Js.Ok updatedInstance =>
                  match publishCaptured cfg subject metadata
                          capturedEvents w2 with
                  | (Js.Throw e, w3) => (Js.Throw e, w3)
                  | (Js.Ok _, w3) => (Js.Ok result, w3)
                  end
              end
          end
      end
  end.

(** *** What a caller and the collaborators observe of a send *)

Definition mustBeNew (subject : string) : Error :=
  "Subject '" ++ subject ++ "' must be new (not exist) but it already exists".

Definition mustExist (subject : string) : Error :=
  "Subject '" ++ subject ++ "' must exist but it does not".

(** send stopped before the command handler: it failed with [e], no handler
    was invoked, the adapter's publish was not called, the store is as it
    was. *)
Definition rejectedBeforeHandler (e : Error) (w : World)
  (res : Js.Exc Error Json * World) : Prop :=
  fst res = Js.Throw e /\
  effects (snd res) = effects w /\
  eventStore (snd res) = eventStore w.

(** send went past the condition check: the command handler was invoked. *)
Definition reachedHandler (name : string) (w : World)
  (res : Js.Exc Error Json * World) : Prop :=
  exists later, effects (snd res) = (effects w ++ HandlerInvoked name :: later)%list.

End CommandRouter.

(* ===================================================================== *)
(** ** src/eventhandler/progress/ProgressTracker.ts *)
(* ===================================================================== *)

Module ProgressTracker.
Import Event.

Record Progress := {
  eventId : option string
}.

(** interface ProgressTracker over a store of type [T].  [proceed] receives
    the progress its [execution] callback resolves to; a rejected promise is
    [Throw]. *)
Record t (T : Type) := {
  current : string -> Z -> T -> Progress;
  proceed : string -> Z -> Progress -> T -> Js.Exc Error T
}.
Arguments current {T} _ _ _ _.
Arguments proceed {T} _ _ _ _ _.

(** class InMemoryProgressTracker *)
Definition key (group : string) (partition : Z) : string :=
  group ++ ":" ++ pretty partition.

Definition InMemoryProgressTracker : t (gmap string Progress) :=
  {| current := fun group partition progress =>
       default {| eventId := None |} (progress !! key group partition);
     proceed := fun group partition newProgress progress =>
       Js.Ok (<[key group partition := newProgress]> progress) |}.

End ProgressTracker.

(* ===================================================================== *)
(** ** src/eventhandler/EventHandlingProcessor.ts *)
(* ===================================================================== *)

Module EventHandlingProcessor.
Import Event EventTypeResolver.

Section Processor.
(** [T]: the progress tracker's store; [W]: the read models the event
    handlers write to. *)
Context {T W : Type}.

(** The three shapes of an event handler ([handler.length] 1, 2, other). *)
Inductive EventHandler :=
| ForObject (h : EventObj -> W -> W * Js.Exc Error unit)
| ForObjectAndMetadata (h : EventObj -> JsRecord -> W -> W * Js.Exc Error unit)
| ForObjectAndMetadataAndRawEvent
    (h : EventObj -> JsRecord -> RawEvent -> W -> W * Js.Exc Error unit).

Record EventHandlerDefinition := {
  eh_group : string;
  eh_eventClass : string;
  eh_handler : EventHandler
}.

(** The two shapes of a sequence resolver ([resolver.length] 1, other). *)
Inductive EventSequenceResolver :=
| ForRawEvent (f : RawEvent -> string)
| ForObjectAndMetadataAndRawEventResolver
    (f : option EventObj -> option JsRecord -> RawEvent -> string).

Record EventHandlingProcessorConfig := {
  group : string;
  eventTypeResolver : EventTypeResolver.t;
  eventDataMarshaller : EventDataMarshaller;
  eventHandlers : list EventHandlerDefinition;
  progressTracker : ProgressTracker.t T;
  partitionKeyResolver : string -> Z;
  eventSequenceResolver : EventSequenceResolver;
  subject : string;
  recursive : option bool;
  partition : Z;
  upcasters : option (list EventUpcasters.EventUpcaster);
  retryDelay : option Z;
  maxRetries : option Z
}.

(** The defaults the constructor spreads under the configuration. *)
Definition recursiveOf (cfg : EventHandlingProcessorConfig) : bool :=
  default true (recursive cfg).
Definition retryDelayOf (cfg : EventHandlingProcessorConfig) : Z :=
  default 1000%Z (retryDelay cfg).
Definition maxRetriesOf (cfg : EventHandlingProcessorConfig) : Z :=
  default 3%Z (maxRetries cfg).

(** What the processor does to the outside, in order.  [ProcessEventCalled]
    marks an entry into processEvent (one attempt). *)
Inductive Effect :=
| ProcessEventCalled (rawEventId : string)
| HandlerCalled (eventClass : string) (eventId : string)
| Warned (eventId : string)
| Slept (ms : Z)
| ErrorLogged (rawEventId : string) (attempts : Z)
| LoopErrorLogged.

Record State := {
  tracker : T;
  readModel : W;
  stopRequested : bool;
  trace : list Effect
}.

Definition emit (st : State) (e : Effect) : State :=
  {| tracker := tracker st; readModel := readModel st;
     stopRequested := stopRequested st; trace := trace st ++ [e] |}.

Definition withReadModel (st : State) (w : W) : State :=
  {| tracker := tracker st; readModel := w;
     stopRequested := stopRequested st; trace := trace st |}.

Definition withTracker (st : State) (t : T) : State :=
  {| tracker := t; readModel := readModel st;
     stopRequested := stopRequested st; trace := trace st |}.

(** [this.handlers.get(name) || []]: the constructor indexes the handlers of
    the processor's group by event class, in registration order. *)
Definition handlersFor (cfg : EventHandlingProcessorConfig) (name : string)
  : list EventHandlerDefinition :=
  List.filter (fun def => String.eqb (eh_group def) (group cfg)
                     && String.eqb (eh_eventClass def) name)
         (eventHandlers cfg).

Definition resolveSequenceId (cfg : EventHandlingProcessorConfig)
  (rawEvent : RawEvent) (convertedEvent : option EventObj) (metadata : RawEvent)
  : string :=
  match eventSequenceResolver cfg with
  | ForRawEvent resolver => resolver rawEvent
  | ForObjectAndMetadataAndRawEventResolver resolver =>
      resolver convertedEvent (Event.metadata metadata) rawEvent
  end.

(** [await this.config.progressTracker.proceed(group, partition,
    async () => ({ eventId: rawEvent.id }))] *)
Definition commit (cfg : EventHandlingProcessorConfig) (rawEvent : RawEvent)
  (st : State) : State * Js.Exc Error unit :=
  match ProgressTracker.proceed (progressTracker cfg) (group cfg)
          (partition cfg) {| ProgressTracker.eventId := Some (id rawEvent) |}
          (tracker st) with
  | Js.Ok t' => (withTracker st t', Js.Ok tt)
  | Js.Throw e => (st, Js.Throw e)
  end.

Definition callHandler (handler : EventHandler) (eventData : EventData)
  (upcastedEvent : RawEvent) (w : W) : W * Js.Exc Error unit :=
  match handler with
  | ForObject h => h (ed_payload eventData) w
  | ForObjectAndMetadata h => h (ed_payload eventData) (ed_metadata eventData) w
  | ForObjectAndMetadataAndRawEvent h =>
      h (ed_payload eventData) (ed_metadata eventData) upcastedEvent w
  end.

(** The [for (const handlerDef of handlers)] loop; a throw leaves it. *)
Fixpoint callHandlers (handlers : list EventHandlerDefinition)
  (eventData : EventData) (upcastedEvent : RawEvent) (st : State)
  : State * Js.Exc Error unit :=
  match handlers with
  | [] => (st, Js.Ok tt)
  | handlerDef :: rest =>
      let st1 :=
        emit st (HandlerCalled (eh_eventClass handlerDef) (id upcastedEvent)) in
      match callHandler (eh_handler handlerDef) eventData upcastedEvent
              (readModel st1) with
      | (w, Js.Ok _) =>
          callHandlers rest eventData upcastedEvent (withReadModel st1 w)
      | (w, Js.Throw e) => (withReadModel st1 w, Js.Throw e)
      end
  end.

(** The [try] block of processEvent for one upcasted event. *)
Definition tryHandle (cfg : EventHandlingProcessorConfig)
  (upcastedEvent : RawEvent) (st : State) : State * Js.Exc Error unit :=
  match getClass (eventTypeResolver cfg) (type upcastedEvent) with
  | Js.Throw e => (st, Js.Throw e)
  | Js.Ok eventClass =>
      match deserialize (eventDataMarshaller cfg) (data upcastedEvent)
              eventClass with
      | Js.Throw e => (st, Js.Throw e)
      | Js.Ok eventData =>
          let sequenceId :=
            resolveSequenceId cfg upcastedEvent (Some (ed_payload eventData))
                              upcastedEvent in
          let partition' := partitionKeyResolver cfg sequenceId in
          if negb (partition' =? partition cfg)%Z then (st, Js.Ok tt)
          else callHandlers (handlersFor cfg eventClass) eventData
                            upcastedEvent st
      end
  end.

(** [try { .. } catch (error) { console.warn(..) }] *)
Definition handleUpcasted (cfg : EventHandlingProcessorConfig)
  (st : State) (upcastedEvent : RawEvent) : State :=
  match tryHandle cfg upcastedEvent st with
  | (st', Js.Ok _) => st'
  | (st', Js.Throw _) => emit st' (Warned (id upcastedEvent))
  end.

Definition upcastRaw (cfg : EventHandlingProcessorConfig) (rawEvent : RawEvent)
  : list RawEvent :=
  match upcasters cfg with
  | Some chain => EventUpcasters.upcastAll chain rawEvent
  | None => [rawEvent]
  end.

Definition processEvent (cfg : EventHandlingProcessorConfig)
  (rawEvent : RawEvent) (st : State) : State * Js.Exc Error unit :=
  let st0 := emit st (ProcessEventCalled (id rawEvent)) in
  let st1 := fold_left (handleUpcasted cfg) (upcastRaw cfg rawEvent) st0 in
  commit cfg rawEvent st1.

(** The [while (attempts < maxRetries)] loop.  [remaining] counts the
    iterations the guard still admits, [maxRetries - attempts].  The result
    tells whether the loop was left by [return] (success) and the value of
    [attempts]. *)
Fixpoint retryLoop (cfg : EventHandlingProcessorConfig) (remaining : nat)
  (attempts : Z) (rawEvent : RawEvent) (st : State) : State * bool * Z :=
  match remaining with
  | O => (st, false, attempts)
  | S remaining' =>
      match processEvent cfg rawEvent st with
      | (st1, Js.Ok _) => (st1, true, attempts)
      | (st1, Js.Throw _) =>
          let attempts' := (attempts + 1)%Z in
          let st2 :=
            if (attempts' <? maxRetriesOf cfg)%Z
            then emit st1 (Slept (retryDelayOf cfg * 2 ^ (attempts' - 1))%Z)
            else st1 in
          retryLoop cfg remaining' attempts' rawEvent st2
      end
  end.

Definition processEventWithRetry (cfg : EventHandlingProcessorConfig)
  (rawEvent : RawEvent) (st : State) : State * Js.Exc Error unit :=
  match retryLoop cfg (Z.to_nat (maxRetriesOf cfg)) 0%Z rawEvent st with
  | (st1, true, _) => (st1, Js.Ok tt)
  | (st1, false, attempts) =>
      commit cfg rawEvent (emit st1 (ErrorLogged (id rawEvent) attempts))
  end.

(** The body of the [for await] loop of run, after the stop check. *)
Definition onObserved (cfg : EventHandlingProcessorConfig)
  (rawEvent : RawEvent) (st : State) : State * Js.Exc Error unit :=
  let sequenceId := resolveSequenceId cfg rawEvent None rawEvent in
  let partition' := partitionKeyResolver cfg sequenceId in
  if negb (partition' =? partition cfg)%Z
  then commit cfg rawEvent st
  else processEventWithRetry cfg rawEvent st.

(** The [for await] loop of run over the events the stream delivers. *)
Fixpoint observeLoop (cfg : EventHandlingProcessorConfig)
  (observed : list RawEvent) (st : State) : State * Js.Exc Error unit :=
  match observed with
  | [] => (st, Js.Ok tt)
  | rawEvent :: rest =>
      if stopRequested st then (st, Js.Ok tt)
      else
        match onObserved cfg rawEvent st with
        | (st', Js.Ok _) => observeLoop cfg rest st'
        | (st', Js.Throw e) => (st', Js.Throw e)
        end
  end.

(** One iteration of [while (!this.stopRequested)] with its try/catch. *)
Definition runIteration (cfg : EventHandlingProcessorConfig)
  (store : InMemoryAdapter.t) (st : State) : State :=
  let progress :=
    ProgressTracker.current (progressTracker cfg) (group cfg) (partition cfg)
                            (tracker st) in
  let options :=
    match Js.orNull (ProgressTracker.eventId progress) with
    | Some lower =>
        Some {| InMemoryAdapter.lowerBound := Some lower;
                InMemoryAdapter.includeLowerBound := Some false;
                InMemoryAdapter.upperBound := None;
                InMemoryAdapter.includeUpperBound := None;
                InMemoryAdapter.latestByEventType := None |}
    | None => None
    end in
  match observeLoop cfg
          (InMemoryAdapter.observeEvents store (subject cfg) options
             (Some (recursiveOf cfg))) st with
  | (st', Js.Ok _) => st'
  | (st', Js.Throw _) => emit (emit st' LoopErrorLogged) (Slept (retryDelayOf cfg))
  end.

(** run, for at most [iterations] turns of the outer loop. *)
Fixpoint run (cfg : EventHandlingProcessorConfig) (store : InMemoryAdapter.t)
  (iterations : nat) (st : State) : State :=
  match iterations with
  | O => st
  | S n =>
      if stopRequested st then st
      else run cfg store n (runIteration cfg store st)
  end.

(** The delay slept after the (i+1)-th failed attempt. *)
Definition backoff (cfg : EventHandlingProcessorConfig) (i : nat) : Z :=
  (retryDelayOf cfg * 2 ^ Z.of_nat i)%Z.

(** Counting in a trace. *)
Definition attemptsIn (tr : list Effect) : nat :=
  length (List.filter (fun e => match e with ProcessEventCalled _ => true
                                      | _ => false end) tr).

Definition handlerCallsIn (tr : list Effect) : nat :=
  length (List.filter (fun e => match e with HandlerCalled _ _ => true
                                      | _ => false end) tr).

Definition delaysIn (tr : list Effect) : list Z :=
  omap (fun e => match e with Slept ms => Some ms | _ => None end) tr.

(** What handling the upcast results of an event leaves alone: the tracker,
    the stop flag, the attempts and the delays seen so far. *)
Definition handlingOnly (st st' : State) : Prop :=
  tracker st' = tracker st /\
  stopRequested st' = stopRequested st /\
  attemptsIn (trace st') = attemptsIn (trace st) /\
  delaysIn (trace st') = delaysIn (trace st).

End Processor.

Arguments EventHandler W : clear implicits.
Arguments EventHandlerDefinition W : clear implicits.
Arguments EventHandlingProcessorConfig T W : clear implicits.
Arguments State T W : clear implicits.

End EventHandlingProcessor.

(* ===================================================================== *)
(** ** Overlapping rebuilds through InMemoryStateCache.fetchAndMerge *)
(* ===================================================================== *)

(** A call of rebuildState suspends at its awaits: after it has read the
    cache entry and opened the stream, after every event the stream
    delivers, and once more before the merge is stored.  Other calls run in
    between.  The event store is not written during the calls. *)
Module ConcurrentRebuild.
Import Event StateRebuildingCache CommandRouter.

(** Where one call stands. *)
Inductive Call :=
| NotStarted
| Streaming (remaining : list RawEvent) (current : CacheValue)
| Finished (merged : CacheValue).

(** What a counting adapter sees. *)
Inductive Read :=
| Opened (options : option InMemoryAdapter.StreamOptions)
| Yielded (eventId : string)
| Completed.

Record World := {
  cache : InMemoryStateCache;
  calls : list Call;
  reads : list Read
}.

Section Calls.
(** All calls are for the same cache key and read the same store. *)
Context (cfg : CommandRouterConfig) (eventStore : InMemoryAdapter.t)
        (key : CacheKey).

Definition recursiveOf : bool :=
  match k_sourcingMode key with
  | SourcingMode.RECURSIVE => true
  | _ => false
  end.

(** Call [i] runs from its current await to its next one. *)
Definition step (w : World) (i : nat) : World :=
  match calls w !! i with
  | Some NotStarted =>
      let '(cached, cache1) := fetch (cache w) key in
      let start := mergerStart cached in
      let options := streamOptionsFrom (eventId start) in
      {| cache := cache1;
         calls :=
           <[i := Streaming
                    (InMemoryAdapter.streamEvents eventStore (k_subject key)
                       options (Some recursiveOf))
                    start]> (calls w);
         reads := reads w ++ [Opened options] |}
  | Some (Streaming (rawEvent :: rest) current) =>
      {| cache := cache w;
         calls :=
           <[i := Streaming rest
                    (applyRaw cfg (k_instanceClass key) current rawEvent)]>
             (calls w);
         reads := reads w ++ [Yielded (id rawEvent)] |}
  | Some (Streaming [] current) =>
      {| cache := store (cache w) key current;
         calls := <[i := Finished current]> (calls w);
         reads := reads w ++ [Completed] |}
  | Some (Finished _) => w
  | None => w
  end.

(** A schedule names the call that runs next. *)
Definition runSchedule (schedule : list nat) (w : World) : World :=
  fold_left step schedule w.

(** [n] calls made on a cache, none of them started. *)
Definition initial (c : InMemoryStateCache) (n : nat) : World :=
  {| cache := c; calls := replicate n NotStarted; reads := [] |}.

Definition isFinished (c : Call) : bool :=
  match c with
  | Finished _ => true
  | _ => false
  end.

Definition allFinished (w : World) : bool := forallb isFinished (calls w).

Definition yieldedIn (rs : list Read) : nat :=
  length (List.filter (fun r => match r with Yielded _ => true
                                           | _ => false end) rs).

Definition completedIn (rs : list Read) : nat :=
  length (List.filter (fun r => match r with Completed => true
                                           | _ => false end) rs).

(** The streams opened, by their options, in order. *)
Definition openedIn (rs : list Read)
  : list (option InMemoryAdapter.StreamOptions) :=
  omap (fun r => match r with Opened o => Some o | _ => None end) rs.

(** Events the calls have still to read, and calls that have finished. *)
Definition remainingOf (c : Call) : nat :=
  match c with
  | Streaming remaining _ => length remaining
  | _ => 0
  end.

Definition remainingIn (cs : list Call) : nat := sum_list_with remainingOf cs.

Definition finishedIn (cs : list Call) : nat :=
  sum_list_with (fun c => if isFinished c then 1 else 0) cs.

Definition hasStarted (c : Call) : Prop := c <> NotStarted.



(** What holds from the moment all [n] calls have started on a cold cache
    over a [history] of events. *)
Definition overlapping (n : nat) (history : list RawEvent) (w : World)
  : Prop :=
  length (calls w) = n /\
  Forall hasStarted (calls w) /\
  openedIn (reads w) = replicate n None /\
  yieldedIn (reads w) + remainingIn (calls w) = n * length history /\
  completedIn (reads w) = finishedIn (calls w).

End Calls.
End ConcurrentRebuild.

(* ===================================================================== *)
(** ** Reference functions and invariants the further properties use *)
(* ===================================================================== *)

(* ===================================================================== *)
(** ** JsonEventDataMarshaller (dist/types/EventDataMarshaller.js) *)
(* ===================================================================== *)

Module JsonEventDataMarshaller.
Import Event EventTypeResolver.

(** An event object as the value stored under [payload]. *)
Definition asJson (event : EventObj) : Json :=
  JObj (map_to_list (fields event)).

(** Array elements and string characters under their indices. *)
Definition indexed (items : list Json) : list (string * Json) :=
  imap (fun i item => (pretty i, item)) items.

(** The own enumerable properties [Object.assign(instance, payload)] goes
    through, in order; [undefined], [null], numbers and booleans have
    none. *)
Definition ownProperties (payload : option Json) : list (string * Json) :=
  match payload with
  | Some (JObj props) => props
  | Some (JArr items) => indexed items
  | Some (JStr s) =>
      indexed (map (fun c => JStr (String c EmptyString))
                   (list_ascii_of_string s))
  | _ => []
  end.

(** [instance[key] = value], as [Object.assign] does it for each property:
    an assignment, so that [__proto__] goes to the setter the instance
    inherits; a later property of the same name replaces an earlier one. *)
Definition assignProperty (instance : JsObject) (prop : string * Json)
  : JsObject :=
  if String.eqb (fst prop) "__proto__" then
    assignProto instance (Some (snd prop))
  else assignData instance (fst prop) (Data (snd prop)).

(** [Object.assign(instance, payload)] *)
Definition assign (instance : JsObject) (payload : option Json) : JsObject :=
  fold_left assignProperty (ownProperties payload) instance.

(** What [deserialize] returns: the metadata record and the instance. *)
Record Deserialized := {
  d_metadata : JsRecord;
  d_payload : JsObject
}.

(** [{ ...data.metadata, payload: data.payload }] *)
Definition serialize (metadata : JsRecord) (payload : EventObj)
  : Js.Exc Error JsRecord :=
  Js.Ok (<["payload" := asJson payload]> metadata).

(** [const { payload, ...metadata } = json]; the instance is created from
    the class's prototype and is assigned the payload's properties. *)
Definition deserialize (json : JsRecord) (clazz : string)
  : Js.Exc Error Deserialized :=
  Js.Ok {| d_metadata := delete "payload" json;
           d_payload :=
             assign {| properties := ∅; prototype := OfClass clazz |}
                    (json !! "payload") |}.

End JsonEventDataMarshaller.

(* ===================================================================== *)
(** ** src/eventhandler/partitioning/EventSequenceResolver.ts *)
(* ===================================================================== *)

Module SequenceResolvers.
Import Event.

(** [subject.split('/')] *)
Fixpoint split (s : string) : list string :=
  match s with
  | EmptyString => [EmptyString]
  | String c rest =>
      if Ascii.eqb c "/" then EmptyString :: split rest
      else match split rest with
           | part :: parts => String c part :: parts
           | [] => [String c EmptyString]
           end
  end.

(** [parts.join('/')] *)
Fixpoint join (parts : list string) : string :=
  match parts with
  | [] => ""
  | part :: rest =>
      match rest with
      | [] => part
      | _ :: _ => part ++ "/" ++ join rest
      end
  end.

(** [parts.slice(0, end)]: a negative end counts back from the length. *)
Definition slice0 {A} (end_ : Z) (parts : list A) : list A :=
  let len := Z.of_nat (length parts) in
  let final :=
    if (end_ <? 0)%Z then Z.max (len + end_) 0 else Z.min end_ len in
  firstn (Z.to_nat final) parts.

(** [p => p.length > 0] *)
Definition nonEmpty (p : string) : bool := Nat.ltb 0 (String.length p).

(** The subject both resolvers read: the first argument's when
    [rawEventBased], else that of the third argument, which may be missing. *)
Definition subjectRead (rawEventBased : bool) (eventOrRawEvent : RawEvent)
  (rawEvent : option RawEvent) : Js.Exc Error string :=
  if rawEventBased then Js.Ok (subject eventOrRawEvent)
  else match rawEvent with
       | Some raw => Js.Ok (subject raw)
       | None =>
           Js.Throw "Cannot read properties of undefined (reading 'subject')"
       end.

(** PerSubjectEventSequenceResolver.resolve *)
Definition perSubject (rawEventBased : bool) (eventOrRawEvent : RawEvent)
  (rawEvent : option RawEvent) : Js.Exc Error string :=
  subjectRead rawEventBased eventOrRawEvent rawEvent.

(** The last two lines of PerConfigurableLevelSubjectEventSequenceResolver's
    resolve. *)
Definition atLevel (level : Z) (subject : string) : string :=
  let parts := List.filter nonEmpty (split subject) in
  "/" ++ join (slice0 level parts).

(** PerConfigurableLevelSubjectEventSequenceResolver.resolve *)
Definition perConfigurableLevel (level : Z) (rawEventBased : bool)
  (eventOrRawEvent : RawEvent) (rawEvent : option RawEvent)
  : Js.Exc Error string :=
  let! subject := subjectRead rawEventBased eventOrRawEvent rawEvent in
  Js.Ok (atLevel level subject).

(** A path segment: not empty and without a slash. *)
Fixpoint hasSlash (s : string) : bool :=
  match s with
  | EmptyString => false
  | String c rest => Ascii.eqb c "/" || hasSlash rest
  end.

Definition isSegment (p : string) : bool := nonEmpty p && negb (hasSlash p).

End SequenceResolvers.

(* ===================================================================== *)
(** ** src/testing/CommandHandlingTestFixture.ts *)
(* ===================================================================== *)

Module CommandHandlingTestFixture.
Import Event Command StateRebuildingCache CommandRouter.

(** A state rebuilding handler as the fixture calls it, always as
    [handler(instance, event)], with the name of its event class. *)
Record GivenHandler := {
  g_eventClass : string;
  g_handler : option Instance -> EventObj -> Js.Exc Error Instance
}.

(** GivenPhase.applyStateRebuilding: every handler whose event class has
    the event's name is applied; the instance class is not looked at and a
    throw is not caught. *)
Fixpoint applyStateRebuilding (handlers : list GivenHandler)
  (instance : option Instance) (event : EventObj)
  : Js.Exc Error (option Instance) :=
  match handlers with
  | [] => Js.Ok instance
  | handlerDef :: rest =>
      if String.eqb (g_eventClass handlerDef) (constructorName event) then
        let! instance' := g_handler handlerDef instance event in
        applyStateRebuilding rest (Some instance') event
      else applyStateRebuilding rest instance event
  end.

(** The loop of GivenPhase.givenEvents, from [instance]. *)
Fixpoint applyAll (handlers : list GivenHandler) (instance : option Instance)
  (events : list EventObj) : Js.Exc Error (option Instance) :=
  match events with
  | [] => Js.Ok instance
  | event :: rest =>
      let! instance' := applyStateRebuilding handlers instance event in
      applyAll handlers instance' rest
  end.

Definition givenNothing : option Instance := None.

Definition givenEvents (handlers : list GivenHandler) (events : list EventObj)
  : Js.Exc Error (option Instance) :=
  applyAll handlers None events.

Definition givenState (instance : Instance) : option Instance := Some instance.

(** WhenPhase.when: the handler is called by its number of parameters, as
    in the router; what it published and its result or error are kept. *)
Definition when (handler : CommandHandler) (instance : option Instance)
  (command : Command) (metadata : JsRecord) : HandlerRun :=
  match handler with
  | ForCommand h => h command
  | ForInstanceAndCommand h => h instance command
  | ForInstanceAndCommandAndMetadata h => h instance command metadata
  end.

(** The fixture's view of a router's handler definition. *)
Definition sameHandler (def : StateRebuildingHandlerDefinition)
  (given : GivenHandler) : Prop :=
  sr_eventClass def = g_eventClass given /\
  sr_handler def = FromObject (g_handler given).

End CommandHandlingTestFixture.

(* ===================================================================== *)
(** ** examples/tasks: the task aggregate, its handlers and its projector *)
(* ===================================================================== *)

Module TaskExample.
Import Event.

(** examples/tasks/domain/Task.ts *)
Inductive TaskStatus := TODO | IN_PROGRESS | COMPLETED.

(** The enum's string value. *)
Definition statusText (s : TaskStatus) : string :=
  match s with
  | TODO => "TODO"
  | IN_PROGRESS => "IN_PROGRESS"
  | COMPLETED => "COMPLETED"
  end.

Record Task := {
  t_id : string;
  t_title : string;
  t_description : string;
  t_assignee : option string;
  t_status : TaskStatus;
  t_createdAt : string;
  t_completedAt : option string
}.

(** examples/tasks/events: the four event classes. *)
Inductive TaskEvent :=
| TaskCreatedEvent (taskId title description createdAt : string)
| TaskAssignedEvent (taskId assignee assignedAt : string)
| TaskStartedEvent (taskId startedAt : string)
| TaskCompletedEvent (taskId completedAt : string).

Definition taskIdOf (event : TaskEvent) : string :=
  match event with
  | TaskCreatedEvent taskId _ _ _ => taskId
  | TaskAssignedEvent taskId _ _ => taskId
  | TaskStartedEvent taskId _ => taskId
  | TaskCompletedEvent taskId _ => taskId
  end.

(** examples/tasks/commands: the four command classes. *)
Inductive TaskCommand :=
| CreateTaskCommand (taskId title description : string)
| AssignTaskCommand (taskId assignee : string)
| StartTaskCommand (taskId : string)
| CompleteTaskCommand (taskId : string).

(** Reading a property of a [null] task. *)
Definition nullTask (property : string) : Error :=
  "Cannot read properties of null (reading '" ++ property ++ "')".

(** *** examples/tasks/handlers/TaskHandlers.ts: state rebuilding *)

Definition onTaskCreated (task : option Task)
  (taskId title description createdAt : string) : Task :=
  {| t_id := taskId; t_title := title; t_description := description;
     t_assignee := None; t_status := TODO; t_createdAt := createdAt;
     t_completedAt := None |}.

Definition onTaskAssigned (task : option Task) (assignee : string)
  : Js.Exc Error Task :=
  match task with
  | None => Js.Throw (nullTask "id")
  | Some task =>
      Js.Ok {| t_id := t_id task; t_title := t_title task;
               t_description := t_description task;
               t_assignee := Some assignee; t_status := t_status task;
               t_createdAt := t_createdAt task;
               t_completedAt := t_completedAt task |}
  end.

Definition onTaskStarted (task : option Task) : Js.Exc Error Task :=
  match task with
  | None => Js.Throw (nullTask "id")
  | Some task =>
      Js.Ok {| t_id := t_id task; t_title := t_title task;
               t_description := t_description task;
               t_assignee := t_assignee task; t_status := IN_PROGRESS;
               t_createdAt := t_createdAt task;
               t_completedAt := t_completedAt task |}
  end.

Definition onTaskCompleted (task : option Task) (completedAt : string)
  : Js.Exc Error Task :=
  match task with
  | None => Js.Throw (nullTask "id")
  | Some task =>
      Js.Ok {| t_id := t_id task; t_title := t_title task;
               t_description := t_description task;
               t_assignee := t_assignee task; t_status := COMPLETED;
               t_createdAt := t_createdAt task;
               t_completedAt := Some completedAt |}
  end.

(** The handler registered for the event's class (examples/tasks/index.ts
    registers one per class). *)
Definition applyStateRebuilding (task : option Task) (event : TaskEvent)
  : Js.Exc Error Task :=
  match event with
  | TaskCreatedEvent taskId title description createdAt =>
      Js.Ok (onTaskCreated task taskId title description createdAt)
  | TaskAssignedEvent _ assignee _ => onTaskAssigned task assignee
  | TaskStartedEvent _ _ => onTaskStarted task
  | TaskCompletedEvent _ completedAt => onTaskCompleted task completedAt
  end.

(** One event of a rebuild: a throwing handler leaves the instance as it
    was. *)
Definition rebuildStep (task : option Task) (event : TaskEvent)
  : option Task :=
  match applyStateRebuilding task event with
  | Js.Ok task' => Some task'
  | Js.Throw _ => task
  end.

Definition rebuild (events : list TaskEvent) : option Task :=
  fold_left rebuildStep events None.

(** *** examples/tasks/handlers/TaskHandlers.ts: command handlers

    [now] is what [new Date().toISOString()] returns; a handler gives the
    events it published and returns or throws. *)

Definition handleCreate (now : string) (taskId title description : string)
  : list TaskEvent * Js.Exc Error string :=
  ([TaskCreatedEvent taskId title description now], Js.Ok taskId).

Definition handleAssign (now : string) (task : option Task)
  (taskId assignee : string) : list TaskEvent * Js.Exc Error unit :=
  match task with
  | None => ([], Js.Throw (nullTask "status"))
  | Some task =>
      match t_status task with
      | COMPLETED =>
          ([], Js.Throw ("Task " ++ taskId
                         ++ " is already completed and cannot be reassigned"))
      | _ => ([TaskAssignedEvent taskId assignee now], Js.Ok tt)
      end
  end.

Definition handleStart (now : string) (task : option Task) (taskId : string)
  : list TaskEvent * Js.Exc Error unit :=
  match task with
  | None => ([], Js.Throw (nullTask "status"))
  | Some task =>
      match t_status task with
      | COMPLETED =>
          ([], Js.Throw ("Task " ++ taskId ++ " is already completed"))
      | IN_PROGRESS =>
          ([], Js.Throw ("Task " ++ taskId ++ " is already in progress"))
      | TODO =>
          match Js.orNull (t_assignee task) with
          | None =>
              ([], Js.Throw ("Task " ++ taskId
                             ++ " must be assigned before it can be started"))
          | Some _ => ([TaskStartedEvent taskId now], Js.Ok tt)
          end
      end
  end.

Definition handleComplete (now : string) (task : option Task)
  (taskId : string) : list TaskEvent * Js.Exc Error unit :=
  match task with
  | None => ([], Js.Throw (nullTask "status"))
  | Some task =>
      match t_status task with
      | COMPLETED =>
          ([], Js.Throw ("Task " ++ taskId ++ " is already completed"))
      | TODO =>
          ([], Js.Throw ("Task " ++ taskId
                         ++ " must be started before it can be completed"))
      | IN_PROGRESS => ([TaskCompletedEvent taskId now], Js.Ok tt)
      end
  end.

(** The events the handler registered for the command's class publishes,
    or the error it throws. *)
Definition handle (now : string) (task : option Task) (command : TaskCommand)
  : Js.Exc Error (list TaskEvent) :=
  match command with
  | CreateTaskCommand taskId title description =>
      match handleCreate now taskId title description with
      | (events, Js.Ok _) => Js.Ok events
      | (_, Js.Throw e) => Js.Throw e
      end
  | AssignTaskCommand taskId assignee =>
      match handleAssign now task taskId assignee with
      | (events, Js.Ok _) => Js.Ok events
      | (_, Js.Throw e) => Js.Throw e
      end
  | StartTaskCommand taskId =>
      match handleStart now task taskId with
      | (events, Js.Ok _) => Js.Ok events
      | (_, Js.Throw e) => Js.Throw e
      end
  | CompleteTaskCommand taskId =>
      match handleComplete now task taskId with
      | (events, Js.Ok _) => Js.Ok events
      | (_, Js.Throw e) => Js.Throw e
      end
  end.

(** A command against a task: the published events applied to it when the
    handler accepts the command, the task as it was when the handler
    throws. *)
Definition after (now : string) (task : option Task) (command : TaskCommand)
  : option Task :=
  match handle now task command with
  | Js.Ok events => fold_left rebuildStep events task
  | Js.Throw _ => task
  end.

(** *** examples/tasks/projectors/TaskListProjector.ts *)

Record TaskListEntry := {
  e_id : string;
  e_title : string;
  e_description : string;
  e_assignee : option string;
  e_status : string;
  e_createdAt : string;
  e_assignedAt : option string;
  e_startedAt : option string;
  e_completedAt : option string
}.

Definition TaskList := Js.JsMap TaskListEntry.

Definition project_onTaskCreated (tasks : TaskList)
  (taskId title description createdAt : string) : TaskList :=
  Js.set taskId
    {| e_id := taskId; e_title := title; e_description := description;
       e_assignee := None; e_status := "TODO"; e_createdAt := createdAt;
       e_assignedAt := None; e_startedAt := None; e_completedAt := None |}
    tasks.

(** The three handlers that change the entry they find, in place. *)
Definition project_onTaskAssigned (tasks : TaskList)
  (taskId assignee assignedAt : string) : TaskList :=
  match Js.get taskId tasks with
  | None => tasks
  | Some task =>
      Js.set taskId
        {| e_id := e_id task; e_title := e_title task;
           e_description := e_description task;
           e_assignee := Some assignee; e_status := e_status task;
           e_createdAt := e_createdAt task;
           e_assignedAt := Some assignedAt; e_startedAt := e_startedAt task;
           e_completedAt := e_completedAt task |}
        tasks
  end.

Definition project_onTaskStarted (tasks : TaskList)
  (taskId startedAt : string) : TaskList :=
  match Js.get taskId tasks with
  | None => tasks
  | Some task =>
      Js.set taskId
        {| e_id := e_id task; e_title := e_title task;
           e_description := e_description task;
           e_assignee := e_assignee task; e_status := "IN_PROGRESS";
           e_createdAt := e_createdAt task;
           e_assignedAt := e_assignedAt task; e_startedAt := Some startedAt;
           e_completedAt := e_completedAt task |}
        tasks
  end.

Definition project_onTaskCompleted (tasks : TaskList)
  (taskId completedAt : string) : TaskList :=
  match Js.get taskId tasks with
  | None => tasks
  | Some task =>
      Js.set taskId
        {| e_id := e_id task; e_title := e_title task;
           e_description := e_description task;
           e_assignee := e_assignee task; e_status := "COMPLETED";
           e_createdAt := e_createdAt task;
           e_assignedAt := e_assignedAt task; e_startedAt := e_startedAt task;
           e_completedAt := Some completedAt |}
        tasks
  end.

(** The projector's handler registered for the event's class. *)
Definition project (tasks : TaskList) (event : TaskEvent) : TaskList :=
  match event with
  | TaskCreatedEvent taskId title description createdAt =>
      project_onTaskCreated tasks taskId title description createdAt
  | TaskAssignedEvent taskId assignee assignedAt =>
      project_onTaskAssigned tasks taskId assignee assignedAt
  | TaskStartedEvent taskId startedAt =>
      project_onTaskStarted tasks taskId startedAt
  | TaskCompletedEvent taskId completedAt =>
      project_onTaskCompleted tasks taskId completedAt
  end.

Definition getTask (tasks : TaskList) (taskId : string)
  : option TaskListEntry :=
  Js.get taskId tasks.

Definition getAllTasks (tasks : TaskList) : list TaskListEntry :=
  Js.values tasks.

Definition getTasksByStatus (tasks : TaskList) (status : string)
  : list TaskListEntry :=
  List.filter (fun task => String.eqb (e_status task) status)
              (Js.values tasks).

(** *** The read model against the aggregate *)

(** The entry shows the task: same id, title, description, assignee,
    status, creation and completion time. *)
Definition shows (entry : TaskListEntry) (task : Task) : Prop :=
  e_id entry = t_id task /\ e_title entry = t_title task /\
  e_description entry = t_description task /\
  e_assignee entry = t_assignee task /\
  e_status entry = statusText (t_status task) /\
  e_createdAt entry = t_createdAt task /\
  e_completedAt entry = t_completedAt task.

Definition agree (entry : option TaskListEntry) (task : option Task) : Prop :=
  match entry, task with
  | None, None => True
  | Some entry, Some task => shows entry task
  | _, _ => False
  end.

(** How far a task has come. *)
Definition rank (s : TaskStatus) : nat :=
  match s with
  | TODO => 0
  | IN_PROGRESS => 1
  | COMPLETED => 2
  end.

(** A task is completed exactly when it has a completion time, and has an
    assignee once it is no longer to do. *)
Definition consistent (task : Task) : Prop :=
  (t_status task = COMPLETED <-> t_completedAt task <> None) /\
  (t_status task <> TODO -> t_assignee task <> None).

End TaskExample.

Module HashCode.

(** The polynomial [c0 * 31^(n-1) + ... + c(n-1)] of a sequence of code
    units, without any wrap-around. *)
Definition polynomial (chars : list Z) : Z :=
  fold_left (fun h c => (31 * h + c)%Z) chars 0%Z.

End HashCode.

Module CacheInvariant.
Import StateRebuildingCache.

(** What InMemoryStateCache keeps: one entry per key, and no more entries
    than its capacity allows. *)
Definition wellKept (c : InMemoryStateCache) : Prop :=
  List.NoDup (map fst (cache c)) /\
  (Js.size (cache c) <= Z.max 0 (capacity c))%Z.

(** A sequence of fetchAndMerge calls, one after the other. *)
Definition mergeAll (c : InMemoryStateCache)
  (calls : list (CacheKey * (option CacheValue -> CacheValue)))
  : InMemoryStateCache :=
  fold_left
    (fun c call =>
       let '(cached, c1) := fetch c (fst call) in
       store c1 (fst call) (snd call cached))
    calls c.

End CacheInvariant.

Module StoreInvariant.
Import Event InMemoryAdapter.

(** The id the adapter assigns when its counter stands at [k]. *)
Definition issuedId (k : nat) : string := "event-" ++ pretty k.

(** Every stored event carries an id the counter has already passed, and no
    two events share an id. *)
Definition issued (st : InMemoryAdapter.t) : Prop :=
  List.NoDup (map id (events st)) /\
  Forall (fun e => exists k, k < idCounter st /\ id e = issuedId k)
         (events st).

(** What checkPrecondition accepts: an isSubjectNew precondition whose
    payload names a subject holds when no stored event has that subject;
    every other precondition holds. *)
Definition holds (st : InMemoryAdapter.t) (p : Precondition) : Prop :=
  p_type p = "isSubjectNew" ->
  forall s, p_payload p !! "subject" = Some (JStr s) ->
            forall e, In e (events st) -> subject e <> s.

(** A sequence of publishEvents calls; a rejected call leaves the store as
    it was. *)
Definition publishAll (now : string) (st : InMemoryAdapter.t)
  (batches : list (list EventToPublish * option (list Precondition)))
  : InMemoryAdapter.t :=
  fold_left
    (fun st batch =>
       match publishEvents now st (fst batch) (snd batch) with
       | Js.Ok (_, st') => st'
       | Js.Throw _ => st
       end)
    batches st.

(** An event's subject is the given one or lies below it. *)
Definition atOrBelow (subject : string) (e : RawEvent) : Prop :=
  Event.subject e = subject \/
  exists rest, Event.subject e = subject ++ "/" ++ rest.

End StoreInvariant.

Module CacheCoherence.
Import Event Command StateRebuildingCache CommandRouter.

(** A name without a colon, as a JavaScript class name is. *)
Fixpoint hasColon (s : string) : bool :=
  match s with
  | EmptyString => false
  | String c rest => Ascii.eqb c ":" || hasColon rest
  end.

Definition colonFree (s : string) : Prop := hasColon s = false.

(** The [recursive] flag rebuildState derives from the sourcing mode. *)
Definition recursiveOf (sourcingMode : SourcingMode.t) : bool :=
  match sourcingMode with
  | SourcingMode.RECURSIVE => true
  | _ => false
  end.

(** A cache entry is the state merged from nothing over the first events of
    the store, for the key it is stored under. *)
Definition coherentEntry (cfg : CommandRouterConfig) (st : InMemoryAdapter.t)
  (entry : string * CacheValue) : Prop :=
  exists key earlier k,
    fst entry = buildKey key /\
    colonFree (k_instanceClass key) /\
    InMemoryAdapter.events earlier = firstn k (InMemoryAdapter.events st) /\
    snd entry = merger cfg earlier (k_subject key) (k_instanceClass key)
                  (recursiveOf (k_sourcingMode key)) None.

Definition coherent (cfg : CommandRouterConfig) (st : InMemoryAdapter.t)
  (c : StateRebuildingCache.t) : Prop :=
  match c with
  | NoStateRebuildingCache => True
  | InMemory im => Forall (coherentEntry cfg st) (cache im)
  end.

(** A sequence of sends through one router, one after the other, with the
    result of each. *)
Fixpoint sendAll (cfg : CommandRouterConfig)
  (commands : list (Command * JsRecord)) (w : World)
  : list (Js.Exc Error Json) * World :=
  match commands with
  | [] => ([], w)
  | (command, metadata) :: rest =>
      let '(result, w1) := send cfg command metadata w in
      let '(results, w2) := sendAll cfg rest w1 in
      (result :: results, w2)
  end.

(** What of a world does not depend on the cache in use. *)
Definition view (w : World) : InMemoryAdapter.t * string * list Effect :=
  (eventStore w, clock w, effects w).

End CacheCoherence.

Module PartitionedGroup.
Import EventHandlingProcessor.

(** The processors of one group are configured alike and differ in the
    partition each is assigned. *)
Definition atPartition {T W} (cfg : EventHandlingProcessorConfig T W) (p : Z)
  : EventHandlingProcessorConfig T W :=
  {| group := group cfg;
     eventTypeResolver := eventTypeResolver cfg;
     eventDataMarshaller := eventDataMarshaller cfg;
     eventHandlers := eventHandlers cfg;
     progressTracker := progressTracker cfg;
     partitionKeyResolver := partitionKeyResolver cfg;
     eventSequenceResolver := eventSequenceResolver cfg;
     subject := subject cfg;
     recursive := recursive cfg;
     partition := p;
     upcasters := upcasters cfg;
     retryDelay := retryDelay cfg;
     maxRetries := maxRetries cfg |}.

End PartitionedGroup.

Module LatestByType.
Import Event.

(** [e] is the last event of type [wanted] on its subject in [events]. *)
Definition isLatest (wanted : string) (events : list RawEvent) (e : RawEvent)
  : Prop :=
  type e = wanted /\
  exists before after,
    events = (before ++ e :: after)%list /\
    forall x, In x after -> type x = wanted -> subject x <> subject e.

End LatestByType.

(* ===================================================================== *)
(** ** Sample configurations *)
(* ===================================================================== *)

Module Samples.
Import Event EventUpcasters.

(** A two-stage migration, v1 to v2 to v3; each stage adds a field. *)
Definition v1_to_v2 : EventUpcaster :=
  {| canUpcast := fun e => String.eqb (type e) "v1.Event";
     upcast := fun e =>
       [{| r_type := "v2.Event"; r_data := <["b" := JNum 2]> (data e) |}] |}.

Definition v2_to_v3 : EventUpcaster :=
  {| canUpcast := fun e => String.eqb (type e) "v2.Event";
     upcast := fun e =>
       [{| r_type := "v3.Event"; r_data := <["c" := JNum 3]> (data e) |}] |}.

Definition staged : list EventUpcaster := [v1_to_v2; v2_to_v3].

Definition rawEvent (eventId eventType subj : string) (payload : JsRecord)
  : RawEvent :=
  {| id := eventId; type := eventType; source := "samples"; subject := subj;
     time := "2024-01-01T00:00:00Z"; data := payload; metadata := None |}.

Definition v1Event : RawEvent :=
  rawEvent "1" "v1.Event" "/task/task-1" {["a" := JNum 1]}.

Definition otherEvent : RawEvent :=
  rawEvent "2" "other.Event" "/task/task-1" {["a" := JNum 1]}.

(** A task aggregate with a title, created and renamed by events. *)
Import Command StateRebuildingCache EventTypeResolver CommandRouter.

Definition plainMarshaller : EventDataMarshaller :=
  {| serialize := fun _ payload => Js.Ok (fields payload);
     deserialize := fun wire clazz =>
       Js.Ok {| ed_metadata := ∅;
                ed_payload := {| constructorName := clazz;
                                 fields := wire |} |} |}.

Definition taskResolver : EventTypeResolver.t :=
  ConfiguredEventTypeResolver
    [("task.created", "TaskCreated"); ("task.renamed", "TaskRenamed")].

Definition titleOf (event : EventObj) : Json :=
  default JNull (fields event !! "title").

Definition onTaskCreated : StateRebuildingHandlerDefinition :=
  {| sr_instanceClass := "Task"; sr_eventClass := "TaskCreated";
     sr_handler := FromObject (fun _ event =>
       Js.Ok {["title" := titleOf event]}) |}.

(** Reads [task.title] of the instance, so it throws on [null]. *)
Definition onTaskRenamed : StateRebuildingHandlerDefinition :=
  {| sr_instanceClass := "Task"; sr_eventClass := "TaskRenamed";
     sr_handler := FromObject (fun task event =>
       match task with
       | Some t => Js.Ok (<["title" := titleOf event]> t)
       | None => Js.Throw "Cannot read properties of null (reading 'title')"
       end) |}.

Definition taskCreated (title : string) : Captured :=
  {| c_event := {| constructorName := "TaskCreated";
                   fields := {["title" := JStr title]} |};
     c_metadata := ∅; c_preconditions := [] |}.

Definition taskRenamed (title : string) : Captured :=
  {| c_event := {| constructorName := "TaskRenamed";
                   fields := {["title" := JStr title]} |};
     c_metadata := ∅; c_preconditions := [] |}.

(** Publishes twice: the task is created, then renamed. *)
Definition handleCreateAndRename : CommandHandlerDefinition :=
  {| ch_instanceClass := "Task"; ch_commandClass := "CreateAndRenameTask";
     ch_handler := ForCommand (fun _ =>
       ([taskCreated "Login"; taskRenamed "Sign in"], Js.Ok (JStr "t1")));
     ch_sourcingMode := SourcingMode.LOCAL |}.

Definition handleCreate : CommandHandlerDefinition :=
  {| ch_instanceClass := "Task"; ch_commandClass := "CreateTask";
     ch_handler := ForCommand (fun _ =>
       ([taskCreated "Login"], Js.Ok (JStr "t1")));
     ch_sourcingMode := SourcingMode.LOCAL |}.

Definition handleRename : CommandHandlerDefinition :=
  {| ch_instanceClass := "Task"; ch_commandClass := "RenameTask";
     ch_handler := ForInstanceAndCommand (fun _ _ =>
       ([taskRenamed "Sign in"], Js.Ok JNull));
     ch_sourcingMode := SourcingMode.LOCAL |}.

(** Looks at the rebuilt task and publishes nothing. *)
Definition handleInspect : CommandHandlerDefinition :=
  {| ch_instanceClass := "Task"; ch_commandClass := "InspectTask";
     ch_handler := ForInstanceAndCommand (fun task _ =>
       ([], Js.Ok (default JNull (task ≫= (fun t => t !! "title")))));
     ch_sourcingMode := SourcingMode.LOCAL |}.

(** A handler that sources nothing. *)
Definition handlePing : CommandHandlerDefinition :=
  {| ch_instanceClass := "Task"; ch_commandClass := "PingTask";
     ch_handler := ForCommand (fun _ => ([], Js.Ok JNull));
     ch_sourcingMode := SourcingMode.NONE |}.

Definition taskRouter : CommandRouterConfig :=
  {| eventTypeResolver := taskResolver;
     eventDataMarshaller := plainMarshaller;
     commandHandlers :=
       [handleCreateAndRename; handleCreate; handleRename; handleInspect;
        handlePing];
     stateRebuildingHandlers := [onTaskCreated; onTaskRenamed];
     eventSource := "samples";
     upcasters := None;
     metadataPropagation := None |}.

(** Publishes twice, in the other order: renamed, then created. *)
Definition handleRenameAndCreate : CommandHandlerDefinition :=
  {| ch_instanceClass := "Task"; ch_commandClass := "RenameAndCreateTask";
     ch_handler := ForCommand (fun _ =>
       ([taskRenamed "Sign in"; taskCreated "Login"], Js.Ok (JStr "t1")));
     ch_sourcingMode := SourcingMode.LOCAL |}.

(** Publishes three times: created, renamed, renamed again. *)
Definition handleCreateAndRenameTwice : CommandHandlerDefinition :=
  {| ch_instanceClass := "Task"; ch_commandClass := "CreateAndRenameTwice";
     ch_handler := ForCommand (fun _ =>
       ([taskCreated "Login"; taskRenamed "Sign in"; taskRenamed "Log on"],
        Js.Ok (JStr "t1")));
     ch_sourcingMode := SourcingMode.LOCAL |}.

Definition replayRouter : CommandRouterConfig :=
  {| eventTypeResolver := taskResolver;
     eventDataMarshaller := plainMarshaller;
     commandHandlers :=
       [handleCreateAndRename; handleRenameAndCreate;
        handleCreateAndRenameTwice];
     stateRebuildingHandlers := [onTaskCreated; onTaskRenamed];
     eventSource := "samples";
     upcasters := None;
     metadataPropagation := None |}.

Definition shallowRouter : CommandRouterConfig :=
  {| eventTypeResolver := taskResolver;
     eventDataMarshaller := plainMarshaller;
     commandHandlers := [handleCreate];
     stateRebuildingHandlers := [onTaskCreated];
     eventSource := "samples";
     upcasters := None;
     metadataPropagation :=
       Some {| mode := MP_SHALLOW;
               keys := Some ["constructor"; "__proto__"; "tenant"; "trace"] |}
  |}.

Definition command (name : string) (condition : option SubjectCondition.t)
  : Command :=
  {| commandName := name; getSubject := "/task/t1";
     getSubjectCondition := condition; commandFields := ∅ |}.

Definition taskKey : CacheKey :=
  {| k_subject := "/task/t1"; k_instanceClass := "Task";
     k_sourcingMode := SourcingMode.LOCAL |}.

Definition storeOf (events : list RawEvent) : InMemoryAdapter.t :=
  {| InMemoryAdapter.events := events;
     InMemoryAdapter.idCounter := length events |}.

Definition world (events : list RawEvent) : World :=
  {| eventStore := storeOf events;
     stateCache := InMemory (newInMemoryStateCache 1000);
     clock := "2024-01-01T00:00:00Z";
     effects := [] |}.

Definition createdEvent : RawEvent :=
  rawEvent "event-0" "task.created" "/task/t1" {["title" := JStr "Login"]}.

Definition renamedEvent : RawEvent :=
  rawEvent "event-1" "task.renamed" "/task/t1" {["title" := JStr "Sign in"]}.

(** A projector whose only handler throws on every invocation, run by the
    processor of partition 4 of 10 with the default retry settings. *)
Definition alwaysThrows : EventHandlingProcessor.EventHandlerDefinition unit :=
  {| EventHandlingProcessor.eh_group := "task-list";
     EventHandlingProcessor.eh_eventClass := "TaskCreated";
     EventHandlingProcessor.eh_handler :=
       EventHandlingProcessor.ForObject
         (fun _ w => (w, Js.Throw "read model unavailable")) |}.

Definition poisonedProcessor
  : EventHandlingProcessor.EventHandlingProcessorConfig
      (gmap string ProgressTracker.Progress) unit :=
  {| EventHandlingProcessor.group := "task-list";
     EventHandlingProcessor.eventTypeResolver := taskResolver;
     EventHandlingProcessor.eventDataMarshaller := plainMarshaller;
     EventHandlingProcessor.eventHandlers := [alwaysThrows];
     EventHandlingProcessor.progressTracker :=
       ProgressTracker.InMemoryProgressTracker;
     EventHandlingProcessor.partitionKeyResolver :=
       DefaultPartitionKeyResolver.resolve 10;
     EventHandlingProcessor.eventSequenceResolver :=
       EventHandlingProcessor.ForRawEvent subject;
     EventHandlingProcessor.subject := "/task";
     EventHandlingProcessor.recursive := None;
     EventHandlingProcessor.partition := 4;
     EventHandlingProcessor.upcasters := None;
     EventHandlingProcessor.retryDelay := None;
     EventHandlingProcessor.maxRetries := None |}.

(** The same processor, assigned partition 5. *)
Definition otherPartitionProcessor
  : EventHandlingProcessor.EventHandlingProcessorConfig
      (gmap string ProgressTracker.Progress) unit :=
  {| EventHandlingProcessor.group := "task-list";
     EventHandlingProcessor.eventTypeResolver := taskResolver;
     EventHandlingProcessor.eventDataMarshaller := plainMarshaller;
     EventHandlingProcessor.eventHandlers := [alwaysThrows];
     EventHandlingProcessor.progressTracker :=
       ProgressTracker.InMemoryProgressTracker;
     EventHandlingProcessor.partitionKeyResolver :=
       DefaultPartitionKeyResolver.resolve 10;
     EventHandlingProcessor.eventSequenceResolver :=
       EventHandlingProcessor.ForRawEvent subject;
     EventHandlingProcessor.subject := "/task";
     EventHandlingProcessor.recursive := None;
     EventHandlingProcessor.partition := 5;
     EventHandlingProcessor.upcasters := None;
     EventHandlingProcessor.retryDelay := None;
     EventHandlingProcessor.maxRetries := None |}.

Definition poisonEvent : RawEvent :=
  rawEvent "7" "task.created" "/task/task-1" {["title" := JStr "Login"]}.

Definition nextEvent : RawEvent :=
  rawEvent "8" "task.created" "/task/task-1" {["title" := JStr "Logout"]}.

Definition idle
  : EventHandlingProcessor.State (gmap string ProgressTracker.Progress) unit :=
  {| EventHandlingProcessor.tracker := ∅;
     EventHandlingProcessor.readModel := tt;
     EventHandlingProcessor.stopRequested := false;
     EventHandlingProcessor.trace := [] |}.

(** A tracker whose store is unreachable: every [proceed] rejects. *)
Definition unreachableTracker : ProgressTracker.t unit :=
  {| ProgressTracker.current := fun _ _ _ =>
       {| ProgressTracker.eventId := None |};
     ProgressTracker.proceed := fun _ _ _ _ =>
       Js.Throw "connection refused" |}.

End Samples.

(* ===================================================================== *)
(** ** The upcaster chain *)
(* ===================================================================== *)

Local Open Scope list_scope.

Section UpcasterChain.
Import Event EventUpcasters.

Lemma pass_app (u : EventUpcaster) (l1 l2 : list RawEvent) :
  pass u (l1 ++ l2) = pass u l1 ++ pass u l2.
Proof. unfold pass. apply flat_map_app. Qed.

Lemma upcastAll_snoc (us : list EventUpcaster) (u : EventUpcaster) (e : RawEvent) :
  upcastAll (us ++ [u]) e = pass u (upcastAll us e).
Proof. unfold upcastAll. now rewrite fold_left_app. Qed.

Lemma spread_sameEnvelope (evt : RawEvent) (r : UpcasterResult) :
  sameEnvelope (spread evt r) evt.
Proof. repeat split. Qed.

Lemma upcastOne_sameEnvelope (u : EventUpcaster) (evt out : RawEvent) :
  In out (upcastOne u evt) -> sameEnvelope out evt.
Proof.
  unfold upcastOne. destruct (canUpcast u evt).
  - intros Hin. apply in_map_iff in Hin as (r & <- & _).
    apply spread_sameEnvelope.
  - intros [<- | []]. repeat split.
Qed.

Lemma sameEnvelope_trans (a b c : RawEvent) :
  sameEnvelope a b -> sameEnvelope b c -> sameEnvelope a c.
Proof.
  unfold sameEnvelope. intros (? & ? & ? & ? & ?) (? & ? & ? & ? & ?).
  repeat split; congruence.
Qed.

Lemma upcastAll_sameEnvelope (us : list EventUpcaster) (e out : RawEvent) :
  In out (upcastAll us e) -> sameEnvelope out e.
Proof.
  revert out. induction us as [| u us IH] using rev_ind; intros out.
  - intros [<- | []]. repeat split.
  - rewrite upcastAll_snoc. unfold pass. intros Hin.
    apply in_flat_map in Hin as (mid & Hmid & Hout).
    eapply sameEnvelope_trans.
    + eapply upcastOne_sameEnvelope, Hout.
    + apply IH, Hmid.
Qed.

Lemma upcastAll_id (us : list EventUpcaster) (e out : RawEvent) :
  In out (upcastAll us e) -> id out = id e.
Proof. intros H. apply upcastAll_sameEnvelope in H. apply H. Qed.

Lemma upcastAll_unclaimed (us : list EventUpcaster) (e : RawEvent) :
  (forall u, In u us -> canUpcast u e = false) -> upcastAll us e = [e].
Proof.
  induction us as [| u us IH] using rev_ind; intros Hno.
  - reflexivity.
  - rewrite upcastAll_snoc, IH.
    + unfold pass, upcastOne. simpl.
      rewrite (Hno u) by (apply in_or_app; right; left; reflexivity).
      reflexivity.
    + intros u' Hin. apply Hno. apply in_or_app. now left.
Qed.

(** C6: the chain starts from the event alone and runs one full pass per
    upcaster, in registration order, each pass over the whole output of the
    passes before it.  In a pass an event the upcaster claims is replaced
    by one event per result of the upcaster, in their order, each with the
    result's type and data and with everything else copied from the
    claimed event, so by none when there is no result; an event it does
    not claim is kept as it is.  An event no upcaster claims comes out
    unchanged; every output keeps the id, subject, source and time (and
    metadata) of the event that went in. *)
Theorem upcast_chain_full_passes (upcasters : list EventUpcaster)
  (event : RawEvent) :
  upcastAll [] event = [event] /\
  (forall added,
     upcastAll (upcasters ++ [added]) event
     = flat_map
         (fun evt =>
            if canUpcast added evt
            then map (fun result =>
                        {| id := id evt;
                           type := r_type result;
                           source := source evt;
                           subject := subject evt;
                           time := time evt;
                           data := r_data result;
                           metadata := metadata evt |})
                     (upcast added evt)
            else [evt])
         (upcastAll upcasters event)) /\
  ((forall u, In u upcasters -> canUpcast u event = false) ->
   upcastAll upcasters event = [event]) /\
  (forall out, In out (upcastAll upcasters event) -> sameEnvelope out event).
Proof.
  split; [reflexivity | split; [| split]].
  - intros added. apply upcastAll_snoc.
  - apply upcastAll_unclaimed.
  - intros out. apply upcastAll_sameEnvelope.
Qed.

(** The staged migration of the samples: the v1 event comes out of the
    second pass as one v3 event that carries both edits and the envelope of
    the v1 event; an event of another type comes out as it went in. *)
Lemma upcast_chain_full_passes_witness :
  upcastAll Samples.staged Samples.otherEvent = [Samples.otherEvent] /\
  (forall out, In out (upcastAll Samples.staged Samples.v1Event) ->
               sameEnvelope out Samples.v1Event) /\
  upcastAll ([Samples.v1_to_v2] ++ [Samples.v2_to_v3]) Samples.v1Event
  = [ {| id := id Samples.v1Event;
         type := "v3.Event";
         source := source Samples.v1Event;
         subject := subject Samples.v1Event;
         time := time Samples.v1Event;
         data := <["c" := JNum 3]> (<["b" := JNum 2]> (data Samples.v1Event));
         metadata := metadata Samples.v1Event |} ].
Proof.
  split; [| split].
  - apply (upcast_chain_full_passes Samples.staged Samples.otherEvent).
    intros u [<- | [<- | []]]; reflexivity.
  - apply (upcast_chain_full_passes Samples.staged Samples.v1Event).
  - destruct (upcast_chain_full_passes [Samples.v1_to_v2] Samples.v1Event)
      as (_ & Hpass & _).
    rewrite (Hpass Samples.v2_to_v3). reflexivity.
Defined.

Example staged_v1_becomes_v3 :
  map type (upcastAll Samples.staged Samples.v1Event) = ["v3.Event"] /\
  map (fun e => (data e !! "a", data e !! "b", data e !! "c"))
      (upcastAll Samples.staged Samples.v1Event)
  = [(Some (JNum 1), Some (JNum 2), Some (JNum 3))].
Proof. split; vm_compute; reflexivity. Qed.

(** A pass can fan an event out or drop it: the chain's output then has as
    many events as the upcaster returned results. *)
Example pass_fans_out_and_drops :
  let splitter :=
    {| canUpcast := fun evt => String.eqb (type evt) "v1.Event";
       upcast := fun evt =>
         [ {| r_type := "left"; r_data := data evt |};
           {| r_type := "right"; r_data := ∅ |} ] |} in
  let dropper :=
    {| canUpcast := fun evt => String.eqb (type evt) "right";
       upcast := fun _ => [] |} in
  map (fun e => (type e, data e !! "a"))
      (upcastAll [splitter] Samples.v1Event)
  = [("left", Some (JNum 1)); ("right", None)] /\
  map type (upcastAll [splitter; dropper] Samples.v1Event) = ["left"].
Proof. split; vm_compute; reflexivity. Qed.

End UpcasterChain.

(* ===================================================================== *)
(** ** The default partition key resolver *)
(* ===================================================================== *)

Section PartitionKey.
Import DefaultPartitionKeyResolver.
Local Open Scope Z_scope.

Lemma toInt32_range (x : Z) : - 2 ^ 31 <= Js.toInt32 x < 2 ^ 31.
Proof.
  unfold Js.toInt32.
  pose proof (Z.mod_pos_bound (x + 2 ^ 31) (2 ^ 32) ltac:(lia)). lia.
Qed.

Lemma step_int32 (hash char : Z) : - 2 ^ 31 <= step hash char < 2 ^ 31.
Proof. unfold step, Js.band. apply toInt32_range. Qed.

Lemma hashOf_int32 (chars : list Z) : - 2 ^ 31 <= hashOf chars < 2 ^ 31.
Proof.
  unfold hashOf.
  induction chars as [| c chars IH] using rev_ind.
  - simpl. lia.
  - rewrite fold_left_app. simpl. apply step_int32.
Qed.

Lemma resolveUnits_range (n : Z) (chars : list Z) :
  0 < n -> 0 <= resolveUnits n chars < n.
Proof.
  intros Hn. unfold resolveUnits.
  apply Z.rem_bound_pos; [apply Z.abs_nonneg | exact Hn].
Qed.

(** C8: for a partition count n > 0 the resolver maps every string to an
    integer in [0, n), and to the same one whenever it is asked again: the
    result is a function of the count and the string alone.  With 10
    partitions "/task/task-1" is always resolved to 4. *)
Theorem resolve_stable_in_range (n : Z) (sequenceId : string) :
  0 < n ->
  0 <= resolve n sequenceId < n /\
  (forall again, again = sequenceId -> resolve n again = resolve n sequenceId) /\
  resolve 10 "/task/task-1" = 4 /\
  (forall units : list Z, 0 <= resolveUnits n units < n).
Proof.
  intros Hn. split; [| split; [| split]].
  - unfold resolve. now apply resolveUnits_range.
  - intros again ->. reflexivity.
  - vm_compute. reflexivity.
  - intros units. now apply resolveUnits_range.
Qed.

Lemma resolve_stable_in_range_witness :
  0 <= resolve 10 "/task/task-1" < 10 /\ resolve 10 "/task/task-1" = 4.
Proof.
  pose proof (resolve_stable_in_range 10 "/task/task-1" ltac:(lia))
    as (Hrange & _ & Hvalue & _).
  split; [exact Hrange | exact Hvalue].
Defined.

End PartitionKey.

(* ===================================================================== *)
(** ** The command router: subject conditions *)
(* ===================================================================== *)

Section SubjectConditions.
Import Event Command StateRebuildingCache EventTypeResolver CommandRouter.

Lemma publishCaptured_effects cfg subject metadata captured w :
  exists later,
    effects (snd (publishCaptured cfg subject metadata captured w))
    = effects w ++ later.
Proof.
  unfold publishCaptured. destruct captured as [| c cs].
  - exists []. simpl. now rewrite app_nil_r.
  - destruct (mapExc _ _) as [toPub | e].
    + destruct (InMemoryAdapter.publishEvents _ _ _ _) as [[published st'] | e];
        eexists; simpl; reflexivity.
    + exists []. simpl. now rewrite app_nil_r.
Qed.

Lemma publishCaptured_cache cfg subject metadata captured w :
  stateCache (snd (publishCaptured cfg subject metadata captured w))
  = stateCache w.
Proof.
  unfold publishCaptured. destruct captured as [| c cs]; [reflexivity |].
  destruct (mapExc _ _) as [toPub | e]; [| reflexivity].
  destruct (InMemoryAdapter.publishEvents _ _ _ _) as [[published st'] | e];
    reflexivity.
Qed.

(** send, once the handler definition and the rebuild are known. *)
Lemma send_unfold cfg command metadata w definition rebuilt cache' :
  commandHandlerFor cfg (commandName command) = Some definition ->
  rebuildState cfg (eventStore w) (stateCache w) (getSubject command)
    (ch_instanceClass definition) (ch_sourcingMode definition)
  = (rebuilt, cache') ->
  send cfg command metadata w
  = match validateSubjectCondition (getSubject command)
            (default SubjectCondition.NONE (getSubjectCondition command))
            (rb_instance rebuilt) (lastEventId rebuilt) with
    | Js.Throw e => (Js.Throw e, withCache w cache')
    | Js.Ok _ =>
        let '(capturedEvents, outcome) :=
          runHandler (ch_handler definition) (rb_instance rebuilt)
                     command metadata in
        let w2 := withEffect (withCache w cache')
                             (HandlerInvoked (commandName command)) in
        match outcome with
        | Js.Throw e => (Js.Throw e, w2)
        | Js.Ok result =>
            match replayCaptured cfg (rb_instance rebuilt) capturedEvents
                    (getSubject command) (ch_instanceClass definition) with
            | Js.Throw e => (Js.Throw e, w2)
            | Js.Ok updatedInstance =>
                match publishCaptured cfg (getSubject command) metadata
                        capturedEvents w2 with
                | (Js.Throw e, w3) => (Js.Throw e, w3)
                | (Js.Ok _, w3) => (Js.Ok result, w3)
                end
            end
        end
    end.
Proof. intros Hdef Hrb. unfold send. now rewrite Hdef, Hrb. Qed.

Lemma send_rejected cfg command metadata w definition e :
  commandHandlerFor cfg (commandName command) = Some definition ->
  validateSubjectCondition (getSubject command)
    (default SubjectCondition.NONE (getSubjectCondition command))
    (rb_instance (fst (rebuildState cfg (eventStore w) (stateCache w)
       (getSubject command) (ch_instanceClass definition)
       (ch_sourcingMode definition))))
    (lastEventId (fst (rebuildState cfg (eventStore w) (stateCache w)
       (getSubject command) (ch_instanceClass definition)
       (ch_sourcingMode definition))))
  = Js.Throw e ->
  rejectedBeforeHandler e w (send cfg command metadata w).
Proof.
  intros Hdef Hval.
  destruct (rebuildState _ _ _ _ _ _) as [rebuilt cache'] eqn:Hrb.
  rewrite (send_unfold _ _ _ _ _ _ _ Hdef Hrb). simpl in Hval.
  rewrite Hval. repeat split.
Qed.

Lemma send_reaches_handler cfg command metadata w definition :
  commandHandlerFor cfg (commandName command) = Some definition ->
  validateSubjectCondition (getSubject command)
    (default SubjectCondition.NONE (getSubjectCondition command))
    (rb_instance (fst (rebuildState cfg (eventStore w) (stateCache w)
       (getSubject command) (ch_instanceClass definition)
       (ch_sourcingMode definition))))
    (lastEventId (fst (rebuildState cfg (eventStore w) (stateCache w)
       (getSubject command) (ch_instanceClass definition)
       (ch_sourcingMode definition))))
  = Js.Ok tt ->
  reachedHandler (commandName command) w (send cfg command metadata w).
Proof.
  intros Hdef Hval.
  destruct (rebuildState _ _ _ _ _ _) as [rebuilt cache'] eqn:Hrb.
  rewrite (send_unfold _ _ _ _ _ _ _ Hdef Hrb). simpl in Hval.
  rewrite Hval. unfold reachedHandler.
  destruct (runHandler _ _ _ _) as [captured outcome].
  destruct outcome as [result | e]; [| exists []; reflexivity].
  destruct (replayCaptured _ _ _ _ _) as [updated | e];
    [| exists []; reflexivity].
  set (w2 := withEffect _ _).
  destruct (publishCaptured_effects cfg (getSubject command) metadata
              captured w2) as [later Hlater].
  destruct (publishCaptured _ _ _ _ _) as [[u | e] w3]; simpl in *;
    exists later; rewrite Hlater; unfold w2; simpl;
    now rewrite <- app_assoc.
Qed.

(** C1: when the command declares NEW and the rebuild found a prior event
    ([lastEventId] not null), send fails, the command handler is not invoked
    and nothing is published; the same when it declares EXISTS and the
    rebuild found none; when it declares NONE (or nothing) the check passes
    whatever the rebuild found, and send goes on to the handler. *)
Theorem subject_condition_enforced cfg command metadata w definition :
  commandHandlerFor cfg (commandName command) = Some definition ->
  let found :=
    lastEventId (fst (rebuildState cfg (eventStore w) (stateCache w)
      (getSubject command) (ch_instanceClass definition)
      (ch_sourcingMode definition))) in
  (getSubjectCondition command = Some SubjectCondition.NEW ->
   found <> None ->
   rejectedBeforeHandler (mustBeNew (getSubject command)) w
     (send cfg command metadata w)) /\
  (getSubjectCondition command = Some SubjectCondition.EXISTS ->
   found = None ->
   rejectedBeforeHandler (mustExist (getSubject command)) w
     (send cfg command metadata w)) /\
  (default SubjectCondition.NONE (getSubjectCondition command)
   = SubjectCondition.NONE ->
   (forall subject instance lastEventId,
      validateSubjectCondition subject SubjectCondition.NONE instance
        lastEventId = Js.Ok tt) /\
   reachedHandler (commandName command) w (send cfg command metadata w)).
Proof.
  intros Hdef found. split; [| split].
  - intros Hc Hfound. apply (send_rejected _ _ _ _ _ _ Hdef).
    rewrite Hc. simpl. fold found.
    destruct found; [reflexivity | congruence].
  - intros Hc Hfound. apply (send_rejected _ _ _ _ _ _ Hdef).
    rewrite Hc. simpl. fold found. now rewrite Hfound.
  - intros Hc. split; [reflexivity |].
    apply (send_reaches_handler _ _ _ _ _ Hdef). now rewrite Hc.
Qed.

End SubjectConditions.

Section SubjectConditionCases.
Import Event Command StateRebuildingCache EventTypeResolver CommandRouter.

Lemma subject_condition_enforced_witness :
  rejectedBeforeHandler (mustBeNew "/task/t1")
    (Samples.world [Samples.createdEvent])
    (send Samples.taskRouter
       (Samples.command "CreateTask" (Some SubjectCondition.NEW)) ∅
       (Samples.world [Samples.createdEvent])) /\
  rejectedBeforeHandler (mustExist "/task/t1") (Samples.world [])
    (send Samples.taskRouter
       (Samples.command "RenameTask" (Some SubjectCondition.EXISTS)) ∅
       (Samples.world [])) /\
  reachedHandler "CreateTask" (Samples.world [Samples.createdEvent])
    (send Samples.taskRouter (Samples.command "CreateTask" None) ∅
       (Samples.world [Samples.createdEvent])).
Proof.
  split; [| split].
  - apply (subject_condition_enforced Samples.taskRouter
             (Samples.command "CreateTask" (Some SubjectCondition.NEW)) ∅
             (Samples.world [Samples.createdEvent]) Samples.handleCreate);
      [reflexivity | reflexivity | vm_compute; discriminate].
  - apply (subject_condition_enforced Samples.taskRouter
             (Samples.command "RenameTask" (Some SubjectCondition.EXISTS)) ∅
             (Samples.world []) Samples.handleRename);
      [reflexivity | reflexivity | vm_compute; reflexivity].
  - apply (subject_condition_enforced Samples.taskRouter
             (Samples.command "CreateTask" None) ∅
             (Samples.world [Samples.createdEvent]) Samples.handleCreate);
      [reflexivity | reflexivity].
Defined.

(** C9: a handler definition with SourcingMode.NONE skips the rebuild, so
    [lastEventId] is null whatever the store holds: a command that declares
    EXISTS is always rejected, one that declares NEW always passes the check
    and reaches its handler. *)
Theorem sourcing_none_rebuilds_nothing cfg command metadata w definition :
  commandHandlerFor cfg (commandName command) = Some definition ->
  ch_sourcingMode definition = SourcingMode.NONE ->
  rebuildState cfg (eventStore w) (stateCache w) (getSubject command)
    (ch_instanceClass definition) (ch_sourcingMode definition)
  = ({| rb_instance := None; lastEventId := None |}, stateCache w) /\
  (getSubjectCondition command = Some SubjectCondition.EXISTS ->
   rejectedBeforeHandler (mustExist (getSubject command)) w
     (send cfg command metadata w)) /\
  (getSubjectCondition command = Some SubjectCondition.NEW ->
   reachedHandler (commandName command) w (send cfg command metadata w)).
Proof.
  intros Hdef Hmode.
  assert (Hrb : rebuildState cfg (eventStore w) (stateCache w)
                  (getSubject command) (ch_instanceClass definition)
                  (ch_sourcingMode definition)
                = ({| rb_instance := None; lastEventId := None |},
                   stateCache w))
    by (rewrite Hmode; reflexivity).
  split; [exact Hrb | split].
  - intros Hc. apply (send_rejected _ _ _ _ _ _ Hdef).
    rewrite Hrb, Hc. reflexivity.
  - intros Hc. apply (send_reaches_handler _ _ _ _ _ Hdef).
    rewrite Hrb, Hc. reflexivity.
Qed.

Lemma sourcing_none_rebuilds_nothing_witness :
  rejectedBeforeHandler (mustExist "/task/t1")
    (Samples.world [Samples.createdEvent])
    (send Samples.taskRouter
       (Samples.command "PingTask" (Some SubjectCondition.EXISTS)) ∅
       (Samples.world [Samples.createdEvent])) /\
  reachedHandler "PingTask" (Samples.world [Samples.createdEvent])
    (send Samples.taskRouter
       (Samples.command "PingTask" (Some SubjectCondition.NEW)) ∅
       (Samples.world [Samples.createdEvent])).
Proof.
  split.
  - apply (sourcing_none_rebuilds_nothing Samples.taskRouter
             (Samples.command "PingTask" (Some SubjectCondition.EXISTS)) ∅
             (Samples.world [Samples.createdEvent]) Samples.handlePing);
      reflexivity.
  - apply (sourcing_none_rebuilds_nothing Samples.taskRouter
             (Samples.command "PingTask" (Some SubjectCondition.NEW)) ∅
             (Samples.world [Samples.createdEvent]) Samples.handlePing);
      reflexivity.
Defined.

End SubjectConditionCases.

(* ===================================================================== *)
(** ** The command router: replay of the buffered events *)
(* ===================================================================== *)

Section Replay.
Import Event Command StateRebuildingCache EventTypeResolver CommandRouter.

Lemma send_cache cfg command metadata w definition :
  commandHandlerFor cfg (commandName command) = Some definition ->
  stateCache (snd (send cfg command metadata w))
  = snd (rebuildState cfg (eventStore w) (stateCache w) (getSubject command)
           (ch_instanceClass definition) (ch_sourcingMode definition)).
Proof.
  intros Hdef.
  destruct (rebuildState _ _ _ _ _ _) as [rebuilt cache'] eqn:Hrb.
  rewrite (send_unfold _ _ _ _ _ _ _ Hdef Hrb).
  destruct (validateSubjectCondition _ _ _ _); [| reflexivity].
  destruct (runHandler _ _ _ _) as [captured outcome].
  destruct outcome as [result | e]; [| reflexivity].
  destruct (replayCaptured _ _ _ _ _) as [updated | e]; [| reflexivity].
  cbv zeta.
  pose proof (publishCaptured_cache cfg (getSubject command) metadata captured
                (withEffect (withCache w cache')
                   (HandlerInvoked (commandName command)))) as Hc.
  destruct (publishCaptured _ _ _ _ _) as [[u | e] w3]; simpl in *;
    rewrite Hc; reflexivity.
Qed.

(** C4, as the code has it.  A send whose handler returns after publishing
    two or more events replays them in publish order before it publishes
    anything: the replay of the first buffered event starts from the
    rebuilt instance, the replay of the second receives the instance the
    first replay produced, and the remaining ones follow in the same way.
    What the send does next depends on that replay alone: an error thrown
    by one of its steps is the error of the send, and then nothing is
    handed to the event store; otherwise the send goes on to publish all
    buffered events.  In both cases send does not write the replayed
    instance to the cache, which is left as the rebuild step stored it. *)
Theorem replay_in_publish_order cfg command metadata w definition
  (first second : Captured) (rest : list Captured) (result : Json) :
  let subject := getSubject command in
  let instanceClass := ch_instanceClass definition in
  let rebuild :=
    rebuildState cfg (eventStore w) (stateCache w) subject instanceClass
      (ch_sourcingMode definition) in
  let rebuilt := fst rebuild in
  let handled :=
    withEffect (withCache w (snd rebuild))
               (HandlerInvoked (commandName command)) in
  let replayed :=
    (let! afterFirst :=
       applyStateRebuilding cfg (rb_instance rebuilt) (c_event first)
         (c_metadata first) subject instanceClass None in
     let! afterSecond :=
       applyStateRebuilding cfg afterFirst (c_event second)
         (c_metadata second) subject instanceClass None in
     replayCaptured cfg afterSecond rest subject instanceClass) in
  let sent := send cfg command metadata w in
  commandHandlerFor cfg (commandName command) = Some definition ->
  (validateSubjectCondition subject
     (default SubjectCondition.NONE (getSubjectCondition command))
     (rb_instance rebuilt) (lastEventId rebuilt) = Js.Ok tt ->
   runHandler (ch_handler definition) (rb_instance rebuilt) command metadata
   = (first :: second :: rest, Js.Ok result) ->
   sent
   = match replayed with
     | Js.Throw e => (Js.Throw e, handled)
     | Js.Ok _ =>
         match publishCaptured cfg subject metadata
                 (first :: second :: rest) handled with
         | (Js.Throw e, w3) => (Js.Throw e, w3)
         | (Js.Ok _, w3) => (Js.Ok result, w3)
         end
     end /\
   forall afterFirst e,
     applyStateRebuilding cfg (rb_instance rebuilt) (c_event first)
       (c_metadata first) subject instanceClass None = Js.Ok afterFirst ->
     applyStateRebuilding cfg afterFirst (c_event second)
       (c_metadata second) subject instanceClass None = Js.Throw e ->
     fst sent = Js.Throw e /\
     eventStore (snd sent) = eventStore w /\
     effects (snd sent)
     = effects w ++ [HandlerInvoked (commandName command)]) /\
  stateCache (snd sent) = snd rebuild.
Proof.
  intros subject instanceClass rebuild rebuilt handled replayed sent Hdef.
  split;
    [| unfold sent, rebuild, subject, instanceClass; now apply send_cache].
  intros Hval Hrun.
  assert (Hsent :
    sent
    = match replayed with
      | Js.Throw e => (Js.Throw e, handled)
      | Js.Ok _ =>
          match publishCaptured cfg subject metadata
                  (first :: second :: rest) handled with
          | (Js.Throw e, w3) => (Js.Throw e, w3)
          | (Js.Ok _, w3) => (Js.Ok result, w3)
          end
      end).
  { unfold sent, replayed, handled, rebuilt, rebuild, subject, instanceClass
      in *.
    destruct (rebuildState _ _ _ _ _ _) as [rb cache'] eqn:Hrb.
    cbn [fst snd] in *.
    rewrite (send_unfold _ _ _ _ _ _ _ Hdef Hrb), Hval, Hrun.
    reflexivity. }
  split; [exact Hsent |].
  intros afterFirst e Hfirst Hsecond. rewrite Hsent.
  unfold replayed. rewrite Hfirst. cbn [Js.bind]. rewrite Hsecond.
  repeat split.
Qed.

(** The task created and renamed in one handler call: renaming reads the
    title of the instance it is given and throws on [null], and the cache
    is cold, so the send succeeds and publishes both events only because
    the replay of the renaming received the task the replay of the creation
    produced.  With the two events published in the other order the first
    replay throws, and so does the send, with nothing published. *)
Lemma replay_in_publish_order_witness :
  (let sent :=
     send Samples.replayRouter
       (Samples.command "CreateAndRenameTask" (Some SubjectCondition.NEW)) ∅
       (Samples.world []) in
   fst sent = Js.Ok (JStr "t1") /\
   map type (InMemoryAdapter.events (eventStore (snd sent)))
   = ["task.created"; "task.renamed"]) /\
  (let sent :=
     send Samples.replayRouter
       (Samples.command "RenameAndCreateTask" (Some SubjectCondition.NEW)) ∅
       (Samples.world []) in
   fst sent = Js.Throw "Cannot read properties of null (reading 'title')" /\
   InMemoryAdapter.events (eventStore (snd sent)) = []).
Proof.
  split.
  - destruct (replay_in_publish_order Samples.replayRouter
                (Samples.command "CreateAndRenameTask"
                   (Some SubjectCondition.NEW))
                ∅ (Samples.world []) Samples.handleCreateAndRename
                (Samples.taskCreated "Login") (Samples.taskRenamed "Sign in")
                [] (JStr "t1") eq_refl) as (Hreplay & _).
    destruct (Hreplay eq_refl eq_refl) as (Hsent & _).
    cbv zeta. rewrite Hsent. split; reflexivity.
  - destruct (replay_in_publish_order Samples.replayRouter
                (Samples.command "RenameAndCreateTask"
                   (Some SubjectCondition.NEW))
                ∅ (Samples.world []) Samples.handleRenameAndCreate
                (Samples.taskRenamed "Sign in") (Samples.taskCreated "Login")
                [] (JStr "t1") eq_refl) as (Hreplay & _).
    destruct (Hreplay eq_refl eq_refl) as (Hsent & _).
    cbv zeta. rewrite Hsent. split; reflexivity.
Defined.

(** Three events in one call: each replay receives what the one before it
    produced, and the last renaming is the state the replay ends with. *)
Example replay_of_three :
  replayCaptured Samples.replayRouter None
    [Samples.taskCreated "Login"; Samples.taskRenamed "Sign in";
     Samples.taskRenamed "Log on"] "/task/t1" "Task"
  = Js.Ok (Some {["title" := JStr "Log on"]}) /\
  fst (send Samples.replayRouter
         (Samples.command "CreateAndRenameTwice" (Some SubjectCondition.NEW))
         ∅ (Samples.world []))
  = Js.Ok (JStr "t1").
Proof. split; vm_compute; reflexivity. Qed.

(** A task created and renamed in one handler call: the send succeeds and
    publishes both events, the replay ends with the renamed task, and the
    cache entry for the task still holds no instance. *)
Lemma renamed_state_not_cached :
  let sent :=
    send Samples.taskRouter
      (Samples.command "CreateAndRenameTask" (Some SubjectCondition.NEW)) ∅
      (Samples.world []) in
  fst sent = Js.Ok (JStr "t1") /\
  map type (InMemoryAdapter.events (eventStore (snd sent)))
  = ["task.created"; "task.renamed"] /\
  replayCaptured Samples.taskRouter None
    [Samples.taskCreated "Login"; Samples.taskRenamed "Sign in"]
    "/task/t1" "Task"
  = Js.Ok (Some {["title" := JStr "Sign in"]}) /\
  match stateCache (snd sent) with
  | InMemory c =>
      Js.get (buildKey Samples.taskKey) (cache c)
      = Some {| eventId := None; instance := None; sourcedSubjectIds := ∅ |}
  | NoStateRebuildingCache => False
  end.
Proof. vm_compute. repeat split. Qed.

(** The renamed task reaches the cache with the next rebuild, which streams
    the two published events from the store. *)
Example renamed_state_cached_by_next_rebuild :
  let sent :=
    send Samples.taskRouter
      (Samples.command "CreateAndRenameTask" (Some SubjectCondition.NEW)) ∅
      (Samples.world []) in
  fst (rebuildState Samples.taskRouter (eventStore (snd sent))
         (stateCache (snd sent)) "/task/t1" "Task" SourcingMode.LOCAL)
  = {| rb_instance := Some {["title" := JStr "Sign in"]};
       lastEventId := Some "event-1"%string |}.
Proof. vm_compute. reflexivity. Qed.

End Replay.

(* ===================================================================== *)
(** ** The command router: rebuild *)
(* ===================================================================== *)

Section Rebuild.
Import Event Command StateRebuildingCache EventTypeResolver CommandRouter.

Context (cfg : CommandRouterConfig) (instanceClass : string).


(** Where a throw of applyStateRebuilding comes from: a handler registered
    for the instance class and the event's class threw it. *)
Lemma applyHandlers_throw_origin handlers instance event metadata subject
  rawEvent err :
  applyHandlers handlers instance event metadata subject rawEvent
  = Js.Throw err ->
  exists handlerDef given,
    In handlerDef handlers /\
    sr_eventClass handlerDef = constructorName event /\
    callStateRebuildingHandler (sr_handler handlerDef) given event metadata
      subject rawEvent = Js.Throw err.
Proof.
  revert instance. induction handlers as [| d ds IH]; intros instance; simpl.
  - discriminate.
  - destruct (String.eqb_spec (sr_eventClass d) (constructorName event))
      as [Heq | Hne].
    + destruct (callStateRebuildingHandler _ _ _ _ _ _) as [inst' | e] eqn:Hc;
        simpl.
      * intros H. destruct (IH _ H) as (d' & g & Hin & Hcl & Hthrow).
        exists d', g. auto.
      * intros [= ->]. exists d, instance. auto.
    + intros H. destruct (IH _ H) as (d' & g & Hin & Hcl & Hthrow).
      exists d', g. auto.
Qed.


(** *** An upcasted event either changes nothing or records its id *)

Lemma applyUpcasted_cases current upcastedEvent :
  applyUpcasted cfg instanceClass current upcastedEvent = current \/
  eventId (applyUpcasted cfg instanceClass current upcastedEvent)
  = Some (id upcastedEvent).
Proof.
  unfold applyUpcasted.
  destruct (tryApply cfg instanceClass current upcastedEvent) as [next | e]
    eqn:Htry; [right | now left].
  unfold tryApply in Htry.
  destruct (getClass _ _) as [cls | e]; simpl in Htry; [| discriminate].
  destruct (deserialize _ _ _) as [ed | e]; simpl in Htry; [| discriminate].
  destruct (applyStateRebuilding _ _ _ _ _ _ _) as [inst | e];
    simpl in Htry; [| discriminate].
  injection Htry as <-. reflexivity.
Qed.

Lemma fold_applyUpcasted_keeps_id upcasted current i :
  Forall (fun ue => id ue = i) upcasted ->
  eventId current = Some i ->
  eventId (fold_left (applyUpcasted cfg instanceClass) upcasted current)
  = Some i.
Proof.
  intros Hall. revert current.
  induction Hall as [| ue rest Hid _ IH]; intros current Hcur; simpl.
  - exact Hcur.
  - apply IH.
    destruct (applyUpcasted_cases current ue) as [-> | ->];
      [exact Hcur | now rewrite Hid].
Qed.

Lemma fold_applyUpcasted_cases upcasted current i :
  Forall (fun ue => id ue = i) upcasted ->
  fold_left (applyUpcasted cfg instanceClass) upcasted current = current \/
  eventId (fold_left (applyUpcasted cfg instanceClass) upcasted current)
  = Some i.
Proof.
  intros Hall. revert current.
  induction Hall as [| ue rest Hid Hrest IH]; intros current; simpl.
  - now left.
  - destruct (applyUpcasted_cases current ue) as [-> | Hset].
    + apply IH.
    + right. apply fold_applyUpcasted_keeps_id; [exact Hrest |].
      now rewrite Hset, Hid.
Qed.

Lemma upcastRaw_id rawEvent :
  Forall (fun ue => id ue = id rawEvent) (upcastRaw cfg rawEvent).
Proof.
  apply List.Forall_forall. intros ue Hin. unfold upcastRaw in Hin.
  destruct (upcasters cfg) as [chain |].
  - eapply upcastAll_id, Hin.
  - destruct Hin as [<- | []]. reflexivity.
Qed.

Lemma applyRaw_cases current rawEvent :
  applyRaw cfg instanceClass current rawEvent = current \/
  eventId (applyRaw cfg instanceClass current rawEvent) = Some (id rawEvent).
Proof. apply fold_applyUpcasted_cases, upcastRaw_id. Qed.

(** After a run of raw events the state is the initial one, or it records
    the id of one of them and the events after that one change nothing. *)
Lemma last_recorded (stream : list RawEvent) (start : CacheValue) :
  let final := fold_left (applyRaw cfg instanceClass) stream start in
  final = start \/
  exists before e after,
    stream = before ++ e :: after /\
    eventId final = Some (id e) /\
    fold_left (applyRaw cfg instanceClass) after final = final.
Proof.
  induction stream as [| x stream IH] using rev_ind; simpl.
  - now left.
  - rewrite fold_left_app. simpl.
    set (mid := fold_left (applyRaw cfg instanceClass) stream start) in *.
    destruct (applyRaw_cases mid x) as [Hsame | Hset].
    + rewrite Hsame. destruct IH as [IH | (before & e & after & -> & Hid & Hfix)].
      * now left.
      * right. exists before, e, (after ++ [x]). split; [| split].
        -- now rewrite <- app_assoc.
        -- exact Hid.
        -- rewrite fold_left_app, Hfix. simpl. exact Hsame.
    + right. exists stream, x, []. auto.
Qed.

End Rebuild.

Section RebuildFromCheckpoint.
Import Event Command StateRebuildingCache EventTypeResolver CommandRouter.


(** A store that holds only a rename of the task: its handler throws on
    the missing instance, the rebuild finds nothing, and send fails on
    EXISTS with the condition's error or, without a condition, calls the
    command handler with no instance. *)
Example send_after_skipped_event :
  let w := Samples.world [Samples.renamedEvent] in
  fst (rebuildState Samples.taskRouter (eventStore w) (stateCache w)
         "/task/t1" "Task" SourcingMode.LOCAL)
  = {| rb_instance := None; lastEventId := None |} /\
  fst (send Samples.taskRouter
         (Samples.command "InspectTask" (Some SubjectCondition.EXISTS)) ∅ w)
  = Js.Throw (mustExist "/task/t1") /\
  fst (send Samples.taskRouter (Samples.command "InspectTask" None) ∅ w)
  = Js.Ok JNull.
Proof. vm_compute. repeat split. Qed.

(** *** Streaming after a lower bound *)

Lemma findIndex_middle {A} (p : A -> bool) before e after :
  (forall x, In x before -> p x = false) ->
  p e = true ->
  InMemoryAdapter.findIndex p (before ++ e :: after) = Some (length before).
Proof.
  induction before as [| b before IH]; intros Hno He; simpl.
  - now rewrite He.
  - rewrite (Hno b) by now left.
    rewrite IH; [reflexivity | | exact He].
    intros x Hx. apply Hno. now right.
Qed.

Lemma stream_without_options st subject recursive :
  InMemoryAdapter.streamEvents st subject None (Some recursive)
  = InMemoryAdapter.filterEventsBySubject st subject recursive.
Proof. reflexivity. Qed.

Lemma stream_after_lower_bound st subject recursive before e after :
  InMemoryAdapter.filterEventsBySubject st subject recursive
  = before ++ e :: after ->
  List.NoDup (map id (before ++ e :: after)) ->
  id e <> ""%string ->
  InMemoryAdapter.streamEvents st subject (streamOptionsFrom (Some (id e)))
    (Some recursive)
  = after.
Proof.
  intros Hfiltered Hnodup Hid.
  assert (Htruthy : Js.orNull (Some (id e)) = Some (id e)).
  { simpl. destruct (id e); [congruence | reflexivity]. }
  unfold InMemoryAdapter.streamEvents, streamOptionsFrom.
  rewrite Htruthy. simpl. rewrite Hfiltered.
  unfold InMemoryAdapter.applyLatestByEventType,
    InMemoryAdapter.applyUpperBound, InMemoryAdapter.applyLowerBound.
  simpl. fold (Js.orNull (Some (id e))). rewrite Htruthy.
  rewrite findIndex_middle.
  - simpl. rewrite Nat.add_1_r.
    change (e :: after) with ([e] ++ after). rewrite app_assoc.
    rewrite skipn_app, skipn_all2 by (rewrite length_app; simpl; lia).
    rewrite length_app. simpl.
    replace (S (length before) - (length before + 1)) with 0 by lia.
    reflexivity.
  - intros x Hx. apply String.eqb_neq. intros Heq.
    rewrite map_app in Hnodup. simpl in Hnodup.
    apply List.NoDup_remove_2 in Hnodup. apply Hnodup.
    apply in_or_app. left. rewrite <- Heq. now apply in_map.
  - apply String.eqb_refl.
Qed.

Lemma NoDup_map_filter {A B} (f : A -> B) (p : A -> bool) (l : list A) :
  List.NoDup (map f l) -> List.NoDup (map f (List.filter p l)).
Proof.
  induction l as [| x l IH]; simpl; intros Hnd.
  - constructor.
  - apply List.NoDup_cons_iff in Hnd as [Hx Hl].
    destruct (p x); simpl; [| now apply IH].
    apply List.NoDup_cons_iff. split; [| now apply IH].
    intros Hin. apply Hx. apply in_map_iff in Hin as (y & Hy & Hin).
    apply List.filter_In in Hin as [Hin _].
    rewrite <- Hy. now apply in_map.
Qed.

Lemma filterEventsBySubject_as_filter subject recursive :
  exists p,
    forall st, InMemoryAdapter.filterEventsBySubject st subject recursive
               = List.filter p (InMemoryAdapter.events st).
Proof.
  destruct recursive; eexists; intros st; reflexivity.
Qed.

(** The merge that resumes from the checkpoint of a shorter store reaches
    the state of a merge from nothing. *)
Lemma merger_resume cfg instanceClass subject recursive
  (earlier later : InMemoryAdapter.t) (k : nat) :
  InMemoryAdapter.events earlier = firstn k (InMemoryAdapter.events later) ->
  List.NoDup (map id (InMemoryAdapter.events later)) ->
  Forall (fun e => id e <> ""%string) (InMemoryAdapter.events later) ->
  merger cfg later subject instanceClass recursive
    (Some (merger cfg earlier subject instanceClass recursive None))
  = merger cfg later subject instanceClass recursive None.
Proof.
  intros Hprefix Hnodup Hids.
  destruct (filterEventsBySubject_as_filter subject recursive) as [p Hp].
  assert (Hsplit : InMemoryAdapter.filterEventsBySubject later subject recursive
                   = InMemoryAdapter.filterEventsBySubject earlier subject
                       recursive
                     ++ List.filter p (skipn k (InMemoryAdapter.events later))).
  { rewrite !Hp, Hprefix, <- List.filter_app, firstn_skipn. reflexivity. }
  set (G1 := InMemoryAdapter.filterEventsBySubject earlier subject recursive)
    in *.
  set (G2 := List.filter p (skipn k (InMemoryAdapter.events later))) in *.
  assert (Hcold : forall st,
             merger cfg st subject instanceClass recursive None
             = fold_left (applyRaw cfg instanceClass)
                 (InMemoryAdapter.filterEventsBySubject st subject recursive)
                 (mergerStart None)) by reflexivity.
  rewrite !Hcold, Hsplit, fold_left_app. fold G1.
  set (m1 := fold_left (applyRaw cfg instanceClass) G1 (mergerStart None)).
  destruct (last_recorded cfg instanceClass G1 (mergerStart None))
    as [Hsame | (before & e & after & HG1 & Hid & Hfix)];
    [fold m1 in Hsame | fold m1 in Hid, Hfix].
  - rewrite Hsame. unfold merger at 1.
    change (mergerStart (Some (mergerStart None))) with (mergerStart None).
    change (streamOptionsFrom (eventId (mergerStart None)))
      with (@None InMemoryAdapter.StreamOptions).
    rewrite stream_without_options, Hsplit, fold_left_app.
    fold G1 m1. now rewrite Hsame.
  - assert (Hin : In e (InMemoryAdapter.events later)).
    { assert (He : In e (G1 ++ G2))
        by (rewrite HG1; apply in_or_app; left; apply in_or_app; right;
            now left).
      rewrite <- Hsplit, Hp in He. now apply List.filter_In in He as [He _]. }
    assert (Hne : id e <> ""%string)
      by (apply (proj1 (List.Forall_forall _ _) Hids e Hin)).
    assert (Htruthy : Js.orNull (Some (id e)) = Some (id e)).
    { simpl. destruct (id e); [congruence | reflexivity]. }
    assert (Hstart : mergerStart (Some m1) = m1).
    { unfold mergerStart. simpl. rewrite Hid, Htruthy.
      destruct m1 as [i inst sourced]. simpl in *. now subst i. }
    unfold merger at 1. rewrite Hstart, Hid.
    rewrite (stream_after_lower_bound later subject recursive before e
               (after ++ G2)).
    + rewrite fold_left_app, Hfix. reflexivity.
    + rewrite Hsplit, HG1, <- app_assoc. reflexivity.
    + replace (before ++ e :: after ++ G2) with (G1 ++ G2)
        by (rewrite HG1, <- app_assoc; reflexivity).
      rewrite <- Hsplit, Hp. now apply NoDup_map_filter.
    + exact Hne.
Qed.

End RebuildFromCheckpoint.

Section RebuildSplit.
Import Event Command StateRebuildingCache EventTypeResolver CommandRouter.

Lemma fetchAndMerge_cold capacity key merge :
  fetchAndMerge (InMemory (newInMemoryStateCache capacity)) key merge
  = (merge None,
     InMemory {| cache := if (capacity <? 1)%Z then []
                          else [(buildKey key, merge None)];
                 capacity := capacity |}).
Proof.
  unfold fetchAndMerge, fetch, store, newInMemoryStateCache. simpl.
  unfold Js.size. simpl. change (Z.of_nat 1) with 1%Z.
  destruct (capacity <? 1)%Z; simpl; [| reflexivity].
  now rewrite String.eqb_refl.
Qed.

Lemma fetchAndMerge_single capacity key cached merge :
  fetchAndMerge
    (InMemory {| cache := [(buildKey key, cached)]; capacity := capacity |})
    key merge
  = (merge (Some cached),
     InMemory {| cache := if (capacity <? 1)%Z then []
                          else [(buildKey key, merge (Some cached))];
                 capacity := capacity |}).
Proof.
  unfold fetchAndMerge, fetch, store. simpl.
  rewrite String.eqb_refl. simpl. unfold Js.size. simpl.
  change (Z.of_nat 1) with 1%Z.
  destruct (capacity <? 1)%Z; simpl; [| reflexivity].
  now rewrite String.eqb_refl.
Qed.

(** C3: for a store whose events carry distinct, non-empty ids, every split
    point k and every cache capacity: rebuilding over the first k events from
    a cold cache, which caches the (eventId, instance) checkpoint, and
    rebuilding again once the store holds all events, which resumes after the
    checkpoint's eventId, returns the same instance and lastEventId and
    leaves the same cache as one rebuild over all events from a cold cache. *)
Theorem rebuild_split_equals_cold cfg subject instanceClass sourcingMode
  capacity (earlier later : InMemoryAdapter.t) (k : nat) :
  InMemoryAdapter.events earlier = firstn k (InMemoryAdapter.events later) ->
  List.NoDup (map id (InMemoryAdapter.events later)) ->
  Forall (fun e => id e <> ""%string) (InMemoryAdapter.events later) ->
  let cold := InMemory (newInMemoryStateCache capacity) in
  let checkpointed :=
    snd (rebuildState cfg earlier cold subject instanceClass sourcingMode) in
  rebuildState cfg later checkpointed subject instanceClass sourcingMode
  = rebuildState cfg later cold subject instanceClass sourcingMode.
Proof.
  intros Hprefix Hnodup Hids cold checkpointed.
  unfold checkpointed, cold, rebuildState.
  destruct sourcingMode; [reflexivity | |];
    rewrite !fetchAndMerge_cold; cbn [snd];
    (destruct (capacity <? 1)%Z eqn:Hcap;
     [ change (InMemory {| cache := []; capacity := capacity |})
         with (InMemory (newInMemoryStateCache capacity));
       rewrite fetchAndMerge_cold, Hcap; reflexivity
     | rewrite fetchAndMerge_single, Hcap;
       rewrite (merger_resume _ _ _ _ earlier later k Hprefix Hnodup Hids);
       reflexivity ]).
Qed.

Lemma rebuild_split_equals_cold_witness :
  let later := Samples.storeOf [Samples.createdEvent; Samples.renamedEvent] in
  let earlier := Samples.storeOf [Samples.createdEvent] in
  let cold := InMemory (newInMemoryStateCache 1000) in
  rebuildState Samples.taskRouter later
    (snd (rebuildState Samples.taskRouter earlier cold "/task/t1" "Task"
            SourcingMode.LOCAL))
    "/task/t1" "Task" SourcingMode.LOCAL
  = rebuildState Samples.taskRouter later cold "/task/t1" "Task"
      SourcingMode.LOCAL.
Proof.
  apply (rebuild_split_equals_cold Samples.taskRouter "/task/t1" "Task"
           SourcingMode.LOCAL 1000
           (Samples.storeOf [Samples.createdEvent])
           (Samples.storeOf [Samples.createdEvent; Samples.renamedEvent]) 1).
  - reflexivity.
  - repeat constructor; simpl; intuition discriminate.
  - repeat constructor; discriminate.
Defined.

(** The rebuilt task of the sample store, for reference. *)
Example rebuild_sample :
  fst (rebuildState Samples.taskRouter
         (Samples.storeOf [Samples.createdEvent; Samples.renamedEvent])
         (InMemory (newInMemoryStateCache 1000)) "/task/t1" "Task"
         SourcingMode.LOCAL)
  = {| rb_instance := Some {["title" := JStr "Sign in"]};
       lastEventId := Some "event-1"%string |}.
Proof. vm_compute. reflexivity. Qed.

End RebuildSplit.

(* ===================================================================== *)
(** ** The event handling processor *)
(* ===================================================================== *)

Section ProcessorHandling.
Import Event EventTypeResolver EventHandlingProcessor.
Import ProgressTracker.

Context {T W : Type}.
Abbreviation Config := (EventHandlingProcessorConfig T W).
Abbreviation PState := (State T W).

Lemma attemptsIn_app (a b : list Effect) :
  attemptsIn (a ++ b) = attemptsIn a + attemptsIn b.
Proof. unfold attemptsIn. now rewrite List.filter_app, length_app. Qed.

Lemma handlerCallsIn_app (a b : list Effect) :
  handlerCallsIn (a ++ b) = handlerCallsIn a + handlerCallsIn b.
Proof. unfold handlerCallsIn. now rewrite List.filter_app, length_app. Qed.

Lemma delaysIn_app (a b : list Effect) :
  delaysIn (a ++ b) = delaysIn a ++ delaysIn b.
Proof. unfold delaysIn. apply omap_app. Qed.

Lemma handlingOnly_refl (st : PState) : handlingOnly st st.
Proof. repeat split. Qed.

Lemma handlingOnly_trans (a b c : PState) :
  handlingOnly a b -> handlingOnly b c -> handlingOnly a c.
Proof.
  unfold handlingOnly. intros (? & ? & ? & ?) (? & ? & ? & ?).
  repeat split; congruence.
Qed.

Lemma handlingOnly_warned (st : PState) i :
  handlingOnly st (emit st (Warned i)).
Proof.
  unfold handlingOnly, emit. simpl.
  rewrite attemptsIn_app, delaysIn_app. simpl.
  rewrite Nat.add_0_r, app_nil_r. repeat split.
Qed.

Lemma handlingOnly_called (st : PState) c i w :
  handlingOnly st (withReadModel (emit st (HandlerCalled c i)) w).
Proof.
  unfold handlingOnly, emit, withReadModel. simpl.
  rewrite attemptsIn_app, delaysIn_app. simpl.
  rewrite Nat.add_0_r, app_nil_r. repeat split.
Qed.

Lemma callHandlers_handlingOnly handlers eventData upcastedEvent (st : PState) :
  handlingOnly st (fst (callHandlers handlers eventData upcastedEvent st)).
Proof.
  revert st. induction handlers as [| h hs IH]; intros st; simpl.
  - apply handlingOnly_refl.
  - destruct (callHandler _ _ _ _) as [w [u | e]]; simpl.
    + eapply handlingOnly_trans; [apply handlingOnly_called | apply IH].
    + apply handlingOnly_called.
Qed.

Lemma handleUpcasted_handlingOnly (cfg : Config) (st : PState) upcastedEvent :
  handlingOnly st (handleUpcasted cfg st upcastedEvent).
Proof.
  unfold handleUpcasted.
  assert (Htry : handlingOnly st (fst (tryHandle cfg upcastedEvent st))).
  { unfold tryHandle.
    destruct (getClass _ _) as [cls | e]; [| apply handlingOnly_refl].
    destruct (deserialize _ _ _) as [ed | e]; [| apply handlingOnly_refl].
    destruct (negb _); [apply handlingOnly_refl |].
    apply callHandlers_handlingOnly. }
  destruct (tryHandle cfg upcastedEvent st) as [st' [u | e]]; simpl in Htry.
  - exact Htry.
  - eapply handlingOnly_trans; [exact Htry | apply handlingOnly_warned].
Qed.

Lemma fold_handleUpcasted_handlingOnly (cfg : Config) upcasted (st : PState) :
  handlingOnly st (fold_left (handleUpcasted cfg) upcasted st).
Proof.
  revert st. induction upcasted as [| ue rest IH]; intros st; simpl.
  - apply handlingOnly_refl.
  - eapply handlingOnly_trans; [apply handleUpcasted_handlingOnly | apply IH].
Qed.

(** *** The retry loop when the attempt itself fails *)

(** An attempt whose progress commit is rejected throws, after it has been
    counted; it sleeps nothing. *)
Lemma processEvent_rejected (cfg : Config) rawEvent (st : PState) :
  (forall progress t, exists e,
      proceed (progressTracker cfg) (group cfg) (partition cfg) progress t
      = Js.Throw e) ->
  exists st' e,
    processEvent cfg rawEvent st = (st', Js.Throw e) /\
    attemptsIn (trace st') = attemptsIn (trace st) + 1 /\
    delaysIn (trace st') = delaysIn (trace st).
Proof.
  intros Hrej. unfold processEvent, commit.
  set (st0 := emit st (ProcessEventCalled (id rawEvent))).
  set (st1 := fold_left (handleUpcasted cfg) (upcastRaw cfg rawEvent) st0).
  destruct (fold_handleUpcasted_handlingOnly cfg (upcastRaw cfg rawEvent) st0)
    as (_ & _ & Ha & Hd). fold st1 in Ha, Hd.
  destruct (Hrej {| eventId := Some (id rawEvent) |} (tracker st1))
    as [e He].
  rewrite He. exists st1, e. split; [reflexivity |].
  rewrite Ha, Hd. unfold st0, emit. simpl.
  rewrite attemptsIn_app, delaysIn_app. simpl. rewrite app_nil_r.
  split; reflexivity.
Qed.

Lemma retryLoop_rejected (cfg : Config) rawEvent :
  (forall progress t, exists e,
      proceed (progressTracker cfg) (group cfg) (partition cfg) progress t
      = Js.Throw e) ->
  forall remaining attempts (st : PState),
    (0 <= attempts)%Z ->
    (attempts + Z.of_nat remaining = maxRetriesOf cfg)%Z ->
    exists st',
      retryLoop cfg remaining attempts rawEvent st
      = (st', false, maxRetriesOf cfg) /\
      attemptsIn (trace st') = attemptsIn (trace st) + remaining /\
      delaysIn (trace st')
      = delaysIn (trace st)
        ++ map (backoff cfg) (seq (Z.to_nat attempts) (remaining - 1)).
Proof.
  intros Hrej. induction remaining as [| m IH]; intros attempts st Hpos Hsum.
  - exists st. simpl. rewrite Nat.add_0_r, app_nil_r.
    replace attempts with (maxRetriesOf cfg) by lia. auto.
  - destruct (processEvent_rejected cfg rawEvent st Hrej)
      as (st1 & e & Hp & Ha & Hd).
    simpl. rewrite Hp.
    destruct m as [| m'].
    + assert (Hlast : ((attempts + 1 <? maxRetriesOf cfg)%Z = false))
        by (apply Z.ltb_ge; lia).
      rewrite Hlast. simpl. exists st1.
      replace (attempts + 1)%Z with (maxRetriesOf cfg) by lia.
      rewrite Ha, Hd, app_nil_r. auto.
    + assert (Hmore : ((attempts + 1 <? maxRetriesOf cfg)%Z = true))
        by (apply Z.ltb_lt; lia).
      rewrite Hmore.
      destruct (IH (attempts + 1)%Z
                  (emit st1 (Slept (retryDelayOf cfg
                                    * 2 ^ (attempts + 1 - 1))%Z)))
        as (st' & Hloop & Ha' & Hd'); [lia | lia |].
      exists st'. split; [exact Hloop |].
      rewrite Ha', Hd'. unfold emit. simpl.
      rewrite attemptsIn_app, delaysIn_app, Ha, Hd. simpl.
      change (attemptsIn [Slept (retryDelayOf cfg * 2 ^ (attempts + 1 - 1))%Z])
        with 0.
      split; [lia |].
      rewrite <- app_assoc. simpl. rewrite Nat.sub_0_r.
      replace (Z.to_nat (attempts + 1)) with (S (Z.to_nat attempts)) by lia.
      unfold backoff at 2.
      replace (attempts + 1 - 1)%Z with (Z.of_nat (Z.to_nat attempts)) by lia.
      reflexivity.
Qed.

(** When every attempt fails, a raw event is attempted maxRetries times,
    with the delays retryDelay, 2 retryDelay, 4 retryDelay, ... between the
    attempts. *)
Lemma retry_backoff_when_attempts_fail (cfg : Config) rawEvent (st : PState) :
  (forall progress t, exists e,
      proceed (progressTracker cfg) (group cfg) (partition cfg) progress t
      = Js.Throw e) ->
  exists st',
    retryLoop cfg (Z.to_nat (maxRetriesOf cfg)) 0%Z rawEvent st
    = (st', false, Z.max 0 (maxRetriesOf cfg)) /\
    attemptsIn (trace st')
    = attemptsIn (trace st) + Z.to_nat (maxRetriesOf cfg) /\
    delaysIn (trace st')
    = delaysIn (trace st)
      ++ map (backoff cfg) (seq 0 (Z.to_nat (maxRetriesOf cfg) - 1)).
Proof.
  intros Hrej.
  destruct (Z.to_nat (maxRetriesOf cfg)) as [| m] eqn:Hmax.
  - exists st. simpl. rewrite Nat.add_0_r, app_nil_r.
    replace (Z.max 0 (maxRetriesOf cfg)) with 0%Z by lia. auto.
  - destruct (retryLoop_rejected cfg rawEvent Hrej (S m) 0%Z st)
      as (st' & Hloop & Ha & Hd); [lia | lia |].
    exists st'. replace (Z.max 0 (maxRetriesOf cfg)) with (maxRetriesOf cfg)
      by lia. auto.
Qed.

End ProcessorHandling.

Section InMemoryProcessor.
Import Event EventTypeResolver EventHandlingProcessor.
Import ProgressTracker.

Context {W : Type}.
Abbreviation InMemoryConfig :=
  (EventHandlingProcessorConfig (gmap string Progress) W).
Abbreviation InMemoryState := (State (gmap string Progress) W).

(** With the in-memory tracker the commit cannot fail and stores the id. *)
Lemma commit_in_memory (cfg : InMemoryConfig) rawEvent (st : InMemoryState) :
  progressTracker cfg = InMemoryProgressTracker ->
  commit cfg rawEvent st
  = (withTracker st
       (<[key (group cfg) (partition cfg)
          := {| eventId := Some (id rawEvent) |}]> (tracker st)),
     Js.Ok tt).
Proof. intros Htr. unfold commit. rewrite Htr. reflexivity. Qed.

Lemma current_after_commit (cfg : InMemoryConfig) (t : gmap string Progress)
  progress :
  current InMemoryProgressTracker (group cfg) (partition cfg)
    (<[key (group cfg) (partition cfg) := progress]> t)
  = progress.
Proof. simpl. now rewrite lookup_insert_eq. Qed.

(** One attempt with the in-memory tracker: it returns normally whatever
    the handlers do, counts as one attempt, sleeps never, and commits. *)
Lemma processEvent_in_memory (cfg : InMemoryConfig) rawEvent (st : InMemoryState) :
  progressTracker cfg = InMemoryProgressTracker ->
  exists st',
    processEvent cfg rawEvent st = (st', Js.Ok tt) /\
    stopRequested st' = stopRequested st /\
    attemptsIn (trace st') = attemptsIn (trace st) + 1 /\
    delaysIn (trace st') = delaysIn (trace st) /\
    current InMemoryProgressTracker (group cfg) (partition cfg) (tracker st')
    = {| eventId := Some (id rawEvent) |}.
Proof.
  intros Htr. unfold processEvent.
  set (st0 := emit st (ProcessEventCalled (id rawEvent))).
  set (st1 := fold_left (handleUpcasted cfg) (upcastRaw cfg rawEvent) st0).
  destruct (fold_handleUpcasted_handlingOnly cfg (upcastRaw cfg rawEvent) st0)
    as (Ht & Hs & Ha & Hd). fold st1 in Ht, Hs, Ha, Hd.
  rewrite (commit_in_memory cfg rawEvent st1 Htr).
  eexists. split; [reflexivity |]. simpl.
  rewrite Hs, Ha, Hd. unfold st0, emit. simpl.
  rewrite attemptsIn_app, delaysIn_app. simpl. rewrite app_nil_r.
  repeat split. now rewrite lookup_insert_eq.
Qed.

(** C7: a raw event whose partition, resolved from the raw event alone, is
    not the processor's: no event handler is invoked (nothing is attempted,
    logged or slept, the read models are untouched), the progress of the
    processor's (group, partition) is set to the event's id, and only then
    is the next event of the stream considered. *)
Theorem foreign_partition_only_advances_progress (cfg : InMemoryConfig) rawEvent
  following (st : InMemoryState) :
  progressTracker cfg = InMemoryProgressTracker ->
  stopRequested st = false ->
  partitionKeyResolver cfg (resolveSequenceId cfg rawEvent None rawEvent)
  <> partition cfg ->
  exists st',
    onObserved cfg rawEvent st = (st', Js.Ok tt) /\
    trace st' = trace st /\
    handlerCallsIn (trace st') = handlerCallsIn (trace st) /\
    readModel st' = readModel st /\
    current InMemoryProgressTracker (group cfg) (partition cfg) (tracker st')
    = {| eventId := Some (id rawEvent) |} /\
    observeLoop cfg (rawEvent :: following) st
    = observeLoop cfg following st'.
Proof.
  intros Htr Hrun Hforeign.
  assert (Hobs : onObserved cfg rawEvent st
                 = (withTracker st
                      (<[key (group cfg) (partition cfg)
                         := {| eventId := Some (id rawEvent) |}]> (tracker st)),
                    Js.Ok tt)).
  { unfold onObserved.
    apply Z.eqb_neq in Hforeign. rewrite Hforeign. simpl.
    now apply commit_in_memory. }
  eexists. split; [exact Hobs |].
  repeat split.
  - simpl. now rewrite lookup_insert_eq.
  - simpl. now rewrite Hrun, Hobs.
Qed.

Lemma retryLoop_in_memory (cfg : InMemoryConfig) rawEvent (st : InMemoryState) remaining :
  progressTracker cfg = InMemoryProgressTracker ->
  exists st',
    retryLoop cfg (S remaining) 0%Z rawEvent st = (st', true, 0%Z) /\
    processEvent cfg rawEvent st = (st', Js.Ok tt).
Proof.
  intros Htr.
  destruct (processEvent_in_memory cfg rawEvent st Htr) as (st' & Hp & _).
  exists st'. simpl. now rewrite Hp.
Qed.

(** C2, as the code has it: for a raw event of the processor's partition,
    whatever its handlers do and so also when they throw on every
    invocation, the throw is caught inside the attempt: the per-raw-event
    handling is attempted exactly once when maxRetries is at least 1 (never
    when it is 0 or less), no backoff delay is slept, progress is advanced
    to the event's id, and the events that follow are processed. *)
Theorem poisoned_event_attempted_once (cfg : InMemoryConfig) rawEvent following
  (st : InMemoryState) :
  progressTracker cfg = InMemoryProgressTracker ->
  stopRequested st = false ->
  partitionKeyResolver cfg (resolveSequenceId cfg rawEvent None rawEvent)
  = partition cfg ->
  exists st',
    onObserved cfg rawEvent st = (st', Js.Ok tt) /\
    attemptsIn (trace st')
    = attemptsIn (trace st) + (if (0 <? maxRetriesOf cfg)%Z then 1 else 0) /\
    delaysIn (trace st') = delaysIn (trace st) /\
    current InMemoryProgressTracker (group cfg) (partition cfg) (tracker st')
    = {| eventId := Some (id rawEvent) |} /\
    observeLoop cfg (rawEvent :: following) st
    = observeLoop cfg following st'.
Proof.
  intros Htr Hrun Hown.
  assert (Hobs : onObserved cfg rawEvent st
                 = processEventWithRetry cfg rawEvent st).
  { unfold onObserved. rewrite Hown, Z.eqb_refl. reflexivity. }
  assert (Hgoal : exists st',
    processEventWithRetry cfg rawEvent st = (st', Js.Ok tt) /\
    attemptsIn (trace st')
    = attemptsIn (trace st) + (if (0 <? maxRetriesOf cfg)%Z then 1 else 0) /\
    delaysIn (trace st') = delaysIn (trace st) /\
    current InMemoryProgressTracker (group cfg) (partition cfg) (tracker st')
    = {| eventId := Some (id rawEvent) |}).
  { unfold processEventWithRetry.
    destruct (Z.to_nat (maxRetriesOf cfg)) as [| remaining] eqn:Hmax.
    - assert (Hz : (0 <? maxRetriesOf cfg)%Z = false)
        by (apply Z.ltb_ge; lia).
      rewrite Hz. simpl. rewrite commit_in_memory by exact Htr.
      eexists. split; [reflexivity |]. simpl.
      rewrite attemptsIn_app, delaysIn_app. simpl.
      rewrite app_nil_r.
      split; [reflexivity | split; [reflexivity | now rewrite lookup_insert_eq]].
    - assert (Hz : (0 <? maxRetriesOf cfg)%Z = true)
        by (apply Z.ltb_lt; lia).
      rewrite Hz.
      destruct (processEvent_in_memory cfg rawEvent st Htr)
        as (st' & Hp & _ & Ha & Hd & Hc).
      exists st'. simpl. rewrite Hp. auto. }
  destruct Hgoal as (st' & Hp & Ha & Hd & Hc).
  exists st'. rewrite Hobs. repeat split; try assumption.
  simpl. now rewrite Hrun, Hobs, Hp.
Qed.

End InMemoryProcessor.

Section ProcessorCases.
Import Event EventTypeResolver EventHandlingProcessor.
Import ProgressTracker.

Lemma foreign_partition_only_advances_progress_witness :
  exists st',
    onObserved Samples.otherPartitionProcessor Samples.poisonEvent Samples.idle
    = (st', Js.Ok tt) /\
    trace st' = [] /\
    current InMemoryProgressTracker "task-list" 5 (tracker st')
    = {| eventId := Some "7"%string |}.
Proof.
  destruct (foreign_partition_only_advances_progress
              Samples.otherPartitionProcessor Samples.poisonEvent
              [Samples.nextEvent] Samples.idle)
    as (st' & Hobs & Htrace & _ & _ & Hcur & _).
  - reflexivity.
  - reflexivity.
  - vm_compute. discriminate.
  - exists st'. split; [exact Hobs | split; [exact Htrace | exact Hcur]].
Defined.

Lemma poisoned_event_attempted_once_witness :
  exists st',
    onObserved Samples.poisonedProcessor Samples.poisonEvent Samples.idle
    = (st', Js.Ok tt) /\
    attemptsIn (trace st') = 1 /\
    delaysIn (trace st') = [] /\
    current InMemoryProgressTracker "task-list" 4 (tracker st')
    = {| eventId := Some "7"%string |} /\
    observeLoop Samples.poisonedProcessor
      [Samples.poisonEvent; Samples.nextEvent] Samples.idle
    = observeLoop Samples.poisonedProcessor [Samples.nextEvent] st'.
Proof.
  destruct (poisoned_event_attempted_once Samples.poisonedProcessor
              Samples.poisonEvent [Samples.nextEvent] Samples.idle)
    as (st' & Hobs & Ha & Hd & Hcur & Hnext).
  - reflexivity.
  - reflexivity.
  - vm_compute. reflexivity.
  - exists st'. repeat split; assumption.
Defined.

(** The default settings allow 3 attempts with delays of 1000 and 2000 ms;
    the handler of the sample processor throws on every invocation, and the
    poison event is attempted once, its handler called once, with no delay;
    progress then stands at the event and the next event is handled. *)
Lemma poisoned_event_not_retried :
  let st' :=
    fst (onObserved Samples.poisonedProcessor Samples.poisonEvent
           Samples.idle) in
  partitionKeyResolver Samples.poisonedProcessor
    (resolveSequenceId Samples.poisonedProcessor Samples.poisonEvent None
       Samples.poisonEvent)
  = partition Samples.poisonedProcessor /\
  maxRetriesOf Samples.poisonedProcessor = 3%Z /\
  map (backoff Samples.poisonedProcessor) (seq 0 2) = [1000%Z; 2000%Z] /\
  trace st'
  = [ProcessEventCalled "7"; HandlerCalled "TaskCreated" "7"; Warned "7"] /\
  attemptsIn (trace st') = 1 /\
  attemptsIn (trace st') <> 3 /\
  delaysIn (trace st') = [] /\
  delaysIn (trace st') <> [1000%Z; 2000%Z] /\
  tracker st' !! key "task-list" 4 = Some {| eventId := Some "7"%string |}.
Proof. vm_compute. repeat split; discriminate. Qed.

(** The retry loop does run when the attempt itself fails: with a tracker
    that rejects every commit the sample event is attempted three times,
    1000 and 2000 ms apart. *)
Example unreachable_tracker_retried :
  let cfg :=
    {| group := "task-list";
       eventTypeResolver := Samples.taskResolver;
       eventDataMarshaller := Samples.plainMarshaller;
       eventHandlers := [Samples.alwaysThrows];
       progressTracker := Samples.unreachableTracker;
       partitionKeyResolver := DefaultPartitionKeyResolver.resolve 10;
       eventSequenceResolver := ForRawEvent Event.subject;
       subject := "/task";
       recursive := None;
       partition := 4;
       upcasters := None;
       retryDelay := None;
       maxRetries := None |} in
  let st := {| tracker := tt; readModel := tt; stopRequested := false;
               trace := [] |} in
  let '(st', returned, attempts) :=
    retryLoop cfg 3 0%Z Samples.poisonEvent st in
  returned = false /\ attempts = 3%Z /\
  attemptsIn (trace st') = 3 /\ delaysIn (trace st') = [1000%Z; 2000%Z].
Proof. vm_compute. repeat split. Qed.

End ProcessorCases.

(* ===================================================================== *)
(** ** Overlapping rebuilds for one cache key *)
(* ===================================================================== *)

Section Overlap.
Import Event Command StateRebuildingCache EventTypeResolver CommandRouter.
Import ConcurrentRebuild.

Context (cfg : CommandRouterConfig) (eventStore : InMemoryAdapter.t)
        (key : CacheKey).

Abbreviation history :=
  (InMemoryAdapter.streamEvents eventStore (k_subject key) None
     (Some (recursiveOf key))).
Abbreviation stepOf := (step cfg eventStore key).
Abbreviation runOf := (runSchedule cfg eventStore key).





(** *** All calls start before any of them finishes *)

Lemma start_on_cold capacity started pending rs :
  stepOf {| cache := newInMemoryStateCache capacity;
            calls := started ++ NotStarted :: pending;
            reads := rs |} (length started)
  = {| cache := newInMemoryStateCache capacity;
       calls := (started ++ [Streaming history (mergerStart None)])
                ++ pending;
       reads := rs ++ [Opened None] |}.
Proof.
  unfold step. simpl.
  rewrite lookup_app_r by lia. rewrite Nat.sub_diag. simpl.
  rewrite insert_app_r_alt by lia. rewrite Nat.sub_diag. simpl.
  now rewrite <- app_assoc.
Qed.

Lemma starts_on_cold capacity pending :
  forall started rs,
    runOf (seq (length started) pending)
      {| cache := newInMemoryStateCache capacity;
         calls := started ++ replicate pending NotStarted;
         reads := rs |}
    = {| cache := newInMemoryStateCache capacity;
         calls := started
                  ++ replicate pending
                       (Streaming history (mergerStart None));
         reads := rs ++ replicate pending (Opened None) |}.
Proof.
  induction pending as [| m IH]; intros started rs; simpl.
  - now rewrite !app_nil_r.
  - unfold runSchedule in *. simpl.
    rewrite start_on_cold.
    replace (S (length started))
      with (length (started ++ [Streaming history (mergerStart None)]))
      by (rewrite length_app; simpl; lia).
    rewrite IH. now rewrite <- !app_assoc.
Qed.

Lemma all_started capacity n :
  runOf (seq 0 n) (initial (newInMemoryStateCache capacity) n)
  = {| cache := newInMemoryStateCache capacity;
       calls := replicate n (Streaming history (mergerStart None));
       reads := replicate n (Opened None) |}.
Proof. apply (starts_on_cold capacity n [] []). Qed.

Lemma remainingIn_replicate n (c : Call) :
  remainingIn (replicate n c) = n * remainingOf c.
Proof. unfold remainingIn. induction n; simpl; lia. Qed.

Lemma finishedIn_replicate_streaming n remaining current :
  finishedIn (replicate n (Streaming remaining current)) = 0.
Proof. unfold finishedIn. induction n; simpl; lia. Qed.

Lemma openedIn_replicate n :
  openedIn (replicate n (Opened None)) = replicate n None.
Proof.
  unfold openedIn. induction n as [| n IH]; [reflexivity |].
  cbn. now rewrite IH.
Qed.

Lemma yieldedIn_replicate_opened n o : yieldedIn (replicate n (Opened o)) = 0.
Proof. unfold yieldedIn. induction n; simpl; lia. Qed.

Lemma completedIn_replicate_opened n o :
  completedIn (replicate n (Opened o)) = 0.
Proof. unfold completedIn. induction n; simpl; lia. Qed.

Lemma overlapping_started capacity n :
  overlapping n history
    (runOf (seq 0 n) (initial (newInMemoryStateCache capacity) n)).
Proof.
  rewrite all_started. unfold overlapping. simpl.
  rewrite length_replicate, openedIn_replicate, yieldedIn_replicate_opened,
    completedIn_replicate_opened, remainingIn_replicate,
    finishedIn_replicate_streaming.
  repeat split. apply Forall_replicate. discriminate.
Qed.

(** *** Every later step keeps the count *)



(** *** Before any call has stored its merge *)









End Overlap.

Section OneAfterAnother.
Import Event Command StateRebuildingCache EventTypeResolver CommandRouter.
Import ConcurrentRebuild.

Context (cfg : CommandRouterConfig) (eventStore : InMemoryAdapter.t)
        (key : CacheKey).






End OneAfterAnother.

Section NoExclusion.
Import Event Command StateRebuildingCache EventTypeResolver CommandRouter.
Import ConcurrentRebuild.



(** The same two sends on a cache that keeps nothing (capacity 0), the
    second one started while the first is about to store its merge. *)
Example overlapping_rebuilds_without_capacity :
  let final :=
    runSchedule Samples.taskRouter
      (Samples.storeOf [Samples.createdEvent; Samples.renamedEvent])
      Samples.taskKey [0; 0; 0; 1; 0; 1; 1; 1]
      (initial (newInMemoryStateCache 0) 2) in
  allFinished final = true /\
  openedIn (reads final) = [None; None] /\
  yieldedIn (reads final) = 4 /\
  completedIn (reads final) = 2.
Proof. vm_compute. repeat split. Qed.


End NoExclusion.

(* ===================================================================== *)
(** ** Further properties: upcaster chains *)
(* ===================================================================== *)

Section UpcasterComposition.
Import Event EventUpcasters.

Lemma passes_app (us : list EventUpcaster) (l1 l2 : list RawEvent) :
  fold_left (fun events u => pass u events) us (l1 ++ l2)
  = fold_left (fun events u => pass u events) us l1
    ++ fold_left (fun events u => pass u events) us l2.
Proof.
  revert l1 l2. induction us as [| u us IH]; intros l1 l2; simpl.
  - reflexivity.
  - now rewrite pass_app, IH.
Qed.

Lemma passes_flat_map (us : list EventUpcaster) (l : list RawEvent) :
  fold_left (fun events u => pass u events) us l = flat_map (upcastAll us) l.
Proof.
  induction l as [| e l IH]; simpl.
  - induction us as [| u us IHus]; simpl; [reflexivity | exact IHus].
  - change (e :: l) with ([e] ++ l). rewrite passes_app, IH. reflexivity.
Qed.

(** X1: a chain made of two chains is their composition: every output of the
    first chain is sent through the second, in order. *)
Theorem upcast_chain_composes (first second : list EventUpcaster)
  (event : RawEvent) :
  upcastAll (first ++ second) event
  = flat_map (upcastAll second) (upcastAll first event).
Proof.
  unfold upcastAll at 1. rewrite fold_left_app. apply passes_flat_map.
Qed.

(** X2: a chain whose upcasters return exactly one result for every event
    they claim maps an event to exactly one event. *)
Theorem upcast_transform_only_keeps_one (upcasters : list EventUpcaster)
  (event : RawEvent) :
  (forall u evt, In u upcasters -> canUpcast u evt = true ->
                 length (upcast u evt) = 1) ->
  length (upcastAll upcasters event) = 1.
Proof.
  induction upcasters as [| u us IH] using rev_ind; intros Hone.
  - reflexivity.
  - rewrite upcastAll_snoc.
    assert (Hprev : length (upcastAll us event) = 1).
    { apply IH. intros u' evt Hin. apply Hone. apply in_or_app. now left. }
    destruct (upcastAll us event) as [| mid [| ? ?]]; try discriminate.
    unfold pass. simpl. rewrite app_nil_r. unfold upcastOne.
    destruct (canUpcast u mid) eqn:Hcan; [| reflexivity].
    rewrite length_map. apply Hone; [| exact Hcan].
    apply in_or_app. right. now left.
Qed.

Lemma upcast_transform_only_keeps_one_witness :
  length (upcastAll Samples.staged Samples.v1Event) = 1.
Proof.
  apply (upcast_transform_only_keeps_one Samples.staged Samples.v1Event).
  intros u evt [<- | [<- | []]] _; reflexivity.
Defined.

End UpcasterComposition.

(* ===================================================================== *)
(** ** Further properties: the partition hash *)
(* ===================================================================== *)

Section HashPolynomial.
Import DefaultPartitionKeyResolver.
Local Open Scope Z_scope.

Lemma toInt32_mod (x : Z) : Js.toInt32 x mod 2 ^ 32 = x mod 2 ^ 32.
Proof.
  unfold Js.toInt32.
  rewrite Zminus_mod, Z.mod_mod by lia.
  rewrite <- Zminus_mod. f_equal. lia.
Qed.

Lemma lin_mod (a a' b b' k : Z) :
  a mod 2 ^ 32 = a' mod 2 ^ 32 -> b mod 2 ^ 32 = b' mod 2 ^ 32 ->
  (a * k + b) mod 2 ^ 32 = (a' * k + b') mod 2 ^ 32.
Proof.
  intros Ha Hb.
  rewrite (Zplus_mod (a * k)), (Zplus_mod (a' * k)).
  rewrite (Zmult_mod a), (Zmult_mod a'), Ha, Hb. reflexivity.
Qed.

Lemma toInt32_congr (x y : Z) :
  x mod 2 ^ 32 = y mod 2 ^ 32 -> Js.toInt32 x = Js.toInt32 y.
Proof.
  intros H. unfold Js.toInt32.
  rewrite (Zplus_mod x), (Zplus_mod y), H. reflexivity.
Qed.

Lemma toInt32_idempotent (x : Z) : Js.toInt32 (Js.toInt32 x) = Js.toInt32 x.
Proof. apply toInt32_congr, toInt32_mod. Qed.

Lemma step_as_31 (hash char : Z) :
  step hash char = Js.toInt32 (31 * hash + char).
Proof.
  unfold step, Js.band. rewrite Z.land_diag, toInt32_idempotent.
  apply toInt32_congr. unfold Js.shl.
  change (5 mod 32) with 5. rewrite Z.shiftl_mul_pow2 by lia.
  rewrite Zplus_mod, Zminus_mod, toInt32_mod.
  rewrite (Zmult_mod (Js.toInt32 hash)), toInt32_mod, <- Zmult_mod.
  rewrite <- Zminus_mod, <- Zplus_mod. f_equal. lia.
Qed.

Lemma step_congr (h h' char : Z) :
  h mod 2 ^ 32 = h' mod 2 ^ 32 -> step h char = step h' char.
Proof.
  intros H. rewrite !step_as_31. apply toInt32_congr.
  rewrite (Zplus_mod (31 * h)), (Zplus_mod (31 * h')).
  rewrite (Zmult_mod 31 h), (Zmult_mod 31 h'), H. reflexivity.
Qed.

(** X3: the hash of the resolver is the base-31 polynomial of the string's
    code units wrapped to 32 bits (the hash code of a Java string), and the
    hash of a concatenation is obtained from the hashes of the parts. *)
Theorem hash_is_polynomial_31 (chars more : list Z) :
  hashOf chars = Js.toInt32 (HashCode.polynomial chars) /\
  hashOf (chars ++ more)
  = Js.toInt32 (hashOf chars * 31 ^ Z.of_nat (length more) + hashOf more).
Proof.
  assert (Hsnoc : forall l c,
             HashCode.polynomial (l ++ [c]) = 31 * HashCode.polynomial l + c).
  { intros l c. unfold HashCode.polynomial. now rewrite fold_left_app. }
  assert (Hpoly : forall l, hashOf l = Js.toInt32 (HashCode.polynomial l)).
  { induction l as [| c l IH] using rev_ind; [reflexivity |].
    rewrite Hsnoc. unfold hashOf in *. rewrite fold_left_app. simpl.
    rewrite IH, step_as_31. apply toInt32_congr.
    rewrite Zplus_mod, Zmult_mod, toInt32_mod, <- Zmult_mod, <- Zplus_mod.
    reflexivity. }
  assert (Happ : forall l m,
             HashCode.polynomial (l ++ m)
             = HashCode.polynomial l * 31 ^ Z.of_nat (length m)
               + HashCode.polynomial m).
  { intros l m. induction m as [| c m IH] using rev_ind.
    - rewrite app_nil_r. simpl. unfold HashCode.polynomial at 3. simpl. lia.
    - rewrite app_assoc, !Hsnoc, IH, length_app. simpl length.
      rewrite Nat2Z.inj_add, Z.pow_add_r by lia. simpl Z.of_nat. lia. }
  split; [apply Hpoly |].
  rewrite !Hpoly, Happ. apply toInt32_congr. symmetry.
  apply lin_mod; apply toInt32_mod.
Qed.

End HashPolynomial.

(* ===================================================================== *)
(** ** Further properties: JavaScript maps in insertion order *)
(* ===================================================================== *)

Section JsMapFacts.
Context {V : Type}.
Implicit Types (m : Js.JsMap V) (k : string) (v : V).

Lemma get_set_eq k v m : Js.get k (Js.set k v m) = Some v.
Proof.
  induction m as [| [k' v'] m IH]; simpl.
  - now rewrite String.eqb_refl.
  - destruct (String.eqb k' k) eqn:E; simpl; rewrite E; [reflexivity | exact IH].
Qed.

Lemma get_set_ne k k' v m : k <> k' -> Js.get k' (Js.set k v m) = Js.get k' m.
Proof.
  intros Hne. induction m as [| [k0 v0] m IH]; simpl.
  - apply String.eqb_neq in Hne. now rewrite Hne.
  - destruct (String.eqb k0 k) eqn:E; simpl.
    + apply String.eqb_eq in E. subst k0.
      apply String.eqb_neq in Hne. now rewrite Hne.
    + destruct (String.eqb k0 k'); [reflexivity | exact IH].
Qed.

Lemma get_none_iff k m : Js.get k m = None <-> ~ In k (map fst m).
Proof.
  induction m as [| [k' v'] m IH]; simpl.
  - tauto.
  - destruct (String.eqb_spec k' k) as [-> | Hne].
    + split; [discriminate | intros H; exfalso; apply H; now left].
    + rewrite IH. tauto.
Qed.

Lemma set_absent k v m : Js.get k m = None -> Js.set k v m = m ++ [(k, v)].
Proof.
  induction m as [| [k' v'] m IH]; simpl; [reflexivity |].
  destruct (String.eqb k' k); [discriminate |].
  intros H. now rewrite IH.
Qed.

Lemma get_app_absent k m m' :
  Js.get k m = None -> Js.get k (m ++ m') = Js.get k m'.
Proof.
  induction m as [| [k' v'] m IH]; simpl; [reflexivity |].
  destruct (String.eqb k' k); [discriminate | exact IH].
Qed.

Lemma get_app_present k v m m' :
  Js.get k m = Some v -> Js.get k (m ++ m') = Some v.
Proof.
  induction m as [| [k' v'] m IH]; simpl; [discriminate |].
  destruct (String.eqb k' k); [trivial | exact IH].
Qed.

Lemma keys_delete_subset k m x :
  In x (map fst (Js.delete k m)) -> In x (map fst m).
Proof.
  induction m as [| [k' v'] m IH]; simpl; [trivial |].
  destruct (String.eqb k' k); simpl; [now right |].
  intros [H | H]; [now left | right; now apply IH].
Qed.

Lemma NoDup_delete k m :
  List.NoDup (map fst m) -> List.NoDup (map fst (Js.delete k m)).
Proof.
  induction m as [| [k' v'] m IH]; simpl; intros Hnd; [constructor |].
  apply List.NoDup_cons_iff in Hnd as [Hk Hm].
  destruct (String.eqb k' k); simpl; [exact Hm |].
  apply List.NoDup_cons_iff. split; [| now apply IH].
  intros Hin. apply Hk. eapply keys_delete_subset, Hin.
Qed.

Lemma get_delete_eq k m :
  List.NoDup (map fst m) -> Js.get k (Js.delete k m) = None.
Proof.
  induction m as [| [k' v'] m IH]; simpl; intros Hnd; [reflexivity |].
  apply List.NoDup_cons_iff in Hnd as [Hk Hm].
  destruct (String.eqb_spec k' k) as [-> | Hne]; simpl.
  - now apply get_none_iff.
  - apply String.eqb_neq in Hne. rewrite Hne. now apply IH.
Qed.

Lemma get_delete_ne k k' m :
  k <> k' -> Js.get k' (Js.delete k m) = Js.get k' m.
Proof.
  intros Hne. induction m as [| [k0 v0] m IH]; simpl; [reflexivity |].
  destruct (String.eqb_spec k0 k) as [-> | Hk]; simpl.
  - apply String.eqb_neq in Hne. now rewrite Hne.
  - destruct (String.eqb k0 k'); [reflexivity | exact IH].
Qed.

Lemma length_delete_present k v m :
  Js.get k m = Some v -> S (length (Js.delete k m)) = length m.
Proof.
  induction m as [| [k' v'] m IH]; simpl; [discriminate |].
  destruct (String.eqb k' k); simpl; [reflexivity |].
  intros H. now rewrite IH.
Qed.

Lemma NoDup_snoc_key k v m :
  List.NoDup (map fst m) -> Js.get k m = None ->
  List.NoDup (map fst (m ++ [(k, v)])).
Proof.
  induction m as [| [k' v'] m IH]; simpl; intros Hnd Hget.
  - repeat constructor. intros [].
  - apply List.NoDup_cons_iff in Hnd as [Hk Hm].
    destruct (String.eqb_spec k' k) as [-> | Hne]; [discriminate |].
    apply List.NoDup_cons_iff. split; [| now apply IH].
    rewrite map_app, in_app_iff. simpl. intros [H | [H | []]]; auto.
Qed.

(** The last [set] for a key wins, whatever was set before. *)
Lemma get_fold_set {R} (kf : R -> string) (vf : R -> V) (l : list R) m k :
  Js.get k (fold_left (fun m r => Js.set (kf r) (vf r) m) l m)
  = match find (fun r => String.eqb (kf r) k) (rev l) with
    | Some r => Some (vf r)
    | None => Js.get k m
    end.
Proof.
  induction l as [| r l IH] using rev_ind; simpl; [reflexivity |].
  rewrite fold_left_app, rev_app_distr. simpl.
  destruct (String.eqb_spec (kf r) k) as [<- | Hne].
  - apply get_set_eq.
  - rewrite get_set_ne by exact Hne. exact IH.
Qed.

End JsMapFacts.

Lemma find_unique_key {R} (kf : R -> string) (l : list R) (r : R) :
  List.NoDup (map kf l) -> In r l ->
  find (fun x => String.eqb (kf x) (kf r)) (rev l) = Some r.
Proof.
  intros Hnd Hin.
  destruct (find (fun x => String.eqb (kf x) (kf r)) (rev l)) as [x |] eqn:Hf.
  - apply find_some in Hf as [Hx Heq]. apply String.eqb_eq in Heq.
    apply in_rev in Hx. f_equal.
    clear -Hnd Hin Hx Heq. induction l as [| a l IH]; [contradiction |].
    simpl in Hnd. apply List.NoDup_cons_iff in Hnd as [Ha Hl].
    destruct Hin as [-> | Hin], Hx as [-> | Hx]; auto.
    + exfalso. apply Ha. rewrite <- Heq. now apply in_map.
    + exfalso. apply Ha. rewrite Heq. now apply in_map.
  - assert (Hr : In r (rev l)) by now apply in_rev in Hin.
    pose proof (find_none _ _ Hf r Hr) as Hno. simpl in Hno.
    now rewrite String.eqb_refl in Hno.
Qed.

(* ===================================================================== *)
(** ** Further properties: the in-memory state cache *)
(* ===================================================================== *)

Section CacheFacts.
Import Event StateRebuildingCache CacheInvariant.

Lemma keys_set_present {V} k (v w : V) (m : Js.JsMap V) :
  Js.get k m = Some w -> map fst (Js.set k v m) = map fst m.
Proof.
  induction m as [| [k' v'] m IH]; simpl; [discriminate |].
  destruct (String.eqb k' k); simpl; [reflexivity |].
  intros H. now rewrite IH.
Qed.

Lemma NoDup_set {V} k (v : V) (m : Js.JsMap V) :
  List.NoDup (map fst m) -> List.NoDup (map fst (Js.set k v m)).
Proof.
  intros Hnd. destruct (Js.get k m) as [w |] eqn:Hget.
  - now rewrite (keys_set_present k v w m Hget).
  - rewrite set_absent by exact Hget. now apply NoDup_snoc_key.
Qed.

Lemma length_set_le {V} k (v : V) (m : Js.JsMap V) :
  length (Js.set k v m) <= S (length m) /\ 1 <= length (Js.set k v m).
Proof.
  induction m as [| [k' v'] m IH]; simpl; [lia |].
  destruct (String.eqb k' k); simpl; lia.
Qed.

Lemma length_delete_le {V} k (m : Js.JsMap V) :
  length (Js.delete k m) <= length m.
Proof.
  induction m as [| [k' v'] m IH]; simpl; [lia |].
  destruct (String.eqb k' k); simpl; lia.
Qed.

Lemma fetch_wellKept c key :
  wellKept c -> wellKept (snd (fetch c key)).
Proof.
  intros [Hnd Hsize]. unfold fetch.
  destruct (Js.get (buildKey key) (cache c)); simpl; [| now split].
  split; simpl.
  - now apply NoDup_delete.
  - unfold Js.size in *.
    pose proof (length_delete_le (buildKey key) (cache c)). lia.
Qed.

Lemma store_wellKept c key merged :
  wellKept c -> wellKept (store c key merged).
Proof.
  intros [Hnd Hsize]. unfold store.
  pose proof (NoDup_set (buildKey key) merged (cache c) Hnd) as Hnd1.
  pose proof (length_set_le (buildKey key) merged (cache c)) as [Hle Hpos].
  set (cache1 := Js.set (buildKey key) merged (cache c)) in *.
  unfold wellKept, Js.size in *. simpl.
  destruct (capacity c <? Z.of_nat (length cache1))%Z eqn:Hover.
  - apply Z.ltb_lt in Hover.
    destruct cache1 as [| [k0 v0] rest]; simpl in *; [lia |].
    rewrite String.eqb_refl. split.
    + now apply List.NoDup_cons_iff in Hnd1 as [_ Hrest].
    + lia.
  - apply Z.ltb_ge in Hover. split; [exact Hnd1 | lia].
Qed.

(** X4: the cache never holds two entries for one key and never more entries
    than its capacity (none at all when the capacity is zero or negative),
    whatever calls of fetchAndMerge were made on it since it was created. *)
Theorem cache_stays_within_capacity capacity
  (calls : list (CacheKey * (option CacheValue -> CacheValue))) :
  let c := mergeAll (newInMemoryStateCache capacity) calls in
  List.NoDup (map fst (cache c)) /\
  (Js.size (cache c) <= Z.max 0 capacity)%Z /\
  StateRebuildingCache.capacity c = capacity.
Proof.
  assert (Hinv : forall cs c0,
             wellKept c0 ->
             wellKept (mergeAll c0 cs) /\
             StateRebuildingCache.capacity (mergeAll c0 cs)
             = StateRebuildingCache.capacity c0).
  { induction cs as [| [key merge] cs IH]; intros c0 Hc0.
    - now split.
    - unfold mergeAll in *. cbn [fold_left fst snd].
      destruct (fetch c0 key) as [cached c1] eqn:Hfetch.
      assert (Hc1 : wellKept c1)
        by (pose proof (fetch_wellKept c0 key Hc0) as H;
            now rewrite Hfetch in H).
      assert (Hcap : StateRebuildingCache.capacity c1
                     = StateRebuildingCache.capacity c0).
      { unfold fetch in Hfetch.
        destruct (Js.get (buildKey key) (cache c0));
          injection Hfetch as _ <-; reflexivity. }
      destruct (IH (store c1 key (merge cached))
                  (store_wellKept c1 key (merge cached) Hc1)) as [Hw Hc].
      split; [exact Hw |]. rewrite Hc. simpl. exact Hcap. }
  intros c.
  destruct (Hinv calls (newInMemoryStateCache capacity)) as [[Hnd Hsize] Hcap].
  - split; simpl; [constructor | unfold Js.size; simpl; lia].
  - fold c in Hnd, Hsize, Hcap. rewrite Hcap in Hsize. auto.
Qed.

(** X5: on a cache that holds one entry per key and is within a capacity of
    at least 1, fetchAndMerge leaves the merged value under its key, as the
    most recently used entry; every other key keeps its value, except that
    the least recently used key is evicted when the key was absent and the
    cache was full. *)
Theorem fetchAndMerge_stores_and_evicts_oldest c key merge :
  wellKept c ->
  (1 <= capacity c)%Z ->
  let k := buildKey key in
  let merged := merge (Js.get k (cache c)) in
  exists c',
    fetchAndMerge (InMemory c) key merge = (merged, InMemory c') /\
    Js.get k (cache c') = Some merged /\
    (exists older, cache c' = older ++ [(k, merged)]) /\
    (forall k', k' <> k ->
       Js.get k' (cache c') = Js.get k' (cache c) \/
       (Js.get k' (cache c') = None /\
        Js.firstKey (cache c) = Some k' /\
        Js.get k (cache c) = None /\
        Js.size (cache c) = capacity c)).
Proof.
  intros [Hnd Hsize] Hcap k merged.
  unfold fetchAndMerge, fetch. fold k.
  destruct (Js.get k (cache c)) as [v |] eqn:Hget; fold merged.
  - (* present: moved to the end, nothing evicted *)
    eexists. split; [reflexivity |].
    assert (Habsent : Js.get k (Js.delete k (cache c)) = None)
      by now apply get_delete_eq.
    unfold store. simpl. fold k.
    rewrite (set_absent k merged _ Habsent).
    pose proof (length_delete_present k v (cache c) Hget) as Hlen.
    assert (Hfit : (capacity c
                    <? Js.size (Js.delete k (cache c) ++ [(k, merged)]))%Z
                   = false).
    { apply Z.ltb_ge. unfold Js.size in *. rewrite length_app. simpl. lia. }
    rewrite Hfit. simpl. split; [| split].
    + rewrite get_app_absent by exact Habsent. simpl.
      now rewrite String.eqb_refl.
    + now eexists.
    + intros k' Hne. left.
      destruct (Js.get k' (Js.delete k (cache c))) as [w |] eqn:Hk'.
      * rewrite (get_app_present k' w _ _ Hk').
        rewrite <- Hk'. apply get_delete_ne. congruence.
      * rewrite get_app_absent by exact Hk'. simpl.
        apply String.eqb_neq in Hne. rewrite String.eqb_sym, Hne.
        rewrite <- Hk'. apply get_delete_ne.
        apply String.eqb_neq in Hne. congruence.
  - (* absent: appended, the oldest entry evicted when full *)
    eexists. split; [reflexivity |].
    unfold store. simpl. fold k.
    rewrite (set_absent k merged _ Hget).
    destruct (capacity c <? Js.size (cache c ++ [(k, merged)]))%Z eqn:Hover.
    + apply Z.ltb_lt in Hover. unfold Js.size in *.
      rewrite length_app in Hover. simpl in Hover.
      destruct (cache c) as [| [k0 v0] rest] eqn:Hcache; simpl in *; [lia |].
      rewrite String.eqb_refl.
      destruct (String.eqb_spec k0 k) as [-> | Hk0]; [discriminate |].
      apply List.NoDup_cons_iff in Hnd as [Hk0rest Hrest].
      split; [| split].
      * rewrite get_app_absent by exact Hget. simpl.
        now rewrite String.eqb_refl.
      * now eexists.
      * intros k' Hne.
        destruct (String.eqb_spec k0 k') as [-> | Hne0].
        -- right. repeat split; [| lia].
           rewrite get_app_absent by now apply get_none_iff.
           simpl. apply String.eqb_neq in Hne.
           now rewrite String.eqb_sym, Hne.
        -- left.
           destruct (Js.get k' rest) as [w |] eqn:Hk'.
           ++ now rewrite (get_app_present k' w _ _ Hk').
           ++ rewrite get_app_absent by exact Hk'. simpl.
              apply String.eqb_neq in Hne. now rewrite String.eqb_sym, Hne.
    + simpl. split; [| split].
      * rewrite get_app_absent by exact Hget. simpl.
        now rewrite String.eqb_refl.
      * now eexists.
      * intros k' Hne. left.
        destruct (Js.get k' (cache c)) as [w |] eqn:Hk'.
        -- now rewrite (get_app_present k' w _ _ Hk').
        -- rewrite get_app_absent by exact Hk'. simpl.
           apply String.eqb_neq in Hne. now rewrite String.eqb_sym, Hne.
Qed.

End CacheFacts.

Section CacheEviction.
Import Event StateRebuildingCache CacheInvariant.

(** A full cache of capacity 1 holding another task: merging the sample
    task evicts it. *)
Lemma fetchAndMerge_stores_and_evicts_oldest_witness :
  let other := {| eventId := Some "event-9"%string; instance := None;
                  sourcedSubjectIds := ∅ |} in
  let c := {| cache := [("/task/t0:Task:LOCAL"%string, other)];
              capacity := 1 |} in
  exists c',
    fetchAndMerge (InMemory c) Samples.taskKey CommandRouter.mergerStart
    = (CommandRouter.mergerStart None, InMemory c') /\
    Js.get (buildKey Samples.taskKey) (cache c')
    = Some (CommandRouter.mergerStart None).
Proof.
  intros other c.
  destruct (fetchAndMerge_stores_and_evicts_oldest c Samples.taskKey
              CommandRouter.mergerStart) as (c' & Hrun & Hget & _).
  - split; [repeat constructor; simpl; tauto | vm_compute; discriminate].
  - simpl. lia.
  - exists c'. split; [exact Hrun | exact Hget].
Defined.

End CacheEviction.

(* ===================================================================== *)
(** ** Further properties: type resolution and handler registration *)
(* ===================================================================== *)

Section Registration.
Import Event Command StateRebuildingCache EventTypeResolver CommandRouter.

Lemma orNull_nonempty (s : string) : s <> ""%string -> Js.orNull (Some s) = Some s.
Proof. destruct s; [congruence | reflexivity]. Qed.

(** X6: when every event type and every class has been registered once, and
    no type is the empty string, ConfiguredEventTypeResolver maps each
    registered type to its class and each class back to its type; a type or
    a class that was not registered makes it throw. *)
Theorem configured_resolver_round_trip (registered : list (string * string)) :
  List.NoDup (map fst registered) ->
  List.NoDup (map snd registered) ->
  Forall (fun r => fst r <> ""%string) registered ->
  let resolver := ConfiguredEventTypeResolver registered in
  (forall eventType clazz,
     In (eventType, clazz) registered ->
     getClass resolver eventType = Js.Ok clazz /\
     getEventType resolver clazz = Js.Ok eventType) /\
  (forall eventType,
     ~ In eventType (map fst registered) ->
     getClass resolver eventType
     = Js.Throw ("No class registered for event type '" ++ eventType
                 ++ "'")%string) /\
  (forall clazz,
     ~ In clazz (map snd registered) ->
     getEventType resolver clazz
     = Js.Throw ("No event type registered for class " ++ clazz)%string).
Proof.
  intros Htypes Hclasses Hnonempty resolver. split; [| split].
  - intros eventType clazz Hin. unfold resolver. simpl.
    rewrite (get_fold_set fst snd registered [] eventType).
    rewrite (get_fold_set snd fst registered [] clazz).
    pose proof (find_unique_key fst registered (eventType, clazz) Htypes Hin)
      as Hbytype.
    pose proof (find_unique_key snd registered (eventType, clazz) Hclasses Hin)
      as Hbyclass.
    simpl in Hbytype, Hbyclass. rewrite Hbytype, Hbyclass.
    cbn [fst snd]. split; [reflexivity |].
    rewrite orNull_nonempty; [reflexivity |].
    apply (proj1 (List.Forall_forall _ _) Hnonempty _ Hin).
  - intros eventType Hnot. unfold resolver. simpl.
    rewrite (get_fold_set fst snd registered [] eventType).
    destruct (find _ (rev registered)) as [r |] eqn:Hf; [| reflexivity].
    apply find_some in Hf as [Hr Heq]. apply String.eqb_eq in Heq.
    exfalso. apply Hnot. rewrite <- Heq. apply in_map. now apply in_rev.
  - intros clazz Hnot. unfold resolver. simpl.
    rewrite (get_fold_set snd fst registered [] clazz).
    destruct (find _ (rev registered)) as [r |] eqn:Hf; [| reflexivity].
    apply find_some in Hf as [Hr Heq]. apply String.eqb_eq in Heq.
    exfalso. apply Hnot. rewrite <- Heq. apply in_map. now apply in_rev.
Qed.

Lemma configured_resolver_round_trip_witness :
  getClass Samples.taskResolver "task.renamed" = Js.Ok "TaskRenamed"%string /\
  getEventType Samples.taskResolver "TaskRenamed" = Js.Ok "task.renamed"%string.
Proof.
  apply (configured_resolver_round_trip
           [("task.created", "TaskCreated"); ("task.renamed", "TaskRenamed")]%string).
  - repeat constructor; simpl; intuition discriminate.
  - repeat constructor; simpl; intuition discriminate.
  - repeat constructor; discriminate.
  - right. left. reflexivity.
Defined.

(** X7: the router resolves a command to the handler definition registered
    last under the command's class name; when none is registered, send fails
    with the "No command handler" error and touches neither the store, the
    cache nor any handler. *)
Theorem last_registered_handler_wins cfg command metadata w :
  commandHandlerFor cfg (commandName command)
  = find (fun def => String.eqb (ch_commandClass def) (commandName command))
         (rev (commandHandlers cfg)) /\
  ((forall def, In def (commandHandlers cfg) ->
                ch_commandClass def <> commandName command) ->
   send cfg command metadata w
   = (Js.Throw ("No command handler registered for "
                ++ commandName command)%string, w)).
Proof.
  assert (Hlookup :
    commandHandlerFor cfg (commandName command)
    = find (fun def => String.eqb (ch_commandClass def) (commandName command))
           (rev (commandHandlers cfg))).
  { unfold commandHandlerFor.
    rewrite (get_fold_set ch_commandClass (fun d => d) (commandHandlers cfg)
               [] (commandName command)).
    now destruct (find _ _). }
  split; [exact Hlookup |].
  intros Hnone. unfold send. rewrite Hlookup.
  destruct (find _ _) as [def |] eqn:Hf; [| reflexivity].
  apply find_some in Hf as [Hin Heq]. apply String.eqb_eq in Heq.
  exfalso. apply (Hnone def); [now apply in_rev | exact Heq].
Qed.

Lemma last_registered_handler_wins_witness :
  send Samples.taskRouter (Samples.command "ArchiveTask" None) ∅
    (Samples.world [Samples.createdEvent])
  = (Js.Throw "No command handler registered for ArchiveTask"%string,
     Samples.world [Samples.createdEvent]).
Proof.
  apply (last_registered_handler_wins Samples.taskRouter
           (Samples.command "ArchiveTask" None) ∅
           (Samples.world [Samples.createdEvent])).
  intros def [<- | [<- | [<- | [<- | [<- | []]]]]]; discriminate.
Defined.

Lemma propagateKey_snoc (commandMetadata : JsRecord) (listed : list string)
  (k : string) (o : JsObject) :
  fold_left (propagateKey commandMetadata) (listed ++ [k]) o
  = propagateKey commandMetadata
      (fold_left (propagateKey commandMetadata) listed o) k.
Proof. now rewrite fold_left_app. Qed.

Lemma assignProto_other (o : JsObject) (written : option Json) (key : string) :
  key <> "__proto__" ->
  properties (assignProto o written) !! key = properties o !! key.
Proof.
  intros Hne. unfold assignProto.
  destruct (properties o !! "__proto__");
    [| destruct (setterInReach (prototype o))];
    cbn [properties]; try reflexivity;
    now apply lookup_insert_ne.
Qed.

Lemma propagateKey_other (commandMetadata : JsRecord) (o : JsObject)
  (k key : string) :
  k <> key ->
  properties (propagateKey commandMetadata o k) !! key = properties o !! key.
Proof.
  intros Hne. unfold propagateKey.
  destruct (String.eqb_spec k "__proto__") as [-> | Hk].
  - apply assignProto_other. congruence.
  - destruct (commandMetadata !! k); [| destruct (inherited k)];
      cbn [assignData properties]; try reflexivity;
      now apply lookup_insert_ne.
Qed.

Lemma propagateKey_data (commandMetadata : JsRecord) (o : JsObject)
  (k : string) :
  k <> "__proto__" ->
  propagateKey commandMetadata o k
  = match commandMetadata !! k with
    | Some v => assignData o k (Data v)
    | None =>
        match inherited k with
        | Some x => assignData o k x
        | None => o
        end
    end.
Proof.
  intros Hk. unfold propagateKey.
  now destruct (String.eqb_spec k "__proto__") as [-> | _].
Qed.

Lemma propagateKey_proto (commandMetadata : JsRecord) (o : JsObject) :
  propagateKey commandMetadata o "__proto__"
  = assignProto o (commandMetadata !! "__proto__").
Proof. reflexivity. Qed.

Lemma propagateKey_prototype (commandMetadata : JsRecord) (o : JsObject)
  (k : string) :
  k <> "__proto__" ->
  prototype (propagateKey commandMetadata o k) = prototype o.
Proof.
  intros Hk. unfold propagateKey.
  destruct (String.eqb_spec k "__proto__") as [-> | _]; [congruence |].
  now destruct (commandMetadata !! k); [| destruct (inherited k)].
Qed.

(** Keys other than [__proto__]: a listed key takes the command's own
    value, else the member of [Object.prototype] of that name, else keeps
    what the object had. *)
Lemma shallow_copy_lookup (commandMetadata : JsRecord) (o : JsObject)
  (listed : list string) (key : string) :
  key <> "__proto__" ->
  properties (fold_left (propagateKey commandMetadata) listed o) !! key
  = if in_dec string_dec key listed
    then match commandMetadata !! key with
         | Some v => Some (Data v)
         | None =>
             match inherited key with
             | Some x => Some x
             | None => properties o !! key
             end
         end
    else properties o !! key.
Proof.
  intros Hkey.
  induction listed as [| k listed IH] using rev_ind; [reflexivity |].
  rewrite propagateKey_snoc.
  destruct (String.eqb_spec k key) as [-> | Hne].
  - destruct (in_dec string_dec key (listed ++ [key])) as [_ | Hout];
      [| exfalso; apply Hout; apply in_or_app; right; now left].
    rewrite propagateKey_data by exact Hkey.
    destruct (commandMetadata !! key) as [v |] eqn:Hc.
    + cbn [assignData properties]. apply lookup_insert_eq.
    + destruct (inherited key) as [x |] eqn:Hi.
      * cbn [assignData properties]. apply lookup_insert_eq.
      * rewrite IH. now destruct (in_dec string_dec key listed).
  - rewrite propagateKey_other by exact Hne. rewrite IH.
    destruct (in_dec string_dec key listed) as [Hin | Hout],
             (in_dec string_dec key (listed ++ [k])) as [Hin' | Hout'];
      try reflexivity.
    + exfalso. apply Hout'. apply in_or_app. now left.
    + exfalso. apply in_app_or in Hin' as [H | [H | []]];
        [now apply Hout | congruence].
Qed.

(** Without [__proto__] among the keys neither the prototype nor an own
    [__proto__] changes. *)
Lemma shallow_copy_without_proto (commandMetadata : JsRecord) (o : JsObject)
  (listed : list string) :
  ~ In "__proto__" listed ->
  prototype (fold_left (propagateKey commandMetadata) listed o) = prototype o
  /\ properties (fold_left (propagateKey commandMetadata) listed o)
       !! "__proto__"
     = properties o !! "__proto__".
Proof.
  induction listed as [| k listed IH] using rev_ind; [now split |].
  intros Hout. rewrite propagateKey_snoc.
  assert (Hk : k <> "__proto__").
  { intros ->. apply Hout. apply in_or_app. right. now left. }
  destruct IH as [IHp IHo].
  { intros Hin. apply Hout. apply in_or_app. now left. }
  split.
  - now rewrite propagateKey_prototype.
  - now rewrite propagateKey_other.
Qed.

(** An own [__proto__] of the event's metadata is an ordinary property:
    listing the key overwrites it and leaves the prototype alone. *)
Lemma shallow_copy_own_proto (commandMetadata : JsRecord) (o : JsObject)
  (listed : list string) :
  is_Some (properties o !! "__proto__") ->
  prototype (fold_left (propagateKey commandMetadata) listed o) = prototype o
  /\ properties (fold_left (propagateKey commandMetadata) listed o)
       !! "__proto__"
     = if in_dec string_dec "__proto__" listed
       then Some (match commandMetadata !! "__proto__" with
                  | Some v => Data v
                  | None => ObjectPrototypeValue
                  end)
       else properties o !! "__proto__".
Proof.
  intros Hown.
  induction listed as [| k listed IH] using rev_ind; [now split |].
  rewrite propagateKey_snoc. destruct IH as [IHp IHo].
  destruct (String.eqb_spec k "__proto__") as [-> | Hk].
  - destruct (in_dec string_dec "__proto__" (listed ++ ["__proto__"]))
      as [_ | Hout];
      [| exfalso; apply Hout; apply in_or_app; right; now left].
    rewrite propagateKey_proto. unfold assignProto.
    assert (Hsome : is_Some
              (properties (fold_left (propagateKey commandMetadata) listed o)
                 !! "__proto__")).
    { rewrite IHo. destruct (in_dec string_dec "__proto__" listed); eauto. }
    destruct Hsome as [x Hx]. rewrite Hx. cbn [prototype properties].
    split; [exact IHp | apply lookup_insert_eq].
  - split.
    + now rewrite propagateKey_prototype.
    + rewrite propagateKey_other by exact Hk. rewrite IHo.
      destruct (in_dec string_dec "__proto__" listed) as [Hin | Hout],
               (in_dec string_dec "__proto__" (listed ++ [k]))
                 as [Hin' | Hout'];
        try reflexivity.
      * exfalso. apply Hout'. apply in_or_app. now left.
      * exfalso. apply in_app_or in Hin' as [H | [H | []]];
          [now apply Hout | congruence].
Qed.

(** X8: what propagateMetadata hands to the marshaller.  Without
    propagation it is the event's metadata; DEEP adds the command's entries
    and the event's value wins where both have the key; SHALLOW goes
    through the listed keys.  There a key other than [__proto__] takes the
    command's own value or, when the command has none, the member of
    [Object.prototype] of that name ([constructor], [toString], ...), and
    keeps the event's value otherwise.  [__proto__] itself: not listed,
    nothing changes; listed while the event's metadata has an own
    [__proto__], that property is overwritten; listed once while it has
    none, the assignment reaches the setter, which replaces the prototype
    by an object or [null] and creates no property. *)
Theorem metadata_propagation_by_mode cfg
  (commandMetadata eventMetadata : JsRecord) :
  let propagated := propagateMetadata cfg commandMetadata eventMetadata in
  let written :=
    match commandMetadata !! "__proto__" with
    | Some v => Data v
    | None => ObjectPrototypeValue
    end in
  match metadataPropagation cfg with
  | None => propagated = plain eventMetadata
  | Some {| mode := MP_NONE |} => propagated = plain eventMetadata
  | Some {| mode := MP_DEEP |} =>
      prototype propagated = OfObject /\
      forall key,
        properties propagated !! key
        = Data <$> match eventMetadata !! key with
                   | Some v => Some v
                   | None => commandMetadata !! key
                   end
  | Some {| mode := MP_SHALLOW; keys := None |} =>
      propagated = plain eventMetadata
  | Some {| mode := MP_SHALLOW; keys := Some listed |} =>
      (forall key, key <> "__proto__" ->
         properties propagated !! key
         = if in_dec string_dec key listed
           then match commandMetadata !! key with
                | Some v => Some (Data v)
                | None =>
                    match inherited key with
                    | Some x => Some x
                    | None => Data <$> eventMetadata !! key
                    end
                end
           else Data <$> eventMetadata !! key) /\
      (~ In "__proto__" listed ->
         prototype propagated = OfObject /\
         properties propagated !! "__proto__"
         = Data <$> eventMetadata !! "__proto__") /\
      (In "__proto__" listed -> is_Some (eventMetadata !! "__proto__") ->
         prototype propagated = OfObject /\
         properties propagated !! "__proto__" = Some written) /\
      (forall before after,
         listed = before ++ "__proto__" :: after ->
         ~ In "__proto__" before -> ~ In "__proto__" after ->
         eventMetadata !! "__proto__" = None ->
         prototype propagated
         = match commandMetadata !! "__proto__" with
           | Some v => setPrototypeOf v OfObject
           | None => OfObject
           end /\
         properties propagated !! "__proto__" = None)
  end.
Proof.
  intros propagated written. unfold propagated, propagateMetadata.
  destruct (metadataPropagation cfg) as [[[| |] ks] |];
    cbn [default from_option Datatypes.id mode keys]; try reflexivity.
  - destruct ks as [listed |]; [| reflexivity].
    assert (Hplain : forall key,
              properties (plain eventMetadata) !! key
              = Data <$> eventMetadata !! key).
    { intros key. unfold plain. cbn [properties]. apply lookup_fmap. }
    split; [| split; [| split]].
    + intros key Hkey. rewrite shallow_copy_lookup by exact Hkey.
      now rewrite Hplain.
    + intros Hout.
      destruct (shallow_copy_without_proto commandMetadata
                  (plain eventMetadata) listed Hout) as [Hp Ho].
      now rewrite Hp, Ho, Hplain.
    + intros Hin Hown.
      destruct (shallow_copy_own_proto commandMetadata
                  (plain eventMetadata) listed) as [Hp Ho].
      { rewrite Hplain. destruct Hown as [v ->]. now exists (Data v). }
      rewrite Hp, Ho.
      now destruct (in_dec string_dec "__proto__" listed).
    + intros before after -> Hbefore Hafter Hnone.
      rewrite fold_left_app. cbn [fold_left].
      destruct (shallow_copy_without_proto commandMetadata
                  (plain eventMetadata) before Hbefore) as [Hp Ho].
      rewrite Hplain, Hnone in Ho. cbn [fmap option_fmap option_map] in Ho.
      set (mid := fold_left (propagateKey commandMetadata) before
                    (plain eventMetadata)) in *.
      assert (Hstep :
        propagateKey commandMetadata mid "__proto__"
        = {| properties := properties mid;
             prototype := match commandMetadata !! "__proto__" with
                          | Some v => setPrototypeOf v OfObject
                          | None => OfObject
                          end |}).
      { rewrite propagateKey_proto. unfold assignProto.
        rewrite Ho, Hp. reflexivity. }
      rewrite Hstep.
      match goal with
      | |- context [fold_left _ after ?o] =>
          destruct (shallow_copy_without_proto commandMetadata o after Hafter)
            as [Hp' Ho']
      end.
      rewrite Hp', Ho'. cbn [prototype properties]. now split.
  - split; [reflexivity |]. intros key. unfold plain. cbn [properties].
    rewrite lookup_fmap. unfold JsRecord in *. rewrite lookup_union.
    destruct (eventMetadata !! key), (commandMetadata !! key); reflexivity.
Qed.

(** With [constructor], [__proto__], [tenant] and [trace] listed, a command
    that carries a tenant and an event without metadata: the tenant is
    copied, [constructor] becomes an own property holding [Object], [trace]
    stays absent and the prototype is [Object.prototype] as before. *)
Lemma metadata_propagation_by_mode_witness :
  let propagated :=
    propagateMetadata Samples.shallowRouter {[ "tenant" := JStr "acme" ]} ∅ in
  properties propagated !! "tenant" = Some (Data (JStr "acme")) /\
  properties propagated !! "constructor" = Some ObjectConstructor /\
  properties propagated !! "trace" = None /\
  prototype propagated = OfObject /\
  properties propagated !! "__proto__" = None.
Proof.
  pose proof (metadata_propagation_by_mode Samples.shallowRouter
                {[ "tenant" := JStr "acme" ]} ∅) as H.
  cbv zeta in H. cbn [metadataPropagation Samples.shallowRouter] in H.
  destruct H as (Hkeys & _ & _ & Hproto).
  cbv zeta. split; [| split; [| split; [| split]]].
  - now rewrite (Hkeys "tenant" ltac:(discriminate)).
  - now rewrite (Hkeys "constructor" ltac:(discriminate)).
  - now rewrite (Hkeys "trace" ltac:(discriminate)).
  - apply (Hproto ["constructor"] ["tenant"; "trace"] eq_refl);
      [intros [H | []]; discriminate
      | intros [H | [H | []]]; discriminate
      | reflexivity].
  - apply (Hproto ["constructor"] ["tenant"; "trace"] eq_refl);
      [intros [H | []]; discriminate
      | intros [H | [H | []]]; discriminate
      | reflexivity].
Defined.

End Registration.

(* ===================================================================== *)
(** ** Further properties: the in-memory event store *)
(* ===================================================================== *)

Section StoreFacts.
Import Event InMemoryAdapter StoreInvariant.

Lemma string_app_assoc (a b c : string) :
  ((a ++ b) ++ c = a ++ (b ++ c))%string.
Proof.
  induction a as [| x a IH]; [reflexivity |].
  change (String x ((a ++ b) ++ c) = String x (a ++ (b ++ c)))%string.
  now f_equal.
Qed.

Lemma prefix_iff (p s : string) :
  String.prefix p s = true <-> exists rest, s = (p ++ rest)%string.
Proof.
  revert s. induction p as [| a p IH]; intros s.
  - split; [intros _; now exists s | intros _; destruct s; reflexivity].
  - destruct s as [| b s]; simpl.
    + split; [discriminate | intros [r Hr]; discriminate].
    + destruct (Ascii.ascii_dec a b) as [-> | Hne].
      * rewrite IH. split; intros [rest Hrest]; exists rest.
        -- now rewrite Hrest.
        -- now injection Hrest.
      * split; [discriminate |].
        intros [rest Hrest]. injection Hrest as Hab _. congruence.
Qed.

(** X9: without bounds, the events streamed for a subject are the stored
    events with those outside the scope left out: the same events, each as
    often as it is stored, in stored order.  In scope are the events of
    that subject and, when recursive, of the subjects below it; a subject
    that merely starts with the same characters (/task/t10 for /task/t1) is
    not. *)
Theorem stream_scope st subject (recursive : bool) :
  exists inScope : RawEvent -> bool,
    (forall e,
       inScope e = true
       <-> if recursive then atOrBelow subject e
           else Event.subject e = subject) /\
    streamEvents st subject None (Some recursive)
    = List.filter inScope (events st) /\
    forall e,
      In e (streamEvents st subject None (Some recursive))
      <-> In e (events st) /\
          (if recursive then atOrBelow subject e
           else Event.subject e = subject).
Proof.
  set (inScope := fun e : RawEvent =>
         if recursive
         then String.eqb (Event.subject e) subject
              || String.prefix (subject ++ "/") (Event.subject e)
         else String.eqb (Event.subject e) subject).
  assert (Hscope : forall e,
            inScope e = true
            <-> if recursive then atOrBelow subject e
                else Event.subject e = subject).
  { intros e. unfold inScope, atOrBelow. destruct recursive.
    - rewrite Bool.orb_true_iff, String.eqb_eq, prefix_iff.
      split; (intros [H | [rest H]]; [now left | right]);
        exists rest; now rewrite H, string_app_assoc.
    - apply String.eqb_eq. }
  assert (Hlist : streamEvents st subject None (Some recursive)
                  = List.filter inScope (events st)).
  { unfold streamEvents, applyLatestByEventType, applyUpperBound,
      applyLowerBound, filterEventsBySubject, inScope. simpl.
    now destruct recursive. }
  exists inScope. split; [exact Hscope |]. split; [exact Hlist |].
  intros e. rewrite Hlist, List.filter_In, Hscope. reflexivity.
Qed.

Lemma orNull_truthy (s : string) : s <> ""%string -> Js.orNull (Some s) = Some s.
Proof. destruct s; [congruence | reflexivity]. Qed.

Lemma findIndex_none {A} (p : A -> bool) (l : list A) :
  (forall x, In x l -> p x = false) -> findIndex p l = None.
Proof.
  induction l as [| x l IH]; intros Hno; simpl; [reflexivity |].
  rewrite (Hno x) by now left.
  rewrite IH; [reflexivity |]. intros y Hy. apply Hno. now right.
Qed.

Lemma before_has_other_ids (before after : list RawEvent) (e : RawEvent) :
  List.NoDup (map id (before ++ e :: after)) ->
  forall x, In x before -> String.eqb (id x) (id e) = false.
Proof.
  intros Hnodup x Hx. apply String.eqb_neq. intros Heq.
  rewrite map_app in Hnodup. simpl in Hnodup.
  apply List.NoDup_remove_2 in Hnodup. apply Hnodup.
  apply in_or_app. left. rewrite <- Heq. now apply in_map.
Qed.

(** X10: bounds cut the stream at the event they name.  With distinct ids, a
    lower bound yields the events after the named one (and the named one
    when inclusive), an upper bound those before it (and the named one when
    inclusive); a bound that names no event of the scope, or is the empty
    string, is ignored and the whole scope is streamed. *)
Theorem stream_bounds st subject recursive (bound : string)
  (inclusive : option bool) :
  let scope := filterEventsBySubject st subject recursive in
  let lower := {| lowerBound := Some bound; includeLowerBound := inclusive;
                  upperBound := None; includeUpperBound := None;
                  latestByEventType := None |} in
  let upper := {| lowerBound := None; includeLowerBound := None;
                  upperBound := Some bound; includeUpperBound := inclusive;
                  latestByEventType := None |} in
  List.NoDup (map id scope) ->
  (forall before e after,
     scope = before ++ e :: after -> id e = bound -> bound <> ""%string ->
     streamEvents st subject (Some lower) (Some recursive)
     = (if flag inclusive then e :: after else after) /\
     streamEvents st subject (Some upper) (Some recursive)
     = (if flag inclusive then before ++ [e] else before)) /\
  ((bound = ""%string \/ forall e, In e scope -> id e <> bound) ->
   streamEvents st subject (Some lower) (Some recursive) = scope /\
   streamEvents st subject (Some upper) (Some recursive) = scope).
Proof.
  intros scope lower upper Hnodup. split.
  - intros before e after Hscope Hid Hne.
    unfold streamEvents, applyLatestByEventType, applyUpperBound,
      applyLowerBound, lower, upper.
    cbn [default mbind option_bind lowerBound includeLowerBound upperBound
         includeUpperBound latestByEventType].
    change (Js.orNull None) with (@None string). unfold Datatypes.id.
    fold scope. rewrite (orNull_truthy bound Hne).
    rewrite Hscope in *. rewrite <- Hid.
    rewrite findIndex_middle;
      [| now apply (before_has_other_ids before after e)
       | apply String.eqb_refl].
    split.
    + destruct (flag inclusive).
      * rewrite Nat.add_0_r, skipn_app, skipn_all, Nat.sub_diag. reflexivity.
      * change (e :: after) with ([e] ++ after). rewrite app_assoc.
        rewrite skipn_app, skipn_all2 by (rewrite length_app; simpl; lia).
        rewrite length_app. simpl.
        replace (length before + 1 - (length before + 1)) with 0 by lia.
        reflexivity.
    + destruct (flag inclusive).
      * change (e :: after) with ([e] ++ after). rewrite app_assoc.
        rewrite firstn_app, firstn_all2 by (rewrite length_app; simpl; lia).
        rewrite length_app. simpl.
        replace (length before + 1 - (length before + 1)) with 0 by lia.
        simpl. now rewrite app_nil_r.
      * rewrite Nat.add_0_r, firstn_app, firstn_all, Nat.sub_diag. simpl.
        now rewrite app_nil_r.
  - intros Hmiss.
    unfold streamEvents, applyLatestByEventType, applyUpperBound,
      applyLowerBound, lower, upper.
    cbn [default mbind option_bind lowerBound includeLowerBound upperBound
         includeUpperBound latestByEventType].
    change (Js.orNull None) with (@None string). unfold Datatypes.id.
    fold scope.
    destruct Hmiss as [-> | Hmiss]; [split; reflexivity |].
    destruct (Js.orNull (Some bound)) as [b |] eqn:Hb; [| split; reflexivity].
    assert (b = bound) as ->.
    { simpl in Hb. destruct (Js.truthy bound); congruence. }
    rewrite findIndex_none; [split; reflexivity |].
    intros x Hx. apply String.eqb_neq. now apply Hmiss.
Qed.

End StoreFacts.

Section StorePublishing.
Import Event InMemoryAdapter StoreInvariant.

Lemma stream_bounds_witness :
  streamEvents
    (Samples.storeOf [Samples.createdEvent; Samples.renamedEvent]) "/task/t1"
    (Some {| lowerBound := Some "event-0"%string; includeLowerBound := None;
             upperBound := None; includeUpperBound := None;
             latestByEventType := None |})
    (Some false)
  = [Samples.renamedEvent].
Proof.
  assert (Hnd : List.NoDup
                  (map id (filterEventsBySubject
                             (Samples.storeOf
                                [Samples.createdEvent; Samples.renamedEvent])
                             "/task/t1" false))).
  { repeat constructor; simpl; intuition discriminate. }
  exact (proj1 (proj1 (stream_bounds
                         (Samples.storeOf
                            [Samples.createdEvent; Samples.renamedEvent])
                         "/task/t1" false "event-0" None Hnd)
                      [] Samples.createdEvent [Samples.renamedEvent]
                      eq_refl eq_refl ltac:(discriminate))).
Defined.

Lemma checkPrecondition_ok_iff st p :
  checkPrecondition st p = Js.Ok tt <-> holds st p.
Proof.
  unfold checkPrecondition, holds.
  destruct (String.eqb_spec (p_type p) "isSubjectNew") as [Ht | Ht].
  - destruct (p_payload p !! "subject") as [[| | | s | |] |] eqn:Hs;
      try (split; [intros _ _ s' Hs'; discriminate | reflexivity]).
    destruct (existsb _ (events st)) eqn:Hex.
    + split; [discriminate |]. intros H. exfalso.
      apply existsb_exists in Hex as (e & Hin & Heq).
      apply String.eqb_eq in Heq. exact (H Ht s eq_refl e Hin Heq).
    + split; [| reflexivity]. intros _ _ s' [= <-] e Hin Heq.
      assert (Htrue : existsb (fun e => String.eqb (subject e) s) (events st)
                      = true).
      { apply existsb_exists. exists e. split; [exact Hin |].
        now apply String.eqb_eq. }
      congruence.
  - split; [intros _ H; contradiction | reflexivity].
Qed.

Lemma checkPreconditions_ok_iff st ps :
  checkPreconditions st ps = Js.Ok tt <-> Forall (holds st) ps.
Proof.
  induction ps as [| p ps IH]; simpl.
  - split; [constructor | reflexivity].
  - destruct (checkPrecondition st p) as [[] | e] eqn:Hp; simpl.
    + rewrite IH. apply checkPrecondition_ok_iff in Hp.
      split; [intros H; now constructor | intros H; now inversion H].
    + split; [discriminate |]. intros H. inversion H as [| ? ? Hhold _]; subst.
      apply checkPrecondition_ok_iff in Hhold. congruence.
Qed.

(** What one stored event takes from the event handed in. *)
Lemma publishLoop_spec now (batch : list EventToPublish) :
  forall st,
    let published := fst (publishLoop now st batch) in
    let st' := snd (publishLoop now st batch) in
    events st' = events st ++ published /\
    idCounter st' = idCounter st + length batch /\
    map id published = map issuedId (seq (idCounter st) (length batch)) /\
    Forall2 (fun raw event =>
               type raw = tp_type event /\ source raw = tp_source event /\
               subject raw = tp_subject event /\ data raw = tp_data event /\
               time raw = now)
            published batch.
Proof.
  induction batch as [| event batch IH]; intros st; simpl.
  - rewrite app_nil_r, Nat.add_0_r. repeat split. constructor.
  - specialize (IH (snd (publishOne now st event))).
    destruct (publishLoop now (snd (publishOne now st event)) batch)
      as [published st2] eqn:Hloop.
    unfold publishOne in *. simpl in *. rewrite Hloop. simpl.
    destruct IH as (Hev & Hcnt & Hids & Hall).
    rewrite Hev, Hcnt, Hids, <- app_assoc. simpl.
    repeat split; try lia. constructor; [repeat split | exact Hall].
Qed.

(** X11: publishEvents is all or nothing.  It succeeds exactly when every
    precondition holds against the store as it was before the call, and
    then appends one event per event handed in, in order, with the next
    counter values as ids and the given type, source, subject and data; when
    some precondition fails it throws and nothing is stored. *)
Theorem publish_appends_batch_or_rejects now st (batch : list EventToPublish)
  (preconditions : option (list Precondition)) :
  (Forall (holds st) (default [] preconditions) ->
   exists published st',
     publishEvents now st batch preconditions = Js.Ok (published, st') /\
     events st' = events st ++ published /\
     idCounter st' = idCounter st + length batch /\
     map id published = map issuedId (seq (idCounter st) (length batch)) /\
     Forall2 (fun raw event =>
                type raw = tp_type event /\ source raw = tp_source event /\
                subject raw = tp_subject event /\ data raw = tp_data event /\
                time raw = now)
             published batch) /\
  (~ Forall (holds st) (default [] preconditions) ->
   exists e, publishEvents now st batch preconditions = Js.Throw e).
Proof.
  unfold publishEvents. split.
  - intros Hok. apply checkPreconditions_ok_iff in Hok. rewrite Hok. simpl.
    destruct (publishLoop now st batch) as [published st'] eqn:Hloop.
    exists published, st'. split; [reflexivity |].
    pose proof (publishLoop_spec now batch st) as Hspec.
    rewrite Hloop in Hspec. exact Hspec.
  - intros Hbad.
    destruct (checkPreconditions st (default [] preconditions))
      as [[] | e] eqn:Hcheck.
    + exfalso. apply Hbad. now apply checkPreconditions_ok_iff.
    + now exists e.
Qed.

Lemma issuedId_inj (a b : nat) : issuedId a = issuedId b -> a = b.
Proof.
  unfold issuedId. intros H.
  apply (inj (String.append "event-")) in H.
  now apply (inj pretty) in H.
Qed.

Lemma publishOne_issued now st event :
  issued st -> issued (snd (publishOne now st event)).
Proof.
  intros [Hnd Hall]. unfold publishOne, issued. simpl. split.
  - rewrite map_app. simpl.
    apply List.NoDup_rev in Hnd.
    rewrite <- (rev_involutive (map id (events st) ++ _)).
    apply List.NoDup_rev. rewrite rev_app_distr. simpl.
    apply List.NoDup_cons_iff. split; [| exact Hnd].
    rewrite <- in_rev. intros Hin. apply in_map_iff in Hin as (e & Hid & He).
    destruct (proj1 (List.Forall_forall _ _) Hall e He) as (k & Hk & Hek).
    fold (issuedId (idCounter st)) in Hid. rewrite Hek in Hid.
    apply issuedId_inj in Hid. lia.
  - apply Forall_app. split.
    + eapply List.Forall_impl; [| exact Hall].
      intros e (k & Hk & Hek). exists k. split; [lia | exact Hek].
    + constructor; [| constructor]. exists (idCounter st). split; [lia |].
      reflexivity.
Qed.

Lemma publishLoop_cons_snd now st event batch :
  snd (publishLoop now st (event :: batch))
  = snd (publishLoop now (snd (publishOne now st event)) batch).
Proof.
  cbn [publishLoop]. destruct (publishOne now st event) as [raw st1].
  cbn [snd]. now destruct (publishLoop now st1 batch).
Qed.

Lemma publishLoop_issued now batch :
  forall st, issued st -> issued (snd (publishLoop now st batch)).
Proof.
  induction batch as [| event batch IH]; intros st Hst; [exact Hst |].
  rewrite publishLoop_cons_snd. apply IH. now apply publishOne_issued.
Qed.

(** X12: the ids the adapter assigns are never empty and never repeated:
    whatever batches were published (or rejected) since the store was
    created, its events carry pairwise distinct, non-empty ids. *)
Theorem published_ids_distinct now
  (batches : list (list EventToPublish * option (list Precondition))) :
  let st := publishAll now InMemoryAdapter.empty batches in
  List.NoDup (map id (events st)) /\
  Forall (fun e => id e <> ""%string) (events st).
Proof.
  assert (Hinv : forall bs st, issued st -> issued (publishAll now st bs)).
  { induction bs as [| [batch pre] bs IH]; intros st Hst; [exact Hst |].
    unfold publishAll in *. cbn [fold_left fst snd]. apply IH.
    unfold publishEvents.
    destruct (checkPreconditions st (default [] pre)) as [[] | e];
      simpl; [| exact Hst].
    pose proof (publishLoop_issued now batch st Hst) as H.
    now destruct (publishLoop now st batch). }
  intros st.
  destruct (Hinv batches InMemoryAdapter.empty) as [Hnd Hall].
  - split; simpl; constructor.
  - split; [exact Hnd |]. fold st in Hall.
    eapply List.Forall_impl; [| exact Hall].
    intros e (k & _ & Hek). rewrite Hek. discriminate.
Qed.

End StorePublishing.

Section SendOutcome.
Import Event Command StateRebuildingCache EventTypeResolver CommandRouter.

Lemma mapExc_Forall2 {A B} (f : A -> Js.Exc Error B) (l : list A) :
  forall ys, mapExc f l = Js.Ok ys -> Forall2 (fun x y => f x = Js.Ok y) l ys.
Proof.
  induction l as [| x l IH]; simpl; intros ys H.
  - injection H as <-. constructor.
  - destruct (f x) as [y |] eqn:Hx; simpl in H; [| discriminate].
    destruct (mapExc f l) as [ys' |]; simpl in H; [| discriminate].
    injection H as <-. constructor; [exact Hx | now apply IH].
Qed.

Lemma Forall2_through {A B C} (P : A -> B -> Prop) (Q : C -> B -> Prop)
  (R : C -> A -> Prop) :
  (forall x y z, P x y -> Q z y -> R z x) ->
  forall xs ys zs, Forall2 P xs ys -> Forall2 Q zs ys -> Forall2 R zs xs.
Proof.
  intros Hstep xs ys zs HP. revert zs.
  induction HP as [| x y xs ys Hxy _ IH]; intros zs HQ; inversion HQ; subst.
  - constructor.
  - constructor; [eapply Hstep; eassumption | now apply IH].
Qed.

(** What publishCaptured leaves in the store. *)
Lemma publishCaptured_store cfg subject metadata captured w :
  clock (snd (publishCaptured cfg subject metadata captured w)) = clock w /\
  match fst (publishCaptured cfg subject metadata captured w) with
  | Js.Throw _ =>
      eventStore (snd (publishCaptured cfg subject metadata captured w))
      = eventStore w
  | Js.Ok _ =>
      exists added,
        InMemoryAdapter.events
          (eventStore (snd (publishCaptured cfg subject metadata captured w)))
        = InMemoryAdapter.events (eventStore w) ++ added /\
        InMemoryAdapter.idCounter
          (eventStore (snd (publishCaptured cfg subject metadata captured w)))
        = InMemoryAdapter.idCounter (eventStore w) + length captured /\
        map id added
        = map StoreInvariant.issuedId
            (seq (InMemoryAdapter.idCounter (eventStore w)) (length captured)) /\
        Forall2 (fun raw c =>
                   Event.subject raw = subject /\
                   source raw = eventSource cfg /\
                   time raw = clock w /\
                   getEventType (eventTypeResolver cfg)
                     (constructorName (c_event c)) = Js.Ok (type raw) /\
                   serialize (eventDataMarshaller cfg)
                     (propagateMetadata cfg metadata (c_metadata c))
                     (c_event c) = Js.Ok (data raw))
                added captured
  end.
Proof.
  unfold publishCaptured. destruct captured as [| c0 rest].
  - simpl. split; [reflexivity |]. exists []. rewrite app_nil_r, Nat.add_0_r.
    repeat split. constructor.
  - set (captured := c0 :: rest).
    destruct (mapExc (toPublish cfg subject metadata) captured)
      as [eventsToPublish | e] eqn:Hmap; [| now split].
    apply mapExc_Forall2 in Hmap. cbv zeta.
    unfold InMemoryAdapter.publishEvents.
    destruct (InMemoryAdapter.checkPreconditions _ _) as [[] | e];
      cbn [Js.bind]; [| now split].
    pose proof (publishLoop_spec (clock w) eventsToPublish (eventStore w))
      as Hspec.
    destruct (InMemoryAdapter.publishLoop (clock w) (eventStore w)
                eventsToPublish) as [published store'].
    cbn [fst snd] in *. destruct Hspec as (Hev & Hcnt & Hids & Hall).
    split; [reflexivity |]. exists published.
    assert (Hlen : length eventsToPublish = length captured)
      by (symmetry; eapply Forall2_length, Hmap).
    rewrite <- Hlen. repeat split; try assumption.
    eapply Forall2_through; [| exact Hmap | exact Hall].
    intros c event raw Hc (Htype & Hsource & Hsubject & Hdata & Htime).
    unfold toPublish in Hc.
    destruct (getEventType _ _) as [eventType |]; simpl in Hc;
      [| discriminate].
    destruct (serialize _ _ _) as [eventData |]; simpl in Hc;
      [| discriminate].
    injection Hc as <-. simpl in *. subst. repeat split; congruence.
Qed.

(** X13: what a send does to the event store.  A send that fails, at any
    step, leaves the store as it was.  A send that returns the handler's
    result has appended exactly one event per event the handler published,
    in publish order, each on the command's subject, with the router's
    event source, the type the resolver gives for the event's class and the
    data the marshaller serialized. *)
Theorem send_appends_published_events cfg command metadata w :
  let res := send cfg command metadata w in
  clock (snd res) = clock w /\
  match fst res with
  | Js.Throw _ => eventStore (snd res) = eventStore w
  | Js.Ok result =>
      exists definition captured added,
        commandHandlerFor cfg (commandName command) = Some definition /\
        runHandler (ch_handler definition)
          (rb_instance
             (fst (rebuildState cfg (eventStore w) (stateCache w)
                     (getSubject command) (ch_instanceClass definition)
                     (ch_sourcingMode definition))))
          command metadata
        = (captured, Js.Ok result) /\
        InMemoryAdapter.events (eventStore (snd res))
        = InMemoryAdapter.events (eventStore w) ++ added /\
        Forall2 (fun raw c =>
                   Event.subject raw = getSubject command /\
                   source raw = eventSource cfg /\
                   time raw = clock w /\
                   getEventType (eventTypeResolver cfg)
                     (constructorName (c_event c)) = Js.Ok (type raw) /\
                   serialize (eventDataMarshaller cfg)
                     (propagateMetadata cfg metadata (c_metadata c))
                     (c_event c) = Js.Ok (data raw))
                added captured
  end.
Proof.
  unfold send.
  destruct (commandHandlerFor cfg (commandName command)) as [definition |];
    [| now split].
  destruct (rebuildState cfg (eventStore w) (stateCache w) (getSubject command)
              (ch_instanceClass definition) (ch_sourcingMode definition))
    as [rebuilt cache'] eqn:Hrebuilt.
  cbn [fst snd]. cbv zeta.
  destruct (validateSubjectCondition _ _ _ _); [| now split].
  destruct (runHandler (ch_handler definition) (rb_instance rebuilt) command
              metadata) as [captured outcome] eqn:Hrun.
  destruct outcome as [result | e]; [| now split].
  destruct (replayCaptured _ _ _ _ _); [| now split].
  set (w2 := withEffect (withCache w cache')
               (HandlerInvoked (commandName command))).
  pose proof (publishCaptured_store cfg (getSubject command) metadata
                captured w2) as Hpub.
  destruct (publishCaptured cfg (getSubject command) metadata captured w2)
    as [[[] | e] w3]; cbn [fst snd] in *.
  - destruct Hpub as (Hclock & added & Hev & _ & _ & Hall).
    split; [exact Hclock |].
    exists definition, captured, added.
    rewrite Hrebuilt. repeat split; first [reflexivity | assumption].
  - exact Hpub.
Qed.

End SendOutcome.

Section CacheKeys.
Import StateRebuildingCache CacheCoherence.

Lemma hasColon_app (a b : string) : hasColon (a ++ ":" ++ b)%string = true.
Proof. induction a as [| c a IH]; simpl; [reflexivity |]. now rewrite IH, orb_true_r. Qed.

(** Two texts that agree up to their last colon-free segment. *)
Lemma colon_split (a a' b b' : string) :
  colonFree b -> colonFree b' ->
  (a ++ ":" ++ b = a' ++ ":" ++ b')%string -> a = a' /\ b = b'.
Proof.
  intros Hb Hb'. revert a'.
  induction a as [| c a IH]; intros [| c' a'] H.
  - change (String ":" b = String ":" b') in H.
    injection H as ->. now split.
  - change (String ":" b = String c' (a' ++ ":" ++ b')%string) in H.
    injection H as _ ->. unfold colonFree in Hb.
    now rewrite hasColon_app in Hb.
  - change (String c (a ++ ":" ++ b)%string = String ":" b') in H.
    injection H as _ <-. unfold colonFree in Hb'.
    now rewrite hasColon_app in Hb'.
  - change (String c (a ++ ":" ++ b)%string
            = String c' (a' ++ ":" ++ b')%string) in H.
    injection H as -> H. destruct (IH _ H) as [-> ->]. now split.
Qed.

Lemma buildKey_same (key1 key2 : CacheKey) :
  colonFree (k_instanceClass key1) -> colonFree (k_instanceClass key2) ->
  buildKey key1 = buildKey key2 -> key1 = key2.
Proof.
  intros H1 H2 Heq. unfold buildKey in Heq.
  destruct key1 as [s1 c1 m1], key2 as [s2 c2 m2]. simpl in *.
  assert (Hre : forall s c m : string,
             (s ++ ":" ++ c ++ ":" ++ m = (s ++ ":" ++ c) ++ ":" ++ m)%string)
    by (intros; now rewrite !string_app_assoc).
  rewrite !Hre in Heq.
  apply colon_split in Heq as [Hsc Hm];
    [| now destruct m1 | now destruct m2].
  apply colon_split in Hsc as [-> ->]; [| assumption | assumption].
  f_equal. now destruct m1, m2.
Qed.

(** X14: the text key of InMemoryStateCache tells keys apart: two keys
    whose instance class names hold no colon get the same
    [subject:class:mode] text only when subject, class and sourcing mode
    are the same; the entry stored under one key is then never the one
    fetched under another. *)
Theorem buildKey_injective (key1 key2 : CacheKey) capacity merge :
  colonFree (k_instanceClass key1) -> colonFree (k_instanceClass key2) ->
  (buildKey key1 = buildKey key2 <-> key1 = key2) /\
  (key1 <> key2 ->
   fst (fetch (store (newInMemoryStateCache capacity) key1 merge) key2)
   = None).
Proof.
  intros H1 H2. split; [split |].
  - now apply buildKey_same.
  - now intros ->.
  - intros Hne. unfold fetch, store, newInMemoryStateCache. simpl.
    destruct (_ <? _)%Z; simpl.
    + now rewrite String.eqb_refl.
    + destruct (String.eqb_spec (buildKey key1) (buildKey key2)) as [Heq | _];
        [| reflexivity].
      exfalso. apply Hne. now apply buildKey_same.
Qed.

Lemma buildKey_injective_witness :
  fst (fetch (store (newInMemoryStateCache 1000) Samples.taskKey
                (CommandRouter.mergerStart None))
         {| k_subject := "/task/t1:Task"; k_instanceClass := "LOCAL";
            k_sourcingMode := SourcingMode.RECURSIVE |})
  = None.
Proof.
  apply (buildKey_injective Samples.taskKey
           {| k_subject := "/task/t1:Task"; k_instanceClass := "LOCAL";
              k_sourcingMode := SourcingMode.RECURSIVE |}
           1000 (CommandRouter.mergerStart None));
    [reflexivity | reflexivity | discriminate].
Defined.

End CacheKeys.

Section JsMapEntries.
Context {V : Type}.
Implicit Types (m : Js.JsMap V) (k : string) (v : V).

Lemma get_In k m v : Js.get k m = Some v -> In (k, v) m.
Proof.
  induction m as [| [k' v'] m IH]; simpl; [discriminate |].
  destruct (String.eqb_spec k' k) as [-> | _].
  - intros [= ->]. now left.
  - intros H. right. now apply IH.
Qed.

Lemma In_set k v m entry :
  In entry (Js.set k v m) -> entry = (k, v) \/ In entry m.
Proof.
  induction m as [| [k' v'] m IH]; simpl.
  - intros [<- | []]. now left.
  - destruct (String.eqb_spec k' k) as [-> | _]; simpl.
    + intros [<- | H]; [now left | right; now right].
    + intros [<- | H]; [right; now left |].
      destruct (IH H) as [-> | Hin]; [now left | right; now right].
Qed.

Lemma In_delete k m entry : In entry (Js.delete k m) -> In entry m.
Proof.
  induction m as [| [k' v'] m IH]; simpl; [tauto |].
  destruct (String.eqb k' k); simpl; [now right |].
  intros [<- | H]; [now left | right; now apply IH].
Qed.

Lemma In_fold_set {D} (kf : D -> string) (vf : D -> V) (l : list D) :
  forall m entry,
    In entry (fold_left (fun m d => Js.set (kf d) (vf d) m) l m) ->
    In entry m \/ exists d, In d l /\ entry = (kf d, vf d).
Proof.
  induction l as [| d l IH]; simpl; intros m entry H; [now left |].
  destruct (IH _ _ H) as [Hin | (d' & Hd' & ->)].
  - destruct (In_set _ _ _ _ Hin) as [-> | Hm]; [| now left].
    right. exists d. split; [now left | reflexivity].
  - right. exists d'. split; [now right | reflexivity].
Qed.

End JsMapEntries.

Section CacheTransparency.
Import Event Command StateRebuildingCache EventTypeResolver CommandRouter.
Import StoreInvariant CacheCoherence.

Variable cfg : CommandRouterConfig.

Lemma commandHandlerFor_registered name definition :
  commandHandlerFor cfg name = Some definition ->
  In definition (commandHandlers cfg).
Proof.
  unfold commandHandlerFor. intros H. apply get_In in H.
  apply (In_fold_set ch_commandClass (fun d => d)) in H
    as [[] | (d & Hd & [= _ ->])].
  exact Hd.
Qed.

Lemma coherentEntry_grows st st' added entry :
  InMemoryAdapter.events st' = InMemoryAdapter.events st ++ added ->
  coherentEntry cfg st entry -> coherentEntry cfg st' entry.
Proof.
  intros Hgrow (key & earlier & k & Hkey & Hfree & Hprefix & Hval).
  exists key, earlier, (Nat.min k (length (InMemoryAdapter.events st))).
  repeat split; try assumption.
  rewrite Hprefix, Hgrow, firstn_app.
  replace (Nat.min k (length (InMemoryAdapter.events st))
           - length (InMemoryAdapter.events st)) with 0 by lia.
  rewrite firstn_O, app_nil_r.
  destruct (Nat.le_ge_cases k (length (InMemoryAdapter.events st))) as [H | H].
  - now rewrite Nat.min_l.
  - rewrite Nat.min_r by exact H.
    now rewrite firstn_all, firstn_all2.
Qed.

Lemma coherent_grows st st' added c :
  InMemoryAdapter.events st' = InMemoryAdapter.events st ++ added ->
  coherent cfg st c -> coherent cfg st' c.
Proof.
  intros Hgrow. destruct c as [| im]; simpl; [trivial |].
  intros H. eapply List.Forall_impl; [| exact H].
  intros entry. now apply coherentEntry_grows with (added := added).
Qed.

Lemma Forall_store {P : string * CacheValue -> Prop} im key merged :
  Forall P (cache im) -> P (buildKey key, merged) ->
  Forall P (cache (store im key merged)).
Proof.
  intros Hall Hnew. unfold store. simpl.
  assert (Hset : Forall P (Js.set (buildKey key) merged (cache im))).
  { apply List.Forall_forall. intros entry Hin.
    destruct (In_set _ _ _ _ Hin) as [-> | Hold]; [exact Hnew |].
    exact (proj1 (List.Forall_forall _ _) Hall entry Hold). }
  destruct (_ <? _)%Z; [| exact Hset].
  destruct (Js.firstKey _); [| exact Hset].
  apply List.Forall_forall. intros entry Hin. apply In_delete in Hin.
  exact (proj1 (List.Forall_forall _ _) Hset entry Hin).
Qed.

Lemma Forall_fetch {P : string * CacheValue -> Prop} im key :
  Forall P (cache im) ->
  Forall P (cache (snd (fetch im key))) /\
  forall cached, fst (fetch im key) = Some cached -> P (buildKey key, cached).
Proof.
  intros Hall. unfold fetch. simpl.
  destruct (Js.get (buildKey key) (cache im)) as [cached |] eqn:Hget; simpl.
  - split.
    + apply List.Forall_forall. intros entry Hin. apply In_delete in Hin.
      exact (proj1 (List.Forall_forall _ _) Hall entry Hin).
    + intros ? [= <-]. apply get_In in Hget.
      exact (proj1 (List.Forall_forall _ _) Hall _ Hget).
  - split; [exact Hall | discriminate].
Qed.

(** A rebuild through a coherent cache returns what a rebuild from nothing
    returns, and leaves the cache coherent. *)
Lemma rebuildState_coherent st c subject instanceClass sourcingMode :
  List.NoDup (map id (InMemoryAdapter.events st)) ->
  Forall (fun e => id e <> ""%string) (InMemoryAdapter.events st) ->
  colonFree instanceClass ->
  coherent cfg st c ->
  fst (rebuildState cfg st c subject instanceClass sourcingMode)
  = fst (rebuildState cfg st NoStateRebuildingCache subject instanceClass
           sourcingMode) /\
  coherent cfg st
    (snd (rebuildState cfg st c subject instanceClass sourcingMode)).
Proof.
  intros Hnd Hids Hfree Hco.
  assert (Hgoal : forall recursive,
             recursive = recursiveOf sourcingMode ->
             let key := {| k_subject := subject;
                           k_instanceClass := instanceClass;
                           k_sourcingMode := sourcingMode |} in
             let merge := merger cfg st subject instanceClass recursive in
             fst (fetchAndMerge c key merge) = merge None /\
             coherent cfg st (snd (fetchAndMerge c key merge))).
  { intros recursive Hrec key merge. destruct c as [| im]; [now split |].
    simpl in Hco. unfold fetchAndMerge.
    destruct (Forall_fetch im key Hco) as [Hrest Hcached].
    destruct (fetch im key) as [cached im1]. cbn [fst snd] in *.
    assert (Hmerge : merge cached = merge None).
    { destruct cached as [v |]; [| reflexivity].
      destruct (Hcached v eq_refl)
        as (key' & earlier & k & Hkey & Hfree' & Hprefix & Hval).
      simpl in Hkey, Hval.
      apply buildKey_same in Hkey; [| exact Hfree | exact Hfree'].
      subst key'. simpl in Hval. rewrite Hval, <- Hrec. unfold merge.
      now apply merger_resume with (k := k). }
    rewrite Hmerge. split; [reflexivity |]. simpl.
    apply Forall_store; [exact Hrest |].
    exists key, st, (length (InMemoryAdapter.events st)).
    simpl. rewrite firstn_all, <- Hrec. repeat split. exact Hfree. }
  unfold rebuildState.
  destruct sourcingMode; [split; [reflexivity | exact Hco] | |].
  - specialize (Hgoal false eq_refl). cbv zeta in Hgoal.
    destruct (fetchAndMerge c _ _) as [cacheValue cache'].
    cbn [fst snd] in *. destruct Hgoal as [-> Hco']. now split.
  - specialize (Hgoal true eq_refl). cbv zeta in Hgoal.
    destruct (fetchAndMerge c _ _) as [cacheValue cache'].
    cbn [fst snd] in *. destruct Hgoal as [-> Hco']. now split.
Qed.

End CacheTransparency.

Section RouterCacheTransparency.
Import Event Command StateRebuildingCache EventTypeResolver CommandRouter.
Import StoreInvariant CacheCoherence.

Variable cfg : CommandRouterConfig.

Lemma issued_ids st :
  issued st ->
  List.NoDup (map id (InMemoryAdapter.events st)) /\
  Forall (fun e => id e <> ""%string) (InMemoryAdapter.events st).
Proof.
  intros [Hnd Hall]. split; [exact Hnd |].
  eapply List.Forall_impl; [| exact Hall].
  intros e (k & _ & ->). discriminate.
Qed.

Lemma publishCaptured_view subject metadata captured w1 w2 :
  view w1 = view w2 ->
  fst (publishCaptured cfg subject metadata captured w1)
  = fst (publishCaptured cfg subject metadata captured w2) /\
  view (snd (publishCaptured cfg subject metadata captured w1))
  = view (snd (publishCaptured cfg subject metadata captured w2)).
Proof.
  destruct w1 as [s1 c1 t1 e1], w2 as [s2 c2 t2 e2]. unfold view. simpl.
  intros [= -> -> ->]. unfold publishCaptured.
  destruct captured as [| c0 rest]; [now split |].
  destruct (mapExc _ _); [| now split]. simpl.
  destruct (InMemoryAdapter.publishEvents _ _ _ _) as [[published st'] |];
    now split.
Qed.

Lemma publishCaptured_issued subject metadata captured w :
  issued (eventStore w) ->
  issued (eventStore (snd (publishCaptured cfg subject metadata captured w))).
Proof.
  intros Hst. unfold publishCaptured.
  destruct captured as [| c0 rest]; [exact Hst |].
  destruct (mapExc _ _) as [eventsToPublish |]; [| exact Hst]. cbv zeta.
  unfold InMemoryAdapter.publishEvents.
  destruct (InMemoryAdapter.checkPreconditions _ _) as [[] |];
    cbn [Js.bind]; [| exact Hst].
  pose proof (publishLoop_issued (clock w) eventsToPublish _ Hst) as H.
  now destruct (InMemoryAdapter.publishLoop _ _ _).
Qed.

Lemma publishCaptured_grows subject metadata captured w :
  exists added,
    InMemoryAdapter.events
      (eventStore (snd (publishCaptured cfg subject metadata captured w)))
    = InMemoryAdapter.events (eventStore w) ++ added.
Proof.
  destruct (publishCaptured_store cfg subject metadata captured w) as [_ H].
  destruct (fst (publishCaptured cfg subject metadata captured w)).
  - destruct H as (added & Hev & _). now exists added.
  - exists []. now rewrite H, app_nil_r.
Qed.

(** Where the store and the cache of a send come from. *)
Lemma send_collaborators command metadata w :
  (eventStore (snd (send cfg command metadata w)) = eventStore w \/
   exists captured w2,
     eventStore w2 = eventStore w /\
     eventStore (snd (send cfg command metadata w))
     = eventStore (snd (publishCaptured cfg (getSubject command) metadata
                          captured w2))) /\
  stateCache (snd (send cfg command metadata w))
  = match commandHandlerFor cfg (commandName command) with
    | Some definition =>
        snd (rebuildState cfg (eventStore w) (stateCache w)
               (getSubject command) (ch_instanceClass definition)
               (ch_sourcingMode definition))
    | None => stateCache w
    end.
Proof.
  unfold send.
  destruct (commandHandlerFor cfg (commandName command)) as [definition |];
    [| split; [now left | reflexivity]].
  destruct (rebuildState _ _ _ _ _ _) as [rebuilt cache']. cbv zeta.
  destruct (validateSubjectCondition _ _ _ _);
    [| split; [now left | reflexivity]].
  destruct (runHandler _ _ _ _) as [captured [result | e]];
    [| split; [now left | reflexivity]].
  destruct (replayCaptured _ _ _ _ _); [| split; [now left | reflexivity]].
  set (w2 := withEffect (withCache w cache')
               (HandlerInvoked (commandName command))).
  pose proof (publishCaptured_cache cfg (getSubject command) metadata captured
                w2) as Hcache.
  assert (Hstore : exists captured0 w0,
             eventStore w0 = eventStore w /\
             eventStore (snd (publishCaptured cfg (getSubject command) metadata
                                captured w2))
             = eventStore (snd (publishCaptured cfg (getSubject command)
                                  metadata captured0 w0)))
    by (exists captured, w2; now split).
  destruct (publishCaptured cfg (getSubject command) metadata captured w2)
    as [[[] | e] w3]; cbn [fst snd] in *; (split; [now right | exact Hcache]).
Qed.

Lemma send_issued command metadata w :
  issued (eventStore w) ->
  issued (eventStore (snd (send cfg command metadata w))).
Proof.
  intros Hst.
  destruct (send_collaborators command metadata w)
    as [[-> | (captured & w2 & Hw2 & ->)] _]; [exact Hst |].
  apply publishCaptured_issued. now rewrite Hw2.
Qed.

Lemma send_grows command metadata w :
  exists added,
    InMemoryAdapter.events (eventStore (snd (send cfg command metadata w)))
    = InMemoryAdapter.events (eventStore w) ++ added.
Proof.
  destruct (send_collaborators command metadata w)
    as [[-> | (captured & w2 & Hw2 & ->)] _].
  - exists []. now rewrite app_nil_r.
  - rewrite <- Hw2. apply publishCaptured_grows.
Qed.

(** send reads the cache only through rebuildState. *)
Lemma send_view command metadata w1 w2 :
  view w1 = view w2 ->
  (forall definition,
     commandHandlerFor cfg (commandName command) = Some definition ->
     fst (rebuildState cfg (eventStore w1) (stateCache w1)
            (getSubject command) (ch_instanceClass definition)
            (ch_sourcingMode definition))
     = fst (rebuildState cfg (eventStore w2) (stateCache w2)
              (getSubject command) (ch_instanceClass definition)
              (ch_sourcingMode definition))) ->
  fst (send cfg command metadata w1) = fst (send cfg command metadata w2) /\
  view (snd (send cfg command metadata w1))
  = view (snd (send cfg command metadata w2)).
Proof.
  intros Hview Hrebuilt. unfold send.
  destruct (commandHandlerFor cfg (commandName command)) as [definition |];
    [| now split].
  specialize (Hrebuilt definition eq_refl).
  destruct (rebuildState cfg (eventStore w1) _ _ _ _) as [rebuilt cache1].
  destruct (rebuildState cfg (eventStore w2) _ _ _ _) as [rebuilt2 cache2].
  cbn [fst] in Hrebuilt. subst rebuilt2. cbv zeta.
  assert (Hview1 : view (withCache w1 cache1) = view (withCache w2 cache2))
    by exact Hview.
  destruct (validateSubjectCondition _ _ _ _); [| now split].
  destruct (runHandler _ _ _ _) as [captured [result | e]].
  - assert (Hview2 :
             view (withEffect (withCache w1 cache1)
                     (HandlerInvoked (commandName command)))
             = view (withEffect (withCache w2 cache2)
                       (HandlerInvoked (commandName command)))).
    { unfold view in *. simpl in *. now injection Hview as -> -> ->. }
    destruct (replayCaptured _ _ _ _ _); [| now split].
    destruct (publishCaptured_view (getSubject command) metadata captured
                _ _ Hview2) as [Hres Hafter].
    destruct (publishCaptured cfg _ _ _
                (withEffect (withCache w1 cache1) _)) as [r1 w1'].
    destruct (publishCaptured cfg _ _ _
                (withEffect (withCache w2 cache2) _)) as [r2 w2'].
    cbn [fst snd] in *. subst r2. now destruct r1.
  - split; [reflexivity |].
    unfold view in *. simpl in *. now injection Hview as -> -> ->.
Qed.

Lemma rebuildState_without_cache st subject instanceClass sourcingMode :
  snd (rebuildState cfg st NoStateRebuildingCache subject instanceClass
         sourcingMode)
  = NoStateRebuildingCache.
Proof. now destruct sourcingMode. Qed.

Lemma sendAll_coherent commands :
  (forall definition, In definition (commandHandlers cfg) ->
                      colonFree (ch_instanceClass definition)) ->
  forall cached plain,
    view cached = view plain ->
    stateCache plain = NoStateRebuildingCache ->
    issued (eventStore cached) ->
    coherent cfg (eventStore cached) (stateCache cached) ->
    fst (sendAll cfg commands cached) = fst (sendAll cfg commands plain) /\
    view (snd (sendAll cfg commands cached))
    = view (snd (sendAll cfg commands plain)).
Proof.
  intros Hfree.
  induction commands as [| [command metadata] commands IH];
    intros cached plain Hview Hplain Hissued Hco; [now split |].
  cbn [sendAll].
  assert (Hstore : eventStore cached = eventStore plain)
    by (unfold view in Hview; congruence).
  destruct (issued_ids _ Hissued) as [Hnd Hids].
  destruct (send_view command metadata cached plain Hview) as [Hres Hafter].
  { intros definition Hdef. rewrite <- Hstore, Hplain.
    apply rebuildState_coherent; try assumption.
    apply Hfree. now apply commandHandlerFor_registered with (name := commandName command). }
  destruct (send_collaborators command metadata cached) as [_ Hcache].
  destruct (send_collaborators command metadata plain) as [_ Hcache'].
  pose proof (send_issued command metadata cached Hissued) as Hissued'.
  destruct (send_grows command metadata cached) as [added Hgrow].
  destruct (send cfg command metadata cached) as [r1 cached1].
  destruct (send cfg command metadata plain) as [r2 plain1].
  cbn [fst snd] in *.
  destruct (IH cached1 plain1) as [Hrest Hlast]; try assumption.
  - rewrite Hcache'.
    destruct (commandHandlerFor cfg (commandName command));
      [| exact Hplain].
    rewrite Hplain. apply rebuildState_without_cache.
  - apply coherent_grows with (st := eventStore cached) (added := added);
      [exact Hgrow |].
    rewrite Hcache.
    destruct (commandHandlerFor cfg (commandName command)) as [definition |]
      eqn:Hdef; [| exact Hco].
    apply rebuildState_coherent; try assumption.
    apply Hfree. now apply commandHandlerFor_registered with (name := commandName command).
  - destruct (sendAll cfg commands cached1) as [rs1 w1].
    destruct (sendAll cfg commands plain1) as [rs2 w2].
    cbn [fst snd] in *. split; [congruence | exact Hlast].
Qed.

(** X15: InMemoryStateCache changes nothing a caller or the store can see.
    Over a store whose ids the adapter issued, and with instance class
    names free of colons, any sequence of sends gives the same result for
    every command, the same store and the same handler and publish calls
    whether the router rebuilds through an InMemoryStateCache of any
    capacity or through NoStateRebuildingCache. *)
Theorem cache_is_transparent now capacity st
  (commands : list (Command * JsRecord)) :
  issued st ->
  (forall definition, In definition (commandHandlers cfg) ->
                      colonFree (ch_instanceClass definition)) ->
  let start := fun cache =>
    {| eventStore := st; stateCache := cache; clock := now; effects := [] |} in
  let cached :=
    sendAll cfg commands (start (InMemory (newInMemoryStateCache capacity))) in
  let plain := sendAll cfg commands (start NoStateRebuildingCache) in
  fst cached = fst plain /\
  eventStore (snd cached) = eventStore (snd plain) /\
  effects (snd cached) = effects (snd plain).
Proof.
  intros Hissued Hfree start cached plain.
  destruct (sendAll_coherent commands Hfree
              (start (InMemory (newInMemoryStateCache capacity)))
              (start NoStateRebuildingCache)) as [Hres Hview];
    try reflexivity; try assumption.
  - constructor.
  - fold cached plain in Hres, Hview. unfold view in Hview.
    split; [exact Hres |]. split; congruence.
Qed.

End RouterCacheTransparency.

Section RouterCacheTransparencyCases.
Import Event Command StateRebuildingCache CommandRouter.
Import StoreInvariant CacheCoherence.

Lemma cache_is_transparent_witness :
  let commands :=
    [(Samples.command "CreateTask" (Some SubjectCondition.NEW), ∅);
     (Samples.command "RenameTask" (Some SubjectCondition.EXISTS), ∅);
     (Samples.command "InspectTask" None, ∅)] in
  let start := fun cache =>
    {| eventStore := InMemoryAdapter.empty; stateCache := cache;
       clock := "2024-01-01T00:00:00Z"; effects := [] |} in
  fst (sendAll Samples.taskRouter commands
         (start (InMemory (newInMemoryStateCache 1))))
  = fst (sendAll Samples.taskRouter commands (start NoStateRebuildingCache)).
Proof.
  intros commands start.
  apply (cache_is_transparent Samples.taskRouter "2024-01-01T00:00:00Z" 1
           InMemoryAdapter.empty commands).
  - split; constructor.
  - intros definition Hin. simpl in Hin.
    decompose [or] Hin; subst; try reflexivity; contradiction.
Defined.

(** The three sends of the sample: the task is created, renamed and then
    read back with its new title. *)
Example sample_sends :
  fst (sendAll Samples.taskRouter
         [(Samples.command "CreateTask" (Some SubjectCondition.NEW), ∅);
          (Samples.command "RenameTask" (Some SubjectCondition.EXISTS), ∅);
          (Samples.command "InspectTask" None, ∅)]
         {| eventStore := InMemoryAdapter.empty;
            stateCache := InMemory (newInMemoryStateCache 1);
            clock := "2024-01-01T00:00:00Z"; effects := [] |})
  = [Js.Ok (JStr "t1"); Js.Ok JNull; Js.Ok (JStr "Sign in")].
Proof. vm_compute. reflexivity. Qed.

End RouterCacheTransparencyCases.

Section UnreachableTracker.
Import Event EventTypeResolver EventHandlingProcessor.
Import ProgressTracker.

Context {T W : Type}.

Lemma retryLoop_keeps_tracker (cfg : EventHandlingProcessorConfig T W)
  rawEvent remaining :
  (forall progress t, exists e,
      proceed (progressTracker cfg) (group cfg) (partition cfg) progress t
      = Js.Throw e) ->
  forall attempts (st : State T W),
    tracker (retryLoop cfg remaining attempts rawEvent st).1.1 = tracker st /\
    stopRequested (retryLoop cfg remaining attempts rawEvent st).1.1
    = stopRequested st.
Proof.
  intros Hrej. induction remaining as [| m IH]; intros attempts st;
    [now split |].
  cbn [retryLoop].
  assert (Hone : exists e,
             processEvent cfg rawEvent st
             = (fold_left (handleUpcasted cfg) (upcastRaw cfg rawEvent)
                  (emit st (ProcessEventCalled (id rawEvent))),
                Js.Throw e)).
  { unfold processEvent, commit.
    destruct (Hrej {| eventId := Some (id rawEvent) |}
                (tracker (fold_left (handleUpcasted cfg)
                            (upcastRaw cfg rawEvent)
                            (emit st (ProcessEventCalled (id rawEvent))))))
      as [e He].
    rewrite He. now exists e. }
  destruct Hone as [e ->].
  destruct (fold_handleUpcasted_handlingOnly cfg (upcastRaw cfg rawEvent)
              (emit st (ProcessEventCalled (id rawEvent))))
    as (Ht & Hs & _ & _).
  cbv zeta. rewrite (proj1 (IH _ _)), (proj2 (IH _ _)).
  destruct (_ <? _)%Z; cbn [emit tracker stopRequested]; now rewrite Ht, Hs.
Qed.

(** X16: the retry loop is what meets a failing progress tracker.  When
    every [proceed] is rejected and the stream's first event belongs to the
    processor's partition, one turn of run attempts that event maxRetries
    times, sleeping retryDelay, 2 retryDelay, 4 retryDelay, ... between the
    attempts, logs the failure with the number of attempts, fails again on
    the closing progress commit, logs the loop error and sleeps retryDelay
    once more; the tracker is as it was, so the next turn starts at the
    same event. *)
Theorem unreachable_tracker_backs_off (cfg : EventHandlingProcessorConfig T W)
  (store : InMemoryAdapter.t) (st : State T W) rawEvent later :
  (forall progress t, exists e,
      proceed (progressTracker cfg) (group cfg) (partition cfg) progress t
      = Js.Throw e) ->
  stopRequested st = false ->
  InMemoryAdapter.observeEvents store (subject cfg)
    (CommandRouter.streamOptionsFrom
       (eventId (current (progressTracker cfg) (group cfg) (partition cfg)
                   (tracker st))))
    (Some (recursiveOf cfg))
  = rawEvent :: later ->
  partitionKeyResolver cfg (resolveSequenceId cfg rawEvent None rawEvent)
  = partition cfg ->
  let st' := runIteration cfg store st in
  tracker st' = tracker st /\
  stopRequested st' = false /\
  attemptsIn (trace st')
  = attemptsIn (trace st) + Z.to_nat (maxRetriesOf cfg) /\
  delaysIn (trace st')
  = delaysIn (trace st)
    ++ map (backoff cfg) (seq 0 (Z.to_nat (maxRetriesOf cfg) - 1))
    ++ [retryDelayOf cfg] /\
  exists earlier,
    trace st'
    = earlier ++ [ErrorLogged (id rawEvent) (Z.max 0 (maxRetriesOf cfg));
                  LoopErrorLogged; Slept (retryDelayOf cfg)].
Proof.
  intros Hrej Hrun Hobserved Hown st'. unfold st', runIteration.
  change (match Js.orNull (eventId (current (progressTracker cfg) (group cfg)
                                      (partition cfg) (tracker st))) with
          | Some lower =>
              Some {| InMemoryAdapter.lowerBound := Some lower;
                      InMemoryAdapter.includeLowerBound := Some false;
                      InMemoryAdapter.upperBound := None;
                      InMemoryAdapter.includeUpperBound := None;
                      InMemoryAdapter.latestByEventType := None |}
          | None => None
          end)
    with (CommandRouter.streamOptionsFrom
            (eventId (current (progressTracker cfg) (group cfg)
                        (partition cfg) (tracker st)))).
  rewrite Hobserved. cbn [observeLoop]. rewrite Hrun.
  unfold onObserved. rewrite Hown, Z.eqb_refl. cbn [negb].
  unfold processEventWithRetry.
  destruct (retry_backoff_when_attempts_fail cfg rawEvent st Hrej)
    as (st1 & Hloop & Ha & Hd).
  destruct (retryLoop_keeps_tracker cfg rawEvent
              (Z.to_nat (maxRetriesOf cfg)) Hrej 0%Z st) as [Ht Hs].
  rewrite Hloop in *. cbn [fst] in Ht, Hs.
  unfold commit.
  destruct (Hrej {| eventId := Some (id rawEvent) |}
              (tracker (emit st1 (ErrorLogged (id rawEvent)
                                    (Z.max 0 (maxRetriesOf cfg))))))
    as [e He].
  rewrite He. cbn [emit tracker stopRequested trace].
  rewrite Ht, Hs, Hrun. repeat split.
  - rewrite !attemptsIn_app, Ha.
    change (attemptsIn [ErrorLogged (id rawEvent)
                          (Z.max 0 (maxRetriesOf cfg))]) with 0.
    change (attemptsIn [@LoopErrorLogged]) with 0.
    change (attemptsIn [Slept (retryDelayOf cfg)]) with 0. lia.
  - rewrite !delaysIn_app, Hd. cbn. now rewrite !app_nil_r, <- app_assoc.
  - exists (trace st1). now rewrite <- !app_assoc.
Qed.

End UnreachableTracker.

Section UnreachableTrackerCases.
Import Event EventTypeResolver EventHandlingProcessor.

Lemma unreachable_tracker_backs_off_witness :
  let cfg :=
    {| group := "task-list";
       eventTypeResolver := Samples.taskResolver;
       eventDataMarshaller := Samples.plainMarshaller;
       eventHandlers := [Samples.alwaysThrows];
       progressTracker := Samples.unreachableTracker;
       partitionKeyResolver := fun _ => 0%Z;
       eventSequenceResolver := ForRawEvent Event.subject;
       subject := "/task";
       recursive := None;
       partition := 0;
       upcasters := None;
       retryDelay := None;
       maxRetries := None |} in
  let st := {| tracker := tt; readModel := tt; stopRequested := false;
               trace := [] |} in
  delaysIn (trace (runIteration cfg (Samples.storeOf [Samples.createdEvent])
                     st))
  = [1000%Z; 2000%Z; 1000%Z].
Proof.
  intros cfg st.
  apply (unreachable_tracker_backs_off cfg
           (Samples.storeOf [Samples.createdEvent]) st
           Samples.createdEvent []).
  - intros progress t. now exists "connection refused"%string.
  - reflexivity.
  - reflexivity.
  - reflexivity.
Defined.

End UnreachableTrackerCases.

Section ProcessorCatchesUp.
Import Event EventTypeResolver EventHandlingProcessor.
Import ProgressTracker InMemoryAdapter.

Context {W : Type}.

Lemma findIndex_some {A} (p : A -> bool) (l : list A) i :
  findIndex p l = Some i ->
  exists before x after,
    l = before ++ x :: after /\ length before = i /\ p x = true.
Proof.
  revert i. induction l as [| y l IH]; intros i; simpl; [discriminate |].
  destruct (p y) eqn:Hy.
  - intros [= <-]. now exists [], y, l.
  - destruct (findIndex p l) as [j |]; simpl; [| discriminate].
    intros [= <-]. destruct (IH j eq_refl) as (b & x & a & -> & <- & Hx).
    now exists (y :: b), x, a.
Qed.

Lemma orNull_some (x : option string) (s : string) :
  Js.orNull x = Some s -> x = Some s /\ Js.orNull (Some s) = Some s.
Proof.
  destruct x as [t |]; simpl; [| discriminate].
  destruct (Js.truthy t) eqn:Ht; [| discriminate].
  intros [= <-]. split; [reflexivity |]. simpl. now rewrite Ht.
Qed.

(** What a processor observes after its recorded progress: nothing when the
    progress is the id of the last event in scope, else a run of events that
    ends with the last event in scope. *)
Lemma observed_after_progress st subject recursive before e progressId :
  filterEventsBySubject st subject recursive = before ++ [e] ->
  let observed :=
    observeEvents st subject (CommandRouter.streamOptionsFrom progressId)
      (Some recursive) in
  (observed = [] /\ progressId = Some (id e)) \/
  (exists init, observed = init ++ [e]).
Proof.
  intros Hscope observed. unfold observed, observeEvents, streamEvents,
    CommandRouter.streamOptionsFrom.
  destruct (Js.orNull progressId) as [lower |] eqn:Hp.
  - apply orNull_some in Hp as [-> Hlower].
    unfold applyLatestByEventType, applyUpperBound, applyLowerBound.
    cbn [mbind option_bind lowerBound upperBound latestByEventType
         includeLowerBound flag default Datatypes.id].
    change (Js.orNull None) with (@None string). rewrite Hlower.
    cbn [default]. unfold Datatypes.id. rewrite Hscope.
    destruct (findIndex _ (before ++ [e])) as [i |] eqn:Hfind;
      [| right; now exists before].
    apply findIndex_some in Hfind as (b & x & a & Hsplit & <- & Hx).
    apply String.eqb_eq in Hx.
    rewrite Hsplit, Nat.add_1_r.
    change (x :: a) with ([x] ++ a). rewrite app_assoc.
    rewrite skipn_app, skipn_all2 by (rewrite length_app; simpl; lia).
    rewrite length_app. simpl.
    replace (S (length b) - (length b + 1)) with 0 by lia. simpl.
    induction a as [| l a' _] using rev_ind.
    + left. split; [reflexivity |].
      apply app_inj_tail in Hsplit as [_ <-]. now rewrite Hx.
    + right. exists a'.
      change (b ++ x :: a' ++ [l]) with (b ++ (x :: a') ++ [l]) in Hsplit.
      rewrite app_assoc in Hsplit.
      apply app_inj_tail in Hsplit as [_ <-]. reflexivity.
  - right. now exists before.
Qed.

Lemma onObserved_in_memory
  (cfg : EventHandlingProcessorConfig (gmap string Progress) W) rawEvent
  (st : State (gmap string Progress) W) :
  progressTracker cfg = InMemoryProgressTracker ->
  exists st',
    onObserved cfg rawEvent st = (st', Js.Ok tt) /\
    stopRequested st' = stopRequested st /\
    current InMemoryProgressTracker (group cfg) (partition cfg) (tracker st')
    = {| eventId := Some (id rawEvent) |}.
Proof.
  intros Htr. unfold onObserved.
  destruct (negb _).
  - rewrite commit_in_memory by exact Htr. eexists. split; [reflexivity |].
    simpl. now rewrite lookup_insert_eq.
  - unfold processEventWithRetry.
    destruct (Z.to_nat (maxRetriesOf cfg)) as [| remaining].
    + cbn [retryLoop]. rewrite commit_in_memory by exact Htr.
      eexists. split; [reflexivity |]. simpl. now rewrite lookup_insert_eq.
    + destruct (processEvent_in_memory cfg rawEvent st Htr)
        as (st' & Hp & Hs & _ & _ & Hc).
      exists st'. cbn [retryLoop]. rewrite Hp. auto.
Qed.

Lemma observeLoop_in_memory
  (cfg : EventHandlingProcessorConfig (gmap string Progress) W) observed :
  progressTracker cfg = InMemoryProgressTracker ->
  forall st : State (gmap string Progress) W,
    stopRequested st = false ->
    exists st',
      observeLoop cfg observed st = (st', Js.Ok tt) /\
      stopRequested st' = false /\
      forall init l,
        observed = init ++ [l] ->
        current InMemoryProgressTracker (group cfg) (partition cfg)
          (tracker st')
        = {| eventId := Some (id l) |}.
Proof.
  intros Htr. induction observed as [| x rest IH]; intros st Hrun.
  - exists st. repeat split; [exact Hrun |].
    intros init l H. now destruct init.
  - cbn [observeLoop]. rewrite Hrun.
    destruct (onObserved_in_memory cfg x st Htr) as (st1 & -> & Hs & Hc).
    rewrite Hrun in Hs. destruct (IH st1 Hs) as (st' & Hloop & Hs' & Hlast).
    exists st'. split; [exact Hloop |]. split; [exact Hs' |].
    intros init l Hsplit. destruct rest as [| y rest'].
    + simpl in Hloop. injection Hloop as <-.
      destruct init as [| i init']; simpl in Hsplit.
      * now injection Hsplit as <-.
      * injection Hsplit as _ Hnil. now destruct init'.
    + destruct init as [| i init']; simpl in Hsplit.
      * discriminate.
      * injection Hsplit as _ Hrest. now apply (Hlast init').
Qed.

(** X17: with the in-memory tracker, one turn of run catches the processor
    up: whatever the handlers do, the recorded progress is afterwards the id
    of the last event in the processor's scope, and a further turn over the
    unchanged store observes nothing and changes nothing: no handler runs
    a second time. *)
Theorem processor_catches_up
  (cfg : EventHandlingProcessorConfig (gmap string Progress) W)
  (store : InMemoryAdapter.t) (st : State (gmap string Progress) W)
  before e :
  progressTracker cfg = InMemoryProgressTracker ->
  stopRequested st = false ->
  filterEventsBySubject store (subject cfg) (recursiveOf cfg) = before ++ [e] ->
  List.NoDup (map id (before ++ [e])) ->
  id e <> ""%string ->
  let st1 := runIteration cfg store st in
  current InMemoryProgressTracker (group cfg) (partition cfg) (tracker st1)
  = {| eventId := Some (id e) |} /\
  runIteration cfg store st1 = st1.
Proof.
  intros Htr Hrun Hscope Hnodup Hid st1.
  assert (Hturn : forall s : State (gmap string Progress) W,
             runIteration cfg store s
             = match observeLoop cfg
                       (observeEvents store (subject cfg)
                          (CommandRouter.streamOptionsFrom
                             (eventId (current (progressTracker cfg)
                                         (group cfg) (partition cfg)
                                         (tracker s))))
                          (Some (recursiveOf cfg))) s with
               | (s', Js.Ok _) => s'
               | (s', Js.Throw _) =>
                   emit (emit s' LoopErrorLogged) (Slept (retryDelayOf cfg))
               end) by reflexivity.
  assert (Hprogress :
            current InMemoryProgressTracker (group cfg) (partition cfg)
              (tracker st1)
            = {| eventId := Some (id e) |}).
  { unfold st1. rewrite Hturn.
    destruct (observed_after_progress store (subject cfg) (recursiveOf cfg)
                before e
                (eventId (current (progressTracker cfg) (group cfg)
                            (partition cfg) (tracker st))) Hscope)
      as [[-> Hcaught] | [init Hobserved]].
    - cbn [observeLoop]. rewrite Htr in Hcaught.
      destruct (current InMemoryProgressTracker _ _ _) as [i].
      simpl in Hcaught. now subst i.
    - rewrite Hobserved.
      destruct (observeLoop_in_memory cfg (init ++ [e]) Htr st Hrun)
        as (st' & -> & _ & Hlast).
      now apply (Hlast init). }
  split; [exact Hprogress |].
  rewrite Hturn, Htr, Hprogress. cbn [eventId].
  unfold observeEvents.
  rewrite (stream_after_lower_bound store (subject cfg) (recursiveOf cfg)
             before e [] Hscope Hnodup Hid).
  reflexivity.
Qed.

End ProcessorCatchesUp.

Section ProcessorCatchesUpCases.
Import Event EventHandlingProcessor ProgressTracker.

Lemma processor_catches_up_witness :
  let store := Samples.storeOf [Samples.poisonEvent; Samples.nextEvent] in
  let st1 := runIteration Samples.poisonedProcessor store Samples.idle in
  current InMemoryProgressTracker "task-list" 4 (tracker st1)
  = {| eventId := Some "8"%string |} /\
  runIteration Samples.poisonedProcessor store st1 = st1.
Proof.
  intros store st1.
  apply (processor_catches_up Samples.poisonedProcessor store Samples.idle
           [Samples.poisonEvent] Samples.nextEvent).
  - reflexivity.
  - reflexivity.
  - reflexivity.
  - repeat constructor; simpl; intuition discriminate.
  - discriminate.
Defined.

End ProcessorCatchesUpCases.

Section ProgressKeys.
Import ProgressTracker CacheCoherence.

Lemma hasColon_pretty_N_go (x : N) :
  forall s, hasColon (pretty_N_go x s) = hasColon s.
Proof.
  induction (N.lt_wf_0 x) as [x _ IH]; intros s.
  destruct (decide (x = 0)%N) as [-> | Hpos]; [reflexivity |].
  rewrite pretty_N_go_step by lia.
  rewrite IH by (apply N.div_lt; lia).
  unfold pretty_N_char. now repeat case_match.
Qed.

Lemma hasColon_pretty_N (x : N) : hasColon (pretty x) = false.
Proof.
  unfold pretty, pretty_N. destruct (decide (x = 0)%N); [reflexivity |].
  apply hasColon_pretty_N_go.
Qed.

(** A printed number holds no colon. *)
Lemma colonFree_pretty_Z (x : Z) : colonFree (pretty x).
Proof.
  unfold colonFree. destruct x as [| p | p]; [reflexivity | |].
  - apply (hasColon_pretty_N (Npos p)).
  - change (pretty (Zneg p)) with (String "-" (pretty (Npos p))).
    simpl. apply (hasColon_pretty_N (Npos p)).
Qed.

Lemma key_same (group1 group2 : string) (partition1 partition2 : Z) :
  key group1 partition1 = key group2 partition2 ->
  group1 = group2 /\ partition1 = partition2.
Proof.
  unfold key. intros H.
  apply colon_split in H as [-> Hp]; try apply colonFree_pretty_Z.
  split; [reflexivity |]. now apply (inj pretty) in Hp.
Qed.

(** X18: InMemoryProgressTracker keeps one position per group and
    partition.  [proceed] never fails, [current] then returns the progress
    just stored, and the progress of every other group or partition is what
    it was, whatever characters the group names hold. *)
Theorem progress_kept_per_group_and_partition (group1 group2 : string)
  (partition1 partition2 : Z) (newProgress : Progress)
  (progress : gmap string Progress) :
  exists progress',
    proceed InMemoryProgressTracker group1 partition1 newProgress progress
    = Js.Ok progress' /\
    current InMemoryProgressTracker group1 partition1 progress' = newProgress /\
    ((group1, partition1) <> (group2, partition2) ->
     current InMemoryProgressTracker group2 partition2 progress'
     = current InMemoryProgressTracker group2 partition2 progress).
Proof.
  eexists. split; [reflexivity |]. simpl. split.
  - now rewrite lookup_insert_eq.
  - intros Hne. rewrite lookup_insert_ne; [reflexivity |].
    intros Hkey. apply key_same in Hkey as [-> ->]. now apply Hne.
Qed.

End ProgressKeys.

Section SubjectLevels.
Import Event SequenceResolvers.

Lemma split_cons (s : string) : exists part parts, split s = part :: parts.
Proof.
  induction s as [| c s (part & parts & IH)]; simpl; [now eexists _, _ |].
  destruct (Ascii.eqb c "/"); [now eexists _, _ |].
  rewrite IH. now eexists _, _.
Qed.

Lemma split_slash_free (s : string) :
  Forall (fun p => hasSlash p = false) (split s).
Proof.
  induction s as [| c s IH]; simpl; [now repeat constructor |].
  destruct (Ascii.eqb c "/") eqn:Hc; [now constructor |].
  destruct (split s) as [| part parts]; [now repeat constructor; simpl; rewrite Hc |].
  inversion IH; subst. constructor; [| assumption]. simpl. now rewrite Hc.
Qed.

Lemma split_app (a b : string) :
  split (a ++ String "/" b)%string = split a ++ split b.
Proof.
  induction a as [| c a IH].
  - reflexivity.
  - change (String c a ++ String "/" b)%string
      with (String c (a ++ String "/" b)%string).
    cbn [split]. rewrite IH.
    destruct (Ascii.eqb c "/"); [reflexivity |].
    destruct (split_cons a) as (part & parts & ->). reflexivity.
Qed.

Lemma split_free (s : string) : hasSlash s = false -> split s = [s].
Proof.
  induction s as [| c s IH]; simpl; [reflexivity |].
  destruct (Ascii.eqb c "/"); simpl; [discriminate |].
  intros H. now rewrite IH.
Qed.

Lemma isSegment_parts (p : string) :
  isSegment p = true -> nonEmpty p = true /\ hasSlash p = false.
Proof.
  unfold isSegment. intros H. apply andb_true_iff in H as [Hn Hs].
  split; [exact Hn |]. now apply negb_true_iff in Hs.
Qed.

Lemma split_join (parts : list string) :
  Forall (fun p => isSegment p = true) parts -> parts <> [] ->
  split (join parts) = parts.
Proof.
  induction 1 as [| p rest Hp Hrest IH]; intros Hne; [congruence |].
  destruct rest as [| q rest].
  - simpl. apply split_free. now apply isSegment_parts.
  - change (join (p :: q :: rest)) with (p ++ String "/" (join (q :: rest)))%string.
    rewrite split_app, IH by discriminate.
    rewrite split_free by now apply isSegment_parts. reflexivity.
Qed.

Lemma filter_segments (parts : list string) :
  Forall (fun p => isSegment p = true) parts ->
  List.filter nonEmpty parts = parts.
Proof.
  induction 1 as [| p rest Hp _ IH]; simpl; [reflexivity |].
  rewrite (proj1 (isSegment_parts p Hp)). now rewrite IH.
Qed.

(** The segments of a joined path, whatever follows it after a slash. *)
Lemma segments_of_path (parts : list string) (tail : list string) :
  Forall (fun p => isSegment p = true) parts ->
  List.filter nonEmpty (EmptyString :: split (join parts) ++ tail)
  = parts ++ List.filter nonEmpty tail.
Proof.
  intros Hparts. destruct parts as [| p rest]; [reflexivity |].
  rewrite split_join by (assumption || discriminate).
  cbn [List.filter nonEmpty String.length Nat.ltb Nat.leb].
  rewrite List.filter_app, filter_segments by assumption. reflexivity.
Qed.

Lemma segments_kept (level : Z) (s : string) :
  Forall (fun p => isSegment p = true)
         (slice0 level (List.filter nonEmpty (split s))).
Proof.
  apply List.Forall_forall. intros p Hin.
  assert (Hsub : forall n (l : list string), In p (firstn n l) -> In p l).
  { intros n l H. rewrite <- (firstn_skipn n l). apply in_or_app. now left. }
  unfold slice0 in Hin. apply Hsub in Hin.
  apply List.filter_In in Hin as [Hin Hne].
  unfold isSegment. rewrite Hne.
  now rewrite (proj1 (List.Forall_forall _ _) (split_slash_free s) p Hin).
Qed.

(** X19: the sequence id at a level of the subject hierarchy.  For a level
    that is not negative the id is a fixed point of the resolver, and every
    event on a path of [level] segments or anywhere below it gets that path
    as its sequence id, so a whole subtree is processed as one sequence. *)
Theorem level_sequence_id_covers_subtree (parts : list string)
  (rest : string) (root below : RawEvent) :
  Forall (fun p => isSegment p = true) parts ->
  subject root = ("/" ++ join parts)%string ->
  subject below = ("/" ++ join parts ++ "/" ++ rest)%string ->
  let level := Z.of_nat (length parts) in
  perConfigurableLevel level true root None = Js.Ok (subject root) /\
  perConfigurableLevel level true below None = Js.Ok (subject root) /\
  forall (depth : Z) (s : string),
    (0 <= depth)%Z -> atLevel depth (atLevel depth s) = atLevel depth s.
Proof.
  intros Hparts Hroot Hbelow level.
  assert (Hfirst : forall tail : list string,
             slice0 level (parts ++ tail) = parts).
  { intros tail. unfold slice0, level. rewrite length_app.
    destruct (_ <? 0)%Z eqn:Hneg; [apply Z.ltb_lt in Hneg; lia |].
    replace (Z.to_nat (Z.min _ _)) with (length parts) by lia.
    rewrite firstn_app, firstn_all, Nat.sub_diag. simpl.
    now rewrite app_nil_r. }
  unfold perConfigurableLevel, subjectRead. cbn [Js.bind].
  split; [| split].
  - f_equal. unfold atLevel. rewrite Hroot.
    change (split ("/" ++ join parts)%string)
      with (EmptyString :: split (join parts)).
    rewrite <- (app_nil_r (split (join parts))).
    rewrite segments_of_path by assumption. now rewrite Hfirst.
  - f_equal. unfold atLevel. rewrite Hroot, Hbelow.
    change (split ("/" ++ join parts ++ "/" ++ rest)%string)
      with (EmptyString :: split (join parts ++ String "/" rest)%string).
    rewrite split_app, segments_of_path by assumption. now rewrite Hfirst.
  - intros depth s Hdepth.
    set (kept := slice0 depth (List.filter nonEmpty (split s))).
    change (atLevel depth s) with ("/" ++ join kept)%string.
    pose proof (segments_kept depth s) as Hkept. fold kept in Hkept.
    assert (Hlen : (Z.of_nat (length kept) <= depth)%Z).
    { unfold kept, slice0. rewrite length_firstn.
      destruct (_ <? 0)%Z eqn:Hneg; [apply Z.ltb_lt in Hneg; lia | lia]. }
    unfold atLevel.
    change (split ("/" ++ join kept)%string)
      with (EmptyString :: split (join kept)).
    rewrite <- (app_nil_r (split (join kept))).
    rewrite segments_of_path by assumption. simpl List.filter.
    rewrite app_nil_r. f_equal. f_equal.
    unfold slice0. destruct (_ <? 0)%Z eqn:Hneg;
      [apply Z.ltb_lt in Hneg; lia |].
    replace (Z.to_nat (Z.min _ _)) with (length kept) by lia.
    apply firstn_all.
Qed.

Lemma level_sequence_id_covers_subtree_witness :
  perConfigurableLevel 2 true
    (Samples.rawEvent "1" "item.added" "/order/123/item/456" ∅) None
  = Js.Ok "/order/123"%string.
Proof.
  apply (level_sequence_id_covers_subtree ["order"; "123"]%string "item/456"
           (Samples.rawEvent "0" "order.placed" "/order/123" ∅)
           (Samples.rawEvent "1" "item.added" "/order/123/item/456" ∅)).
  - repeat constructor.
  - reflexivity.
  - reflexivity.
Defined.

End SubjectLevels.

Section OnePartitionPerEvent.
Import Event EventTypeResolver EventHandlingProcessor PartitionedGroup.

Context {T W : Type}.

Lemma upcastRaw_subject (cfg : EventHandlingProcessorConfig T W) rawEvent
  upcastedEvent :
  In upcastedEvent (upcastRaw cfg rawEvent) ->
  Event.subject upcastedEvent = Event.subject rawEvent.
Proof.
  unfold upcastRaw. destruct (upcasters cfg) as [chain |].
  - intros Hin. apply upcastAll_sameEnvelope in Hin. apply Hin.
  - intros [<- | []]. reflexivity.
Qed.

(** X20: with the default partition key resolver over n > 0 partitions and
    the event's subject as its sequence id, every raw event has exactly one
    partition in [0, n): the processor assigned that partition handles the
    event, and its second partition check lets every upcast result that can
    be read through to the handlers; the processor of any other partition
    only advances its progress.  No event is handled twice in a group, and
    none by nobody. *)
Theorem each_event_has_one_partition (cfg : EventHandlingProcessorConfig T W)
  (n : Z) (rawEvent : RawEvent) (st : State T W) :
  (0 < n)%Z ->
  partitionKeyResolver cfg = DefaultPartitionKeyResolver.resolve n ->
  eventSequenceResolver cfg = ForRawEvent Event.subject ->
  let owner := DefaultPartitionKeyResolver.resolve n (Event.subject rawEvent) in
  (0 <= owner < n)%Z /\
  (forall p, p <> owner ->
     onObserved (atPartition cfg p) rawEvent st
     = commit (atPartition cfg p) rawEvent st) /\
  onObserved (atPartition cfg owner) rawEvent st
  = processEventWithRetry (atPartition cfg owner) rawEvent st /\
  (forall upcastedEvent eventClass eventData (st0 : State T W),
     In upcastedEvent (upcastRaw cfg rawEvent) ->
     getClass (eventTypeResolver cfg) (type upcastedEvent) = Js.Ok eventClass ->
     deserialize (eventDataMarshaller cfg) (data upcastedEvent) eventClass
     = Js.Ok eventData ->
     tryHandle (atPartition cfg owner) upcastedEvent st0
     = callHandlers (handlersFor cfg eventClass) eventData upcastedEvent st0).
Proof.
  intros Hn Hresolver Hsequence owner.
  split; [| split; [| split]].
  - unfold owner, DefaultPartitionKeyResolver.resolve.
    now apply resolveUnits_range.
  - intros p Hp. unfold onObserved, resolveSequenceId.
    cbn [atPartition partitionKeyResolver eventSequenceResolver partition].
    rewrite Hresolver, Hsequence. fold owner.
    assert (Hneq : (owner =? p)%Z = false) by (apply Z.eqb_neq; congruence).
    now rewrite Hneq.
  - unfold onObserved, resolveSequenceId.
    cbn [atPartition partitionKeyResolver eventSequenceResolver partition].
    rewrite Hresolver, Hsequence. fold owner. now rewrite Z.eqb_refl.
  - intros upcastedEvent eventClass eventData st0 Hin Hclass Hdata.
    unfold tryHandle, resolveSequenceId.
    cbn [atPartition partitionKeyResolver eventSequenceResolver partition
         eventTypeResolver eventDataMarshaller].
    rewrite Hclass, Hdata, Hresolver, Hsequence.
    rewrite (upcastRaw_subject cfg rawEvent upcastedEvent Hin).
    fold owner. rewrite Z.eqb_refl. reflexivity.
Qed.

End OnePartitionPerEvent.

Section OnePartitionPerEventCases.
Import Event EventHandlingProcessor PartitionedGroup.

Lemma each_event_has_one_partition_witness :
  onObserved (atPartition Samples.poisonedProcessor 5%Z) Samples.poisonEvent
    Samples.idle
  = commit (atPartition Samples.poisonedProcessor 5%Z) Samples.poisonEvent
      Samples.idle.
Proof.
  refine (proj1 (proj2 (each_event_has_one_partition Samples.poisonedProcessor
                          10%Z Samples.poisonEvent Samples.idle
                          _ eq_refl eq_refl)) 5%Z _).
  - reflexivity.
  - vm_compute. discriminate.
Defined.

End OnePartitionPerEventCases.

Section LatestPerSubject.
Import Event InMemoryAdapter LatestByType.

Lemma In_get {V} k (v : V) (m : Js.JsMap V) :
  List.NoDup (map fst m) -> In (k, v) m -> Js.get k m = Some v.
Proof.
  induction m as [| [k' v'] m IH]; simpl; intros Hnd Hin; [contradiction |].
  apply List.NoDup_cons_iff in Hnd as [Hk Hm].
  destruct Hin as [[= -> ->] | Hin].
  - now rewrite String.eqb_refl.
  - destruct (String.eqb_spec k' k) as [-> | _]; [| now apply IH].
    exfalso. apply Hk. change k with (fst (k, v)). now apply in_map.
Qed.

Lemma isLatest_snoc wanted (events : list RawEvent) x e :
  isLatest wanted (events ++ [x]) e <->
  (e = x /\ type x = wanted) \/
  (isLatest wanted events e /\ ~ (type x = wanted /\ subject x = subject e)).
Proof.
  unfold isLatest. split.
  - intros (Htype & before & after & Hsplit & Hlast).
    induction after as [| y after' _] using rev_ind.
    + apply app_inj_tail in Hsplit as [_ <-]. left. now split.
    + change (before ++ e :: after' ++ [y])
        with (before ++ (e :: after') ++ [y]) in Hsplit.
      rewrite app_assoc in Hsplit.
      apply app_inj_tail in Hsplit as [-> <-]. right. split.
      * split; [exact Htype |]. exists before, after'.
        split; [reflexivity |]. intros z Hz. apply Hlast.
        apply in_or_app. now left.
      * intros [Hx Hs]. apply (Hlast x); [| exact Hx | exact Hs].
        apply in_or_app. right. now left.
  - intros [[-> Htype] | [(Htype & before & after & -> & Hlast) Hx]].
    + split; [exact Htype |]. exists events, []. split; [reflexivity |].
      intros z [].
    + split; [exact Htype |]. exists before, (after ++ [x]).
      split; [now rewrite <- app_assoc |].
      intros z Hz Hzt. apply in_app_or in Hz as [Hz | [<- | []]].
      * now apply Hlast.
      * intros Hs. apply Hx. now split.
Qed.

(** What the [latestByType] map holds after the loop over the events. *)
Lemma latestByType_holds wanted (events : list RawEvent) :
  let latestByType :=
    fold_left
      (fun latestByType event =>
         if String.eqb (type event) wanted
         then Js.set (subject event) event latestByType
         else latestByType)
      events [] in
  List.NoDup (map fst latestByType) /\
  forall k e,
    Js.get k latestByType = Some e <-> subject e = k /\ isLatest wanted events e.
Proof.
  cbv zeta. induction events as [| x events IH] using rev_ind.
  - simpl. split; [constructor |]. intros k e. split; [discriminate |].
    intros (_ & _ & before & after & Hsplit & _). now destruct before.
  - rewrite fold_left_app. cbn [fold_left].
    destruct IH as [Hnd Hget].
    match type of Hnd with
    | context [fold_left ?f events []] =>
        set (m := fold_left f events []) in *
    end.
    destruct (String.eqb_spec (type x) wanted) as [Hx | Hx].
    + split; [now apply NoDup_set |].
      intros k e. rewrite isLatest_snoc.
      destruct (String.eqb_spec (subject x) k) as [<- | Hk].
      * rewrite get_set_eq. split.
        -- intros [= <-]. split; [reflexivity |]. left. now split.
        -- intros (Hs & [[-> _] | [_ Hno]]); [reflexivity |].
           exfalso. apply Hno. split; [exact Hx | now symmetry].
      * rewrite get_set_ne by exact Hk. rewrite Hget. split.
        -- intros [Hs Hlatest]. split; [exact Hs |]. right.
           split; [exact Hlatest |]. intros [_ Hsame]. congruence.
        -- intros (Hs & [[-> _] | [Hlatest _]]); [congruence |].
           now split.
    + split; [exact Hnd |].
      intros k e. rewrite isLatest_snoc, Hget. split.
      * intros [Hs Hlatest]. split; [exact Hs |]. right.
        split; [exact Hlatest |]. now intros [Htype _].
      * intros (Hs & [[_ Htype] | [Hlatest _]]); [contradiction |].
        now split.
Qed.

(** X21: streaming with [latestByEventType].  After the subject filter and
    the bounds, the stream yields exactly the events of the wanted type that
    no later event of that type on the same subject follows, at most one per
    subject; events of every other type are dropped. *)
Theorem latest_by_event_type_per_subject st subject
  (options : StreamOptions) (recursive : option bool) (wanted : string) :
  Js.orNull (latestByEventType options) = Some wanted ->
  let bounded :=
    applyUpperBound (Some options)
      (applyLowerBound (Some options)
         (filterEventsBySubject st subject (default true recursive))) in
  let yielded := streamEvents st subject (Some options) recursive in
  List.NoDup (map Event.subject yielded) /\
  forall e, In e yielded <-> isLatest wanted bounded e.
Proof.
  intros Hwanted bounded yielded.
  unfold yielded, streamEvents. fold bounded.
  unfold applyLatestByEventType. cbn [mbind option_bind].
  rewrite Hwanted.
  destruct (latestByType_holds wanted bounded) as [Hnd Hget].
  match type of Hnd with
  | context [fold_left ?f bounded []] =>
      set (m := fold_left f bounded []) in *
  end.
  assert (Hentry : forall k e, In (k, e) m -> Event.subject e = k).
  { intros k e Hin. apply In_get in Hin; [| exact Hnd].
    now apply Hget in Hin. }
  unfold Js.values. split.
  - rewrite map_map.
    replace (map (fun x => Event.subject (snd x)) m) with (map fst m);
      [exact Hnd |].
    apply map_ext_in. intros [k e] Hin. simpl. symmetry. now apply Hentry.
  - intros e. rewrite in_map_iff. split.
    + intros ([k e'] & Heq & Hin). simpl in Heq. subst e'.
      apply In_get in Hin; [| exact Hnd]. now apply Hget in Hin.
    + intros Hlatest. exists (Event.subject e, e). split; [reflexivity |].
      apply get_In. apply Hget. now split.
Qed.

Lemma latest_by_event_type_per_subject_witness :
  In Samples.nextEvent
     (streamEvents
        (Samples.storeOf [Samples.poisonEvent; Samples.nextEvent]) "/task"
        (Some {| lowerBound := None; includeLowerBound := None;
                 upperBound := None; includeUpperBound := None;
                 latestByEventType := Some "task.created"%string |})
        None)
  <-> isLatest "task.created" [Samples.poisonEvent; Samples.nextEvent]
        Samples.nextEvent.
Proof.
  exact (proj2 (latest_by_event_type_per_subject
                  (Samples.storeOf [Samples.poisonEvent; Samples.nextEvent])
                  "/task"
                  {| lowerBound := None; includeLowerBound := None;
                     upperBound := None; includeUpperBound := None;
                     latestByEventType := Some "task.created"%string |}
                  None "task.created" eq_refl)
               Samples.nextEvent).
Defined.

End LatestPerSubject.

Section MarshallerRoundTrip.
Import Event EventTypeResolver JsonEventDataMarshaller.

Lemma assignProperty_proto (instance : JsObject) (v : Json) :
  properties instance !! "__proto__" = None ->
  setterInReach (prototype instance) = true ->
  assignProperty instance ("__proto__", v)
  = {| properties := properties instance;
       prototype := setPrototypeOf v (prototype instance) |}.
Proof.
  intros Hown Hreach. unfold assignProperty. cbn [fst snd].
  change (String.eqb "__proto__" "__proto__") with true. cbv iota.
  unfold assignProto. now rewrite Hown, Hreach.
Qed.

Lemma assignProperty_data (instance : JsObject) (k : string) (v : Json) :
  k <> "__proto__" ->
  assignProperty instance (k, v) = assignData instance k (Data v).
Proof.
  intros Hk. unfold assignProperty. cbn [fst snd].
  now destruct (String.eqb_spec k "__proto__").
Qed.

(** Assigning properties with distinct names: [__proto__] among them goes
    to the setter and never becomes a property, the others become own
    properties. *)
Lemma assign_distinct (props : list (string * Json)) (instance : JsObject) :
  NoDup props.*1 ->
  properties instance !! "__proto__" = None ->
  setterInReach (prototype instance) = true ->
  let assigned := fold_left assignProperty props instance in
  prototype assigned
  = match (list_to_map props : JsRecord) !! "__proto__" with
    | Some v => setPrototypeOf v (prototype instance)
    | None => prototype instance
    end /\
  properties assigned !! "__proto__" = None /\
  forall key, key <> "__proto__" ->
    properties assigned !! key
    = match (list_to_map props : JsRecord) !! key with
      | Some v => Some (Data v)
      | None => properties instance !! key
      end.
Proof.
  cbv zeta. revert instance.
  assert (Hdata : forall (rest : list (string * Json)) (o : JsObject),
            "__proto__" ∉ rest.*1 ->
            NoDup rest.*1 ->
            prototype (fold_left assignProperty rest o) = prototype o /\
            properties (fold_left assignProperty rest o) !! "__proto__"
            = properties o !! "__proto__" /\
            forall key, key <> "__proto__" ->
              properties (fold_left assignProperty rest o) !! key
              = match (list_to_map rest : JsRecord) !! key with
                | Some v => Some (Data v)
                | None => properties o !! key
                end).
  { induction rest as [| [k v] rest IH]; intros o Hout Hnd.
    - split; [reflexivity | split; [reflexivity |]].
      intros key _. cbn [fold_left list_to_map foldr].
      unfold JsRecord. now rewrite lookup_empty.
    - cbn [fmap list_fmap fst] in Hout, Hnd.
      apply not_elem_of_cons in Hout as [Hk Hout].
      apply NoDup_cons in Hnd as [Hfresh Hnd].
      cbn [fold_left]. rewrite assignProperty_data by congruence.
      destruct (IH (assignData o k (Data v)) Hout Hnd) as (Hp & Ho & Hkeys).
      split; [exact Hp |]. split.
      + rewrite Ho. cbn [assignData properties].
        apply lookup_insert_ne. congruence.
      + intros key Hkey. rewrite (Hkeys key Hkey).
        cbn [list_to_map foldr uncurry fst snd assignData properties].
        unfold JsRecord in *.
        destruct (decide (k = key)) as [-> | Hne].
        * rewrite (not_elem_of_list_to_map_1 _ _ Hfresh).
          now rewrite !lookup_insert_eq.
        * now rewrite !lookup_insert_ne by exact Hne. }
  induction props as [| [k v] props IH]; intros instance Hnd Hown Hreach.
  - split; [reflexivity | split; [exact Hown |]].
    intros key _. cbn [fold_left list_to_map foldr].
    unfold JsRecord. now rewrite lookup_empty.
  - cbn [fmap list_fmap fst] in Hnd.
    apply NoDup_cons in Hnd as [Hfresh Hnd].
    cbn [fold_left list_to_map foldr uncurry fst snd].
    unfold JsRecord in *.
    destruct (decide (k = "__proto__")) as [-> | Hk].
    + rewrite assignProperty_proto by assumption.
      destruct (Hdata props
                  {| properties := properties instance;
                     prototype := setPrototypeOf v (prototype instance) |}
                  Hfresh Hnd) as (Hp & Ho & Hkeys).
      rewrite lookup_insert_eq. split; [exact Hp |]. split.
      * now rewrite Ho.
      * intros key Hkey. rewrite (Hkeys key Hkey).
        now rewrite lookup_insert_ne by congruence.
    + rewrite assignProperty_data by exact Hk.
      destruct (IH (assignData instance k (Data v)) Hnd) as (Hp & Ho & Hkeys).
      { cbn [assignData properties]. now rewrite lookup_insert_ne. }
      { exact Hreach. }
      rewrite lookup_insert_ne by exact Hk.
      split; [exact Hp |]. split; [exact Ho |].
      intros key Hkey. rewrite (Hkeys key Hkey).
      cbn [assignData properties].
      destruct (decide (k = key)) as [-> | Hne].
      * rewrite (not_elem_of_list_to_map_1 _ _ Hfresh).
        now rewrite !lookup_insert_eq.
      * now rewrite !lookup_insert_ne by exact Hne.
Qed.

(** X22: JsonEventDataMarshaller round trip.  Neither direction throws.
    Deserializing what was serialized gives the metadata without its
    [payload] entry, so unchanged exactly when it had no key of that name,
    and an instance whose own properties are the event's except
    [__proto__].  The instance has the prototype of the requested class
    unless the event has a property [__proto__] holding an object or
    [null]: that value becomes the prototype instead. *)
Theorem json_marshaller_round_trip (metadata : JsRecord) (event : EventObj)
  (clazz : string) :
  exists wire result,
    serialize metadata event = Js.Ok wire /\
    deserialize wire clazz = Js.Ok result /\
    d_metadata result = delete "payload" metadata /\
    (d_metadata result = metadata <-> metadata !! "payload" = None) /\
    properties (d_payload result)
    = Data <$> delete "__proto__" (fields event) /\
    prototype (d_payload result)
    = match fields event !! "__proto__" with
      | Some v => setPrototypeOf v (OfClass clazz)
      | None => OfClass clazz
      end.
Proof.
  eexists _, _. split; [reflexivity |]. split; [reflexivity |].
  cbn [d_payload d_metadata].
  unfold JsRecord in *.
  rewrite lookup_insert_eq, delete_insert_eq.
  split; [reflexivity |]. split.
  { split.
    - intros Hsame. rewrite <- Hsame. apply lookup_delete_eq.
    - intros Hnone. now apply delete_id. }
  unfold assign, ownProperties, asJson.
  destruct (assign_distinct (map_to_list (fields event))
              {| properties := ∅; prototype := OfClass clazz |})
    as (Hp & Ho & Hkeys).
  { apply NoDup_fst_map_to_list. }
  { reflexivity. }
  { reflexivity. }
  cbn [prototype properties] in Hp, Hkeys.
  unfold JsRecord in *.
  rewrite list_to_map_to_list in Hp. split; [| exact Hp].
  apply map_eq. intros key. rewrite lookup_fmap.
  destruct (decide (key = "__proto__")) as [-> | Hkey].
  - rewrite Ho. now rewrite lookup_delete_eq.
  - rewrite (Hkeys key Hkey), list_to_map_to_list.
    rewrite lookup_delete_ne by congruence.
    now destruct (fields event !! key).
Qed.

(** A stored payload with a [__proto__] entry: the entry is not copied and
    the instance is no longer one of the requested class. *)
Example payload_proto_replaces_class :
  exists result,
    deserialize
      {[ "payload" := JObj [("title", JStr "a");
                            ("__proto__", JObj [("title", JStr "b")])] ]}
      "TaskCreated"
    = Js.Ok result /\
    properties (d_payload result) !! "title" = Some (Data (JStr "a")) /\
    properties (d_payload result) !! "__proto__" = None /\
    prototype (d_payload result) = OfPlainObject [("title", JStr "b")].
Proof. eexists. split; [reflexivity |]. now vm_compute. Qed.

End MarshallerRoundTrip.

Section HandlerDispatch.
Import Event EventTypeResolver EventHandlingProcessor.

Context {T W : Type}.

Lemma callHandlers_until_throw (earlier : list (EventHandlerDefinition W))
  thrower later eventData upcastedEvent :
  (forall d w, In d earlier ->
     snd (callHandler (eh_handler d) eventData upcastedEvent w) = Js.Ok tt) ->
  (forall w, exists e,
     snd (callHandler (eh_handler thrower) eventData upcastedEvent w)
     = Js.Throw e) ->
  forall st : State T W,
    exists st' e,
      callHandlers (earlier ++ thrower :: later) eventData upcastedEvent st
      = (st', Js.Throw e) /\
      trace st'
      = trace st
        ++ map (fun d => HandlerCalled (eh_eventClass d) (id upcastedEvent))
               (earlier ++ [thrower]) /\
      readModel st'
      = fold_left
          (fun w d => fst (callHandler (eh_handler d) eventData upcastedEvent w))
          (earlier ++ [thrower]) (readModel st) /\
      tracker st' = tracker st.
Proof.
  intros Hok Hthrow.
  induction earlier as [| d earlier IH]; intros st; cbn [app callHandlers].
  - destruct (Hthrow (readModel (emit st (HandlerCalled (eh_eventClass thrower)
                                           (id upcastedEvent))))) as [e He].
    destruct (callHandler _ _ _ _) as [w outcome] eqn:Hcall.
    cbn [snd] in He. subst outcome.
    eexists _, e. split; [reflexivity |].
    cbn [withReadModel emit trace readModel tracker fold_left app map] in *.
    rewrite Hcall. repeat split.
  - pose proof (Hok d (readModel (emit st (HandlerCalled (eh_eventClass d)
                                             (id upcastedEvent))))
                  (or_introl eq_refl)) as Hd.
    destruct (callHandler (eh_handler d) _ _ _) as [w outcome] eqn:Hcall.
    cbn [snd] in Hd. subst outcome.
    destruct (IH (fun d' w' Hin => Hok d' w' (or_intror Hin))
                (withReadModel (emit st (HandlerCalled (eh_eventClass d)
                                           (id upcastedEvent))) w))
      as (st' & e & -> & Htrace & Hmodel & Htracker).
    exists st', e. split; [reflexivity |].
    cbn [withReadModel emit trace readModel tracker] in *.
    rewrite Htrace, Hmodel, Htracker, <- app_assoc.
    cbn [map app fold_left]. cbn [emit readModel] in Hcall.
    rewrite Hcall. repeat split.
Qed.

(** X23: a throwing event handler ends the handling of its event.  Of the
    handlers registered for the event's class, those before the one that
    throws have run and their changes to the read models stay, as does
    whatever the throwing handler changed before it threw; the handlers
    registered after it are never called; the event is logged as skipped
    and the tracker is untouched by the handling. *)
Theorem throwing_handler_stops_later_handlers
  (cfg : EventHandlingProcessorConfig T W) upcastedEvent eventClass eventData
  earlier thrower later (st : State T W) :
  getClass (eventTypeResolver cfg) (type upcastedEvent) = Js.Ok eventClass ->
  deserialize (eventDataMarshaller cfg) (data upcastedEvent) eventClass
  = Js.Ok eventData ->
  partitionKeyResolver cfg
    (resolveSequenceId cfg upcastedEvent (Some (ed_payload eventData))
       upcastedEvent)
  = partition cfg ->
  handlersFor cfg eventClass = earlier ++ thrower :: later ->
  (forall d w, In d earlier ->
     snd (callHandler (eh_handler d) eventData upcastedEvent w) = Js.Ok tt) ->
  (forall w, exists e,
     snd (callHandler (eh_handler thrower) eventData upcastedEvent w)
     = Js.Throw e) ->
  let st' := handleUpcasted cfg st upcastedEvent in
  trace st'
  = trace st
    ++ map (fun d => HandlerCalled (eh_eventClass d) (id upcastedEvent))
           (earlier ++ [thrower])
    ++ [Warned (id upcastedEvent)] /\
  readModel st'
  = fold_left
      (fun w d => fst (callHandler (eh_handler d) eventData upcastedEvent w))
      (earlier ++ [thrower]) (readModel st) /\
  tracker st' = tracker st.
Proof.
  intros Hclass Hdata Hown Hhandlers Hok Hthrow st'.
  unfold st', handleUpcasted, tryHandle.
  rewrite Hclass, Hdata. cbv zeta. rewrite Hown, Z.eqb_refl. cbn [negb].
  rewrite Hhandlers.
  destruct (callHandlers_until_throw earlier thrower later eventData
              upcastedEvent Hok Hthrow st)
    as (st1 & e & -> & Htrace & Hmodel & Htracker).
  cbn [emit trace readModel tracker].
  rewrite Htrace, <- app_assoc. auto.
Qed.

End HandlerDispatch.

Section HandlerDispatchCases.
Import Event EventTypeResolver EventHandlingProcessor.

Lemma throwing_handler_stops_later_handlers_witness :
  let cfg :=
    {| group := "task-list";
       eventTypeResolver := Samples.taskResolver;
       eventDataMarshaller := Samples.plainMarshaller;
       eventHandlers := [Samples.alwaysThrows; Samples.alwaysThrows];
       progressTracker := ProgressTracker.InMemoryProgressTracker;
       partitionKeyResolver := DefaultPartitionKeyResolver.resolve 10;
       eventSequenceResolver := ForRawEvent Event.subject;
       subject := "/task";
       recursive := None;
       partition := 4;
       upcasters := None;
       retryDelay := None;
       maxRetries := None |} in
  trace (handleUpcasted cfg Samples.idle Samples.poisonEvent)
  = [HandlerCalled "TaskCreated" "7"; Warned "7"].
Proof.
  intros cfg.
  apply (throwing_handler_stops_later_handlers cfg Samples.poisonEvent
           "TaskCreated"
           {| ed_metadata := ∅;
              ed_payload := {| constructorName := "TaskCreated";
                               fields := data Samples.poisonEvent |} |}
           [] Samples.alwaysThrows [Samples.alwaysThrows] Samples.idle).
  - reflexivity.
  - reflexivity.
  - reflexivity.
  - reflexivity.
  - intros d w [].
  - intros w. now exists "read model unavailable"%string.
Defined.

End HandlerDispatchCases.

Section UnresolvableTypes.
Import Event Command StateRebuildingCache EventTypeResolver CommandRouter.

Lemma merger_unreadable cfg store subject instanceClass recursive cached :
  (forall eventType, exists err,
      getClass (eventTypeResolver cfg) eventType = Js.Throw err) ->
  merger cfg store subject instanceClass recursive cached = mergerStart cached.
Proof.
  intros Hnone. unfold merger.
  generalize (InMemoryAdapter.streamEvents store subject
                (streamOptionsFrom (eventId (mergerStart cached)))
                (Some recursive)).
  intros stream. induction stream as [| raw stream IH]; [reflexivity |].
  cbn [fold_left].
  replace (applyRaw cfg instanceClass (mergerStart cached) raw)
    with (mergerStart cached); [exact IH |].
  unfold applyRaw. generalize (upcastRaw cfg raw).
  intros upcasted. induction upcasted as [| u upcasted IHu]; [reflexivity |].
  cbn [fold_left]. unfold applyUpcasted at 2, tryApply.
  destruct (Hnone (type u)) as [err ->]. exact IHu.
Qed.

(** X24: a router whose type resolver cannot map event types back to
    classes, as ClassNameEventTypeResolver cannot, never rebuilds anything:
    the resolver's error is caught per event, so for every store, subject
    and sourcing mode the rebuild returns no instance and no last event id,
    with either cache.  A command that requires its subject to exist is
    then always rejected with the must-exist error, whatever the store
    holds. *)
Theorem unresolvable_types_rebuild_nothing cfg store capacity subject
  instanceClass sourcingMode :
  (forall eventType, exists err,
      getClass (eventTypeResolver cfg) eventType = Js.Throw err) ->
  fst (rebuildState cfg store NoStateRebuildingCache subject instanceClass
         sourcingMode)
  = {| rb_instance := None; lastEventId := None |} /\
  fst (rebuildState cfg store (InMemory (newInMemoryStateCache capacity))
         subject instanceClass sourcingMode)
  = {| rb_instance := None; lastEventId := None |} /\
  forall command metadata w definition,
    eventStore w = store ->
    stateCache w = NoStateRebuildingCache ->
    commandHandlerFor cfg (commandName command) = Some definition ->
    getSubjectCondition command = Some SubjectCondition.EXISTS ->
    rejectedBeforeHandler (mustExist (getSubject command)) w
      (send cfg command metadata w).
Proof.
  intros Hnone.
  assert (Hplain : forall subject instanceClass sourcingMode,
             fst (rebuildState cfg store NoStateRebuildingCache subject
                    instanceClass sourcingMode)
             = {| rb_instance := None; lastEventId := None |}).
  { intros s c m. unfold rebuildState.
    destruct m; [reflexivity | |]; cbn [fetchAndMerge fst];
      now rewrite merger_unreadable. }
  split; [apply Hplain |]. split.
  - unfold rebuildState.
    destruct sourcingMode; [reflexivity | |];
      rewrite fetchAndMerge_cold; cbn [fst];
      now rewrite merger_unreadable.
  - intros command metadata w definition Hstore Hcache Hdef Hcond.
    apply send_rejected with (definition := definition); [exact Hdef |].
    rewrite Hstore, Hcache, Hplain, Hcond. reflexivity.
Qed.

Lemma unresolvable_types_rebuild_nothing_witness :
  let cfg :=
    {| eventTypeResolver := ClassNameEventTypeResolver;
       eventDataMarshaller := Samples.plainMarshaller;
       commandHandlers := [Samples.handleRename];
       stateRebuildingHandlers := [Samples.onTaskCreated];
       eventSource := "samples";
       upcasters := None;
       metadataPropagation := None |} in
  fst (rebuildState cfg (Samples.storeOf [Samples.createdEvent])
         NoStateRebuildingCache "/task/t1" "Task" SourcingMode.LOCAL)
  = {| rb_instance := None; lastEventId := None |}.
Proof.
  intros cfg.
  apply (unresolvable_types_rebuild_nothing cfg
           (Samples.storeOf [Samples.createdEvent]) 1000%Z "/task/t1" "Task"
           SourcingMode.LOCAL).
  intros eventType. eexists. reflexivity.
Defined.

End UnresolvableTypes.

Section TaskReadModel.
Import TaskExample.

Lemma project_other (tasks : TaskList) (event : TaskEvent) (taskId : string) :
  taskIdOf event <> taskId ->
  getTask (project tasks event) taskId = getTask tasks taskId.
Proof.
  intros Hne. unfold getTask.
  destruct event as [i t d c | i a c | i c | i c]; simpl in *;
    unfold project_onTaskCreated, project_onTaskAssigned,
      project_onTaskStarted, project_onTaskCompleted;
    try destruct (Js.get i tasks); try reflexivity;
    now apply get_set_ne.
Qed.

Lemma project_own (tasks : TaskList) (event : TaskEvent) (task : option Task) :
  agree (getTask tasks (taskIdOf event)) task ->
  agree (getTask (project tasks event) (taskIdOf event))
        (rebuildStep task event).
Proof.
  unfold getTask, rebuildStep.
  destruct event as [i t d c | i a c | i c | i c]; simpl;
    unfold project_onTaskCreated, project_onTaskAssigned,
      project_onTaskStarted, project_onTaskCompleted.
  - intros _. rewrite get_set_eq. repeat split.
  - destruct (Js.get i tasks) as [entry |] eqn:Hget, task as [task |];
      simpl; try contradiction.
    + intros Hshow. rewrite get_set_eq. unfold agree, shows in *.
      simpl. intuition.
    + now rewrite Hget.
  - destruct (Js.get i tasks) as [entry |] eqn:Hget, task as [task |];
      simpl; try contradiction.
    + intros Hshow. rewrite get_set_eq. unfold agree, shows in *.
      simpl. intuition.
    + now rewrite Hget.
  - destruct (Js.get i tasks) as [entry |] eqn:Hget, task as [task |];
      simpl; try contradiction.
    + intros Hshow. rewrite get_set_eq. unfold agree, shows in *.
      simpl. intuition.
    + now rewrite Hget.
Qed.

(** X25: the task list shows the aggregate.  After any sequence of task
    events, in any order and for any number of tasks, the projector's entry
    for a task and the Task the state rebuilding handlers build from that
    task's events agree: both are missing (no creation seen yet, later
    events ignored on both sides), or the entry has the aggregate's id,
    title, description, assignee, status, creation and completion time. *)
Theorem task_list_shows_aggregate (events : list TaskEvent) (taskId : string) :
  agree (getTask (fold_left project events []) taskId)
        (rebuild (List.filter (fun e => String.eqb (taskIdOf e) taskId)
                              events)).
Proof.
  unfold rebuild.
  induction events as [| event events IH] using rev_ind; [exact I |].
  rewrite fold_left_app, List.filter_app, fold_left_app. cbn [fold_left].
  cbn [List.filter].
  destruct (String.eqb_spec (taskIdOf event) taskId) as [<- | Hne].
  - cbn [fold_left]. now apply project_own.
  - cbn [fold_left]. now rewrite project_other.
Qed.

Lemma after_one (now : string) (task : Task) (command : TaskCommand) :
  consistent task ->
  (forall i t d, command <> CreateTaskCommand i t d) ->
  exists task',
    after now (Some task) command = Some task' /\
    consistent task' /\
    rank (t_status task) <= rank (t_status task') /\
    (t_status task = COMPLETED -> task' = task) /\
    t_id task' = t_id task.
Proof.
  intros Hc Hcommand.
  destruct task as [id title description assignee status createdAt completedAt].
  unfold consistent in *. cbn [t_status t_completedAt t_assignee] in *.
  destruct command as [i t d | i a | i | i];
    [now destruct (Hcommand i t d) | | |];
    unfold after; cbn [handle handleAssign handleStart handleComplete t_status
                       t_assignee];
    destruct status; try destruct assignee as [[| c who] |];
    cbn [Js.orNull Js.truthy fold_left];
    (eexists; split; [reflexivity |]);
    cbn [t_status t_completedAt t_assignee t_id rank];
    repeat split;
    solve [intuition (discriminate || congruence || lia)].
Qed.

(** X26: a task only moves forward.  From a consistent task, whatever
    assign, start and complete commands follow and whichever of them the
    handlers reject, the task stays the same task, its status never goes
    back (TODO, then IN_PROGRESS, then COMPLETED), it has a completion time
    exactly when it is completed and an assignee once it has been started;
    a completed task is never changed again. *)
Theorem task_only_moves_forward (now : string) (commands : list TaskCommand) :
  forall task,
    consistent task ->
    Forall (fun c => forall i t d, c <> CreateTaskCommand i t d) commands ->
    exists task',
      fold_left (after now) commands (Some task) = Some task' /\
      consistent task' /\
      rank (t_status task) <= rank (t_status task') /\
      (t_status task = COMPLETED -> task' = task) /\
      t_id task' = t_id task.
Proof.
  induction commands as [| c commands IH]; intros task Hc Hall.
  - exists task. repeat split; auto; apply Hc.
  - inversion Hall as [| ? ? Hhead Htail]; subst.
    destruct (after_one now task c Hc Hhead)
      as (task1 & Hstep & Hc1 & Hrank1 & Hterm1 & Hid1).
    destruct (IH task1 Hc1 Htail)
      as (task' & Hrest & Hc' & Hrank' & Hterm' & Hid').
    exists task'. cbn [fold_left]. rewrite Hstep.
    split; [exact Hrest |]. split; [exact Hc' |].
    split; [lia |]. split; [| congruence].
    intros Hdone. specialize (Hterm1 Hdone). subst task1. now apply Hterm'.
Qed.

Lemma task_only_moves_forward_witness :
  exists task',
    fold_left (after "2024-01-02T00:00:00Z")
      [CompleteTaskCommand "task-1"; AssignTaskCommand "task-1" "Alice";
       StartTaskCommand "task-1"; CompleteTaskCommand "task-1";
       AssignTaskCommand "task-1" "Bob"]
      (Some (onTaskCreated None "task-1" "Implement login feature"
               "Add user authentication" "2024-01-01T00:00:00Z"))
    = Some task' /\
    consistent task'.
Proof.
  destruct (task_only_moves_forward "2024-01-02T00:00:00Z"
              [CompleteTaskCommand "task-1"; AssignTaskCommand "task-1" "Alice";
               StartTaskCommand "task-1"; CompleteTaskCommand "task-1";
               AssignTaskCommand "task-1" "Bob"]
              (onTaskCreated None "task-1" "Implement login feature"
                 "Add user authentication" "2024-01-01T00:00:00Z"))
    as (task' & Hrun & Hconsistent & _).
  - split; [split; [discriminate | intros H; now destruct H] |].
    intros H. now destruct H.
  - repeat constructor; discriminate.
  - exists task'. now split.
Defined.

End TaskReadModel.

Section FixtureAgainstRouter.
Import Event Command StateRebuildingCache CommandRouter.
Import CommandHandlingTestFixture.

Lemma filter_all {A} (p : A -> bool) (l : list A) :
  (forall x, In x l -> p x = true) -> List.filter p l = l.
Proof.
  induction l as [| x l IH]; intros Hall; simpl; [reflexivity |].
  rewrite (Hall x) by now left.
  rewrite IH; [reflexivity |]. intros y Hy. apply Hall. now right.
Qed.

Lemma fixture_applies_like_router handlers given :
  Forall2 sameHandler handlers given ->
  forall instance event metadata subject rawEvent,
    CommandHandlingTestFixture.applyStateRebuilding given instance event
    = applyHandlers handlers instance event metadata subject rawEvent.
Proof.
  induction 1 as [| def g handlers given [Hclass Hhandler] _ IH];
    intros instance event metadata subject rawEvent; [reflexivity |].
  cbn [CommandHandlingTestFixture.applyStateRebuilding applyHandlers].
  rewrite <- Hclass, Hhandler. cbn [callStateRebuildingHandler].
  destruct (String.eqb _ _); [| apply IH].
  destruct (g_handler g instance event) as [instance' |]; [| reflexivity].
  cbn [Js.bind]. apply IH.
Qed.

(** X27: the test fixture against the router.  When every state rebuilding
    handler of the router belongs to the aggregate's class and takes the
    instance and the event only, the instance the fixture's givenEvents
    builds from a list of events is the one the router's replay of those
    events, as published by a command handler, arrives at, and both fail
    with the same error when a handler throws; the fixture's when then runs
    the command handler as send does. *)
Theorem fixture_given_is_router_replay cfg instanceClass
  (given : list GivenHandler) (captured : list Captured) (subject : string) :
  (forall def, In def (stateRebuildingHandlers cfg) ->
               sr_instanceClass def = instanceClass) ->
  Forall2 sameHandler (stateRebuildingHandlers cfg) given ->
  givenEvents given (map c_event captured)
  = replayCaptured cfg None captured subject instanceClass /\
  forall handler instance command metadata,
    when handler instance command metadata
    = runHandler handler instance command metadata.
Proof.
  intros Hclass Hsame. split; [| reflexivity].
  assert (Hfor : stateRebuildingHandlersFor cfg instanceClass
                 = stateRebuildingHandlers cfg).
  { apply filter_all. intros def Hin. apply String.eqb_eq. now apply Hclass. }
  unfold givenEvents. generalize (@None Instance).
  induction captured as [| c captured IH]; intros instance; [reflexivity |].
  cbn [map applyAll replayCaptured].
  unfold CommandRouter.applyStateRebuilding. rewrite Hfor.
  rewrite (fixture_applies_like_router _ _ Hsame instance (c_event c)
             (c_metadata c) subject None).
  destruct (applyHandlers _ _ _ _ _ _) as [next |]; [| reflexivity].
  cbn [Js.bind]. apply IH.
Qed.

Lemma fixture_given_is_router_replay_witness :
  givenEvents
    [{| g_eventClass := "TaskCreated";
        g_handler := fun _ event =>
          Js.Ok {["title" := Samples.titleOf event]} |};
     {| g_eventClass := "TaskRenamed";
        g_handler := fun task event =>
          match task with
          | Some t => Js.Ok (<["title" := Samples.titleOf event]> t)
          | None =>
              Js.Throw "Cannot read properties of null (reading 'title')"
          end |}]
    (map c_event [Samples.taskCreated "Login"; Samples.taskRenamed "Sign in"])
  = replayCaptured Samples.taskRouter None
      [Samples.taskCreated "Login"; Samples.taskRenamed "Sign in"]
      "/task/t1" "Task".
Proof.
  apply (fixture_given_is_router_replay Samples.taskRouter "Task").
  - intros def Hin. simpl in Hin.
    decompose [or] Hin; subst; try reflexivity; contradiction.
  - repeat constructor.
Defined.

End FixtureAgainstRouter.
